(** * tender-cli: tool dispatch and parallel fan-out

    A shallow embedding of the dispatch layer of tender-cli:

    - [Registry]   : [BaseMCPTools.register_tool] / [get_tool_by_name]
                     (src/tender_cli/mcp_tools/base.py);
    - [FanOut]     : [MCPServer._run_parallel_tasks]
                     (src/tender_cli/mcp_tools/mcp_server.py);
    - [PyStr]      : the [str] methods and the regular expression the
                     client relies on;
    - [Client]     : [AIClient] (src/tender_cli/utils/ai_client.py):
                     [_call_mcp_tool], [_process_text_tool_calls],
                     [_get_mock_response], [chat] and [is_available];
    - [Agent]      : [MCPAgent._process_text_tool_calls]
                     (src/tender_cli/mcp_tools/mcp_agent.py);
    - [Document]   : [DocumentTools.export_pdf] and [format_tables]
                     (src/tender_cli/mcp_tools/document_tools.py);
    - [Content]    : [ContentTools] and the batch generation that runs
                     it (src/tender_cli/mcp_tools/content_tools.py);
    - [Conversation] : [ConversationManager]
                     (src/tender_cli/core/conversation.py);
    - [Config]     : the dotted keys of [Config], the environment and
                     [is_configured] (src/tender_cli/core/config.py).

    Python exceptions are values of [PyResult]; a Python [dict] is a
    [gmap]; the external completion service and the worker threads are
    explicit inputs of the functions that use them. *)

From Stdlib Require Import String Ascii QArith Qcanon.
From stdpp Require Import gmap strings list fin_maps sorting.

Local Open Scope string_scope.
#[local] Arguments String.append !s1 s2 /.

(** ** Exceptions as values *)

(** An exception carries its class name, [str(e)], and whether its
    class derives from [Exception]: [except Exception] catches those
    and lets the others pass ([SystemExit], [KeyboardInterrupt],
    [GeneratorExit] and the classes a program derives from
    [BaseException] alone). *)
Record Exn := mkExc { exn_class : string; exn_str : string; is_exception : bool }.

(** An instance of a class that derives from [Exception]. *)
Abbreviation mkExn class text := (mkExc class text true).

Inductive PyResult (A : Type) : Type :=
| Return (a : A)
| Raise (e : Exn).
Arguments Return {A} a.
Arguments Raise {A} e.

#[global] Instance PyResult_ret : MRet PyResult := λ A a, Return a.
#[global] Instance PyResult_bind : MBind PyResult := λ A B k m,
  match m with
  | Return a => k a
  | Raise e => Raise e
  end.

Definition returns {A} (m : PyResult A) : Prop := ∃ a, m = Return a.

(** [try: ... except Exception as e: ...]: an instance of [Exception]
    goes to the handler, any other exception goes on. *)
Definition except_Exception {A} (outcome : PyResult A) (handler : Exn → PyResult A)
    : PyResult A :=
  match outcome with
  | Return a => Return a
  | Raise e => if is_exception e then handler e else Raise e
  end.

(** A [for] loop over [items] whose body works on the state of the
    world and on an accumulator: an exception raised by the body ends
    the loop and goes on. *)
Fixpoint for_each {W A B} (body : W * B → A → W * PyResult B) (acc : W * B)
    (items : list A) : W * PyResult B :=
  match items with
  | [] => (acc.1, Return acc.2)
  | item :: rest =>
      match body acc item with
      | (w, Return b) => for_each body (w, b) rest
      | (w, Raise e) => (w, Raise e)
      end
  end.

(** Membership in a list that is written out. *)
Ltac elem_of_list :=
  repeat first [apply list_elem_of_here | apply list_elem_of_further].

(** ** The tool registry of [BaseMCPTools] *)

Module Registry.
Section registry.
(** Registered callables, with their [__name__]. *)
Context {Func : Type} (dunder_name : Func → string).
(** The FastMCP server object and its [tool()] decorator: a library
    outside the repository.  The decorator may return the function or
    raise, and may change the server. *)
Context {FastMCP : Type} (tool_decorator : FastMCP → Func → FastMCP * PyResult Func).

Record BaseMCPTools := mkTools {
  mcp_server : option FastMCP;
  _tools_registry : gmap string Func
}.

(** [__init__]: no server, empty registry. *)
Definition init : BaseMCPTools :=
  {| mcp_server := None; _tools_registry := ∅ |}.

(** [name or func.__name__]: [None] and the empty string are falsy. *)
Definition tool_name_of (func : Func) (name : option string) : string :=
  match name with
  | Some n => if String.eqb n "" then dunder_name func else n
  | None => dunder_name func
  end.

Definition register_tool (self : BaseMCPTools) (func : Func) (name : option string)
    : BaseMCPTools * PyResult Func :=
  match mcp_server self with
  | None =>
      (self, Raise (mkExn "RuntimeError"
         "MCP server not initialized. Call create_mcp_server() first."))
  | Some srv =>
      let tool_name := tool_name_of func name in
      let registry := <[tool_name := func]> (_tools_registry self) in
      let '(srv', r) := tool_decorator srv func in
      ({| mcp_server := Some srv'; _tools_registry := registry |}, r)
  end.

Definition get_tool_by_name (self : BaseMCPTools) (name : string) : option Func :=
  _tools_registry self !! name.

Definition get_tools (self : BaseMCPTools) : gmap string Func :=
  _tools_registry self.

(** The exception [register_tool] raises by itself. *)
Definition is_guard_error {A} (r : PyResult A) : Prop :=
  ∃ msg, r = Raise (mkExn "RuntimeError" msg).

Lemma register_tool_server self func name :
  is_Some (mcp_server self) → is_Some (mcp_server (register_tool self func name).1).
Proof.
  intros [srv Hsrv]. unfold register_tool. rewrite Hsrv.
  destruct (tool_decorator srv func) as [srv' r]. simpl. eauto.
Qed.

Lemma register_tool_registry self func name :
  is_Some (mcp_server self) →
  _tools_registry (register_tool self func name).1
  = <[tool_name_of func name := func]> (_tools_registry self).
Proof.
  intros [srv Hsrv]. unfold register_tool. rewrite Hsrv.
  by destruct (tool_decorator srv func) as [srv' r].
Qed.

Lemma register_tool_no_server self func name :
  mcp_server self = None →
  register_tool self func name
  = (self, Raise (mkExn "RuntimeError"
       "MCP server not initialized. Call create_mcp_server() first.")).
Proof. intros H. unfold register_tool. by rewrite H. Qed.

Lemma tool_name_of_nonempty func n :
  n ≠ "" → tool_name_of func (Some n) = n.
Proof.
  intros Hn. unfold tool_name_of.
  destruct (String.eqb_spec n ""); [done|done].
Qed.

(** C8 (as amended).  With the server created and a non-empty [name]:
    registering [c1] then [c2] under [name] makes [get_tool_by_name]
    return [c2]; [register_tool] adds no error of its own to what the
    FastMCP decorator returns (no duplicate-name error); a name never
    registered resolves to [None]; and registering under [name] leaves
    the resolution of every other name unchanged. *)
Theorem register_last_wins (self : BaseMCPTools) (c1 c2 : Func) (name : string) :
  is_Some (mcp_server self) → name ≠ "" →
  let r1 := register_tool self c1 (Some name) in
  let r2 := register_tool r1.1 c2 (Some name) in
  get_tool_by_name r2.1 name = Some c2
  ∧ (∀ srv, mcp_server self = Some srv → r1.2 = (tool_decorator srv c1).2)
  ∧ (∀ srv, mcp_server r1.1 = Some srv → r2.2 = (tool_decorator srv c2).2)
  ∧ (∀ other, get_tool_by_name init other = None)
  ∧ (∀ other, other ≠ name →
       get_tool_by_name r1.1 other = get_tool_by_name self other
       ∧ get_tool_by_name r2.1 other = get_tool_by_name self other).
Proof.
  intros Hsrv Hname r1 r2.
  assert (Hsrv1 : is_Some (mcp_server r1.1)) by by apply register_tool_server.
  assert (H1 : _tools_registry r1.1 = <[name := c1]> (_tools_registry self)).
  { subst r1. rewrite register_tool_registry by done.
    by rewrite tool_name_of_nonempty. }
  assert (H2 : _tools_registry r2.1 = <[name := c2]> (_tools_registry r1.1)).
  { subst r2. rewrite register_tool_registry by done.
    by rewrite tool_name_of_nonempty. }
  unfold get_tool_by_name. split; [|split; [|split; [|split]]].
  - rewrite H2. apply lookup_insert_eq.
  - intros srv Hs. subst r1. unfold register_tool. rewrite Hs.
    by destruct (tool_decorator srv c1).
  - intros srv Hs. subst r2. unfold register_tool. rewrite Hs.
    by destruct (tool_decorator srv c2).
  - intros other. apply lookup_empty.
  - intros other Hne. rewrite H2, H1.
    rewrite !lookup_insert_ne by done. done.
Qed.
End registry.

(** A concrete registry: functions are identified by their [__name__],
    and the FastMCP decorator hands the function back. *)
Definition plain_decorator (srv : unit) (f : string) : unit * PyResult string :=
  (srv, Return f).

Definition created : BaseMCPTools (Func := string) (FastMCP := unit) :=
  {| mcp_server := Some tt; _tools_registry := ∅ |}.

Lemma register_last_wins_witness :
  let r1 := register_tool id plain_decorator created "c1" (Some "add") in
  let r2 := register_tool id plain_decorator r1.1 "c2" (Some "add") in
  get_tool_by_name r2.1 "add" = Some "c2".
Proof.
  refine (proj1 (register_last_wins id plain_decorator created "c1" "c2" "add" _ _)).
  - simpl. eauto.
  - discriminate.
Defined.

(** C8, as stated, fails: an empty [name] is falsy, so the tool is stored
    under the function's [__name__]; and before [create_mcp_server] the
    guard of [register_tool] raises and stores nothing. *)
Lemma register_last_wins_counterexample :
  (let r1 := register_tool id plain_decorator created "c1" (Some "") in
   let r2 := register_tool id plain_decorator r1.1 "c2" (Some "") in
   get_tool_by_name r2.1 "" ≠ Some "c2")
  ∧ (let r1 := register_tool id plain_decorator init "c1" (Some "add") in
     let r2 := register_tool id plain_decorator r1.1 "c2" (Some "add") in
     get_tool_by_name r2.1 "add" ≠ Some "c2" ∧ is_guard_error r2.2).
Proof.
  split; [|split].
  - vm_compute. discriminate.
  - vm_compute. discriminate.
  - eexists. reflexivity.
Qed.
End Registry.

(** ** The parallel fan-out engine of [MCPServer] *)

Module FanOut.

(** [int / int]: Python's true division.  The float it returns is the
    correctly rounded value of the exact quotient, which is what the
    model keeps; a zero divisor raises. *)
Definition true_div (a b : nat) : PyResult Qc :=
  match b with
  | 0 => Raise (mkExn "ZeroDivisionError" "division by zero")
  | S _ => Return (Q2Qc (Z.of_nat a # Pos.of_nat b))
  end.

Section fanout.
(** Tasks are arbitrary Python objects; only [str(task)] is used. *)
Context {Task Content : Type} (str : Task → string).

(** What [future.result()] does once the call has finished. *)
Inductive Outcome :=
| Returned (c : Content)
| Raised (e : Exn).

(** What one call [task_func(task)] does on a worker thread: it
    finishes [d] time units after it started, or it never does. *)
Inductive Run :=
| Finishes (d : nat) (o : Outcome)
| Hangs.

(** [self.max_workers], [self.timeout] and [self.executor], the one
    thread pool of the server, which every batch is submitted to.  The
    pool is the list of the times, counted from now, at which its
    workers have done the calls they were given before: a worker
    whose call never finishes is not in it.  The executor cannot be
    built with no worker, so [max_workers] is positive in every
    server. *)
Record MCPServer := mkServer {
  max_workers : nat;
  timeout : nat;
  executor : list nat
}.

(** The server as [__init__] builds it: every worker is free. *)
Definition new_server (max_workers timeout : nat) : MCPServer :=
  {| max_workers := max_workers; timeout := timeout;
     executor := replicate max_workers 0%nat |}.

(** A submitted call: its task, and when and how it finishes, counted
    from the moment the batch was submitted. *)
Record Future := mkFuture { fut_task : Task; fut_state : option (nat * Outcome) }.

(** One value of the [results] dict. *)
Record Entry := mkEntry {
  success : bool;
  content : option Content;
  error : option string
}.

(** The dict [_run_parallel_tasks] returns; [success_rate] is a key of
    the normal report only, [error] of the timeout report only. *)
Record BatchReport := mkReport {
  total_tasks : nat;
  completed : nat;
  results : gmap string Entry;
  success_rate : option Qc;
  report_error : option string
}.

(** *** The thread pool *)

(** The pool is the list of the times at which its workers become
    free.  [pick_min] takes the worker that is free first. *)
Fixpoint pick_min (workers : list nat) : option (nat * list nat) :=
  match workers with
  | [] => None
  | w :: ws =>
      match pick_min ws with
      | None => Some (w, [])
      | Some (m, rest) => if (w <=? m)%nat then Some (w, ws) else Some (m, w :: rest)
      end
  end.

(** [executor.submit] for each task in turn: the calls are queued in
    submission order and each starts as soon as a worker is free.  A
    worker whose call never finishes is lost to the pool. *)
Fixpoint submit_all (task_func : Task → Run) (workers : list nat) (task_list : list Task)
    : list Future :=
  match task_list with
  | [] => []
  | task :: rest =>
      match pick_min workers with
      | None => mkFuture task None :: submit_all task_func workers rest
      | Some (start, others) =>
          match task_func task with
          | Finishes d o =>
              mkFuture task (Some (start + d, o))
                :: submit_all task_func ((start + d) :: others) rest
          | Hangs => mkFuture task None :: submit_all task_func others rest
          end
      end
  end.

Definition finish_time (f : Future) : nat :=
  match fut_state f with Some (t, _) => t | None => 0 end.

Definition done_by (deadline : nat) (f : Future) : bool :=
  match fut_state f with Some (t, _) => (t <=? deadline)%nat | None => false end.

Definition finish_le (f g : Future) : Prop := (finish_time f ≤ finish_time g)%nat.

#[local] Instance finish_le_dec f g : Decision (finish_le f g) :=
  decide (finish_time f ≤ finish_time g)%nat.

(** [concurrent.futures.as_completed(fs, timeout)]: the futures that
    finish within [timeout], in the order they finish, and whether the
    iterator then raises [TimeoutError] because some are left. *)
Definition as_completed (fs : list Future) (deadline : nat) : list Future * bool :=
  let finished := filter (λ f, done_by deadline f = true) fs in
  (merge_sort finish_le finished, negb (length finished =? length fs)%nat).

(** *** The collecting loop *)

Definition entry_of (o : Outcome) : Entry :=
  match o with
  | Returned c => {| success := true; content := Some c; error := None |}
  | Raised e => {| success := false; content := None; error := Some (exn_str e) |}
  end.

(** [results[str(task)] = {...}] *)
Definition store_result (results : gmap string Entry) (f : Future) : gmap string Entry :=
  match fut_state f with
  | Some (_, o) => <[str (fut_task f) := entry_of o]> results
  | None => results
  end.

(** What [future.result()] raises past [except Exception]. *)
Definition escapes (f : Future) : option Exn :=
  match fut_state f with
  | Some (_, Raised e) => if is_exception e then None else Some e
  | _ => None
  end.

(** One iteration of the loop: the result or the caught exception is
    stored; an exception that is not an [Exception] leaves the loop. *)
Definition record_result (results : gmap string Entry) (f : Future)
    : PyResult (gmap string Entry) :=
  match escapes f with
  | Some e => Raise e
  | None => Return (store_result results f)
  end.

(** The loop over the futures in the order they are yielded. *)
Fixpoint collect (results : gmap string Entry) (yielded : list Future)
    : PyResult (gmap string Entry) :=
  match yielded with
  | [] => Return results
  | f :: rest => results ← record_result results f; collect results rest
  end.

(** [sum(1 for r in results.values() if r["success"])] *)
Definition count_success (results : gmap string Entry) : nat :=
  length (filter (λ kv, success kv.2 = true) (map_to_list results)).

Definition _run_parallel_tasks (self : MCPServer) (task_func : Task → Run)
    (task_list : list Task) : PyResult BatchReport :=
  let future_to_task := submit_all task_func (executor self) task_list in
  let total := length task_list in
  let '(yielded, timed_out) := as_completed future_to_task (timeout self) in
  results ← collect ∅ yielded;
  let completed := length yielded in
  if timed_out then
    (* except concurrent.futures.TimeoutError *)
    Return {| total_tasks := length task_list;
              completed := size results;
              results := results;
              success_rate := None;
              report_error := Some "Timeout" |}
  else
    rate ← true_div (count_success results) total;
    Return {| total_tasks := total;
              completed := completed;
              results := results;
              success_rate := Some rate;
              report_error := None |}.

(** [parallel_generate_subsections]: the batch entry point; the task
    function is [_generate_subsection_task]. *)
Definition parallel_generate_subsections (self : MCPServer)
    (_generate_subsection_task : Task → Run) (subsections_list : list Task)
    : PyResult BatchReport :=
  _run_parallel_tasks self _generate_subsection_task subsections_list.

(** The report says that the deadline elapsed. *)
Definition timed_out (r : BatchReport) : bool :=
  bool_decide (report_error r = Some "Timeout").

(** *** Facts about the pool *)

Definition idle (workers : list nat) : nat := length (filter (λ w, w = 0%nat) workers).

Lemma pick_min_nil ws : pick_min ws = None → ws = [].
Proof.
  destruct ws as [|w ws]; [done|]. simpl.
  destruct (pick_min ws) as [[m rest]|]; [|done].
  by destruct (w <=? m)%nat.
Qed.

Lemma pick_min_idle ws :
  (0 < idle ws)%nat →
  ∃ others, pick_min ws = Some (0%nat, others) ∧ idle ws = S (idle others).
Proof.
  unfold idle. induction ws as [|w ws IH]; simpl; [lia|].
  rewrite filter_cons. intros Hpos.
  destruct (pick_min ws) as [[m rest]|] eqn:Hpick.
  - destruct (decide (w = 0%nat)) as [->|Hw].
    + simpl. eauto.
    + destruct (IH Hpos) as (others & [= -> ->] & Hidle).
      destruct (Nat.leb_spec w 0); [lia|].
      eexists; split; [done|]. rewrite filter_cons.
      by destruct (decide (w = 0%nat)).
  - apply pick_min_nil in Hpick as ->.
    destruct (decide (w = 0%nat)) as [->|Hw]; simpl in *; [eauto|lia].
Qed.

(** With a free worker for every task, each call starts at once. *)
Definition immediate (task_func : Task → Run) (task : Task) : Future :=
  mkFuture task
    match task_func task with Finishes d o => Some (d, o) | Hangs => None end.

Lemma idle_cons w ws : (idle ws ≤ idle (w :: ws))%nat.
Proof. unfold idle. rewrite filter_cons. destruct (decide _); simpl; lia. Qed.

Lemma submit_all_idle task_func ws task_list :
  (length task_list ≤ idle ws)%nat →
  submit_all task_func ws task_list = immediate task_func <$> task_list.
Proof.
  revert ws. induction task_list as [|t ts IH]; intros ws Hlen; [done|].
  cbn [length] in Hlen.
  destruct (pick_min_idle ws) as (others & Hpick & Hidle); [lia|].
  cbn [submit_all fmap list_fmap]. rewrite Hpick. unfold immediate at 1.
  destruct (task_func t) as [d o|]; f_equal; apply IH.
  - pose proof (idle_cons (0 + d) others). lia.
  - lia.
Qed.

Lemma idle_replicate n : idle (replicate n 0%nat) = n.
Proof.
  unfold idle. induction n as [|n IH]; [done|].
  cbn [replicate]. rewrite filter_cons.
  destruct (decide (0 = 0)%nat); [|done]. cbn [length]. by rewrite IH.
Qed.

Lemma submit_all_wide task_func n task_list :
  (length task_list ≤ n)%nat →
  submit_all task_func (replicate n 0%nat) task_list = immediate task_func <$> task_list.
Proof. intros. apply submit_all_idle. by rewrite idle_replicate. Qed.

Lemma submit_all_tasks task_func ws task_list :
  fut_task <$> submit_all task_func ws task_list = task_list.
Proof.
  revert ws. induction task_list as [|t ts IH]; intros ws; [done|].
  simpl. destruct (pick_min ws) as [[start others]|].
  - destruct (task_func t); simpl; by rewrite IH.
  - simpl. by rewrite IH.
Qed.

Lemma as_completed_yielded (fs : list Future) deadline :
  (as_completed fs deadline).1 ≡ₚ filter (λ f, done_by deadline f = true) fs.
Proof. unfold as_completed. simpl. apply merge_sort_Permutation. Qed.

(** *** Facts about the collecting loop *)

Definition kv_of (f : Future) : option (string * Entry) :=
  match fut_state f with
  | Some (_, o) => Some (str (fut_task f), entry_of o)
  | None => None
  end.

Lemma store_result_kv (m : gmap string Entry) f :
  store_result m f
  = match kv_of f with Some (k, e) => <[k := e]> m | None => m end.
Proof. unfold store_result, kv_of. by destruct (fut_state f) as [[? ?]|]. Qed.

Lemma results_to_list (l : list Future) :
  NoDup (omap kv_of l).*1 →
  map_to_list (foldl store_result ∅ l) ≡ₚ omap kv_of l.
Proof.
  induction l as [|f l IH] using rev_ind; intros Hnd.
  - simpl. by rewrite map_to_list_empty.
  - rewrite foldl_app. simpl. rewrite store_result_kv.
    rewrite omap_app in Hnd |- *. simpl in *.
    destruct (kv_of f) as [[k e]|]; simpl in *.
    + rewrite fmap_app in Hnd. apply NoDup_app in Hnd as (Hl & Hfresh & _).
      specialize (IH Hl).
      rewrite map_to_list_insert.
      * rewrite IH. by rewrite Permutation_app_comm.
      * destruct (foldl store_result ∅ l !! k) as [e'|] eqn:Hk; [|done].
        exfalso. apply elem_of_map_to_list in Hk. rewrite IH in Hk.
        apply (Hfresh k).
        -- apply list_elem_of_fmap. by exists (k, e').
        -- simpl. left.
    + rewrite app_nil_r in Hnd |- *. auto.
Qed.

(** *** The run when every task has a worker of its own *)

Definition in_time (task_func : Task → Run) (deadline : nat) (task : Task) : bool :=
  match task_func task with
  | Finishes d _ => (d <=? deadline)%nat
  | Hangs => false
  end.

Definition succeeds (task_func : Task → Run) (task : Task) : bool :=
  match task_func task with
  | Finishes _ (Returned _) => true
  | _ => false
  end.

Definition kv_task (task_func : Task → Run) (task : Task) : option (string * Entry) :=
  match task_func task with
  | Finishes _ o => Some (str task, entry_of o)
  | Hangs => None
  end.

Lemma filter_done_immediate task_func deadline (l : list Task) :
  filter (λ f, done_by deadline f = true) (immediate task_func <$> l)
  = immediate task_func <$> filter (λ t, in_time task_func deadline t = true) l.
Proof.
  induction l as [|t l IH]; [done|].
  cbn [fmap list_fmap]. rewrite !filter_cons, IH.
  assert (Heq : done_by deadline (immediate task_func t) = in_time task_func deadline t).
  { unfold done_by, in_time, immediate. simpl. by destruct (task_func t). }
  rewrite Heq. by destruct (decide _).
Qed.

Lemma omap_kv_immediate task_func (l : list Task) :
  omap kv_of (immediate task_func <$> l) = omap (kv_task task_func) l.
Proof.
  induction l as [|t l IH]; [done|].
  cbn [fmap list_fmap omap list_omap]. rewrite <-IH.
  unfold kv_of, kv_task, immediate. simpl. by destruct (task_func t).
Qed.

Lemma kv_task_keys task_func (l : list Task) :
  (omap (kv_task task_func) l).*1 `sublist_of` str <$> l.
Proof.
  induction l as [|t l IH]; [done|].
  cbn [fmap list_fmap omap list_omap]. unfold kv_task at 1.
  destruct (task_func t); simpl; by constructor.
Qed.

Lemma kv_task_in_time task_func deadline (l : list Task) :
  length (omap (kv_task task_func) (filter (λ t, in_time task_func deadline t = true) l))
  = length (filter (λ t, in_time task_func deadline t = true) l).
Proof.
  induction l as [|t l IH]; [done|].
  rewrite filter_cons. destruct (decide _) as [Hin|]; [|done].
  cbn [omap list_omap length]. unfold in_time in Hin. unfold kv_task at 1.
  destruct (task_func t); [|done]. simpl. by rewrite IH.
Qed.

Lemma count_kv_task task_func (l : list Task) :
  length (filter (λ kv, success kv.2 = true) (omap (kv_task task_func) l))
  = length (filter (λ t, succeeds task_func t = true) l).
Proof.
  induction l as [|t l IH]; [done|].
  cbn [omap list_omap]. rewrite (filter_cons _ t).
  assert (Hs : succeeds task_func t
               = match kv_task task_func t with
                 | Some kv => success kv.2
                 | None => false
                 end).
  { unfold succeeds, kv_task. by destruct (task_func t) as [d [c|e]|]. }
  destruct (kv_task task_func t) as [kv|].
  - rewrite filter_cons.
    destruct (decide (success kv.2 = true)), (decide (succeeds task_func t = true));
      simpl; congruence.
  - destruct (decide (succeeds task_func t = true)); [congruence|done].
Qed.

Section wide.
Variables (self : MCPServer) (task_func : Task → Run) (task_list : list Task).
Hypothesis pool : (length task_list ≤ idle (executor self))%nat.
Hypothesis distinct : NoDup (str <$> task_list).

Let futures := submit_all task_func (executor self) task_list.
Let finished := filter (λ t, in_time task_func (timeout self) t = true) task_list.
Let yielded := (as_completed futures (timeout self)).1.
Let collected := foldl store_result ∅ yielded.

Lemma wide_yielded : yielded ≡ₚ immediate task_func <$> finished.
Proof.
  subst yielded futures finished. rewrite as_completed_yielded.
  rewrite submit_all_idle by done. by rewrite filter_done_immediate.
Qed.

Lemma wide_timed_out :
  (as_completed futures (timeout self)).2
  = negb (length finished =? length task_list)%nat.
Proof.
  subst futures finished. unfold as_completed. simpl.
  rewrite submit_all_idle by done. rewrite filter_done_immediate.
  by rewrite !length_fmap.
Qed.

Lemma wide_keys : NoDup (omap (kv_task task_func) finished).*1.
Proof.
  eapply sublist_NoDup; [exact distinct|].
  etrans; [apply kv_task_keys|]. apply fmap_sublist, sublist_filter.
Qed.

Lemma wide_collected :
  map_to_list collected ≡ₚ omap (kv_task task_func) finished.
Proof.
  subst collected.
  assert (Hkv : omap kv_of yielded ≡ₚ omap (kv_task task_func) finished).
  { rewrite wide_yielded. by rewrite omap_kv_immediate. }
  rewrite results_to_list; [done|]. rewrite Hkv. apply wide_keys.
Qed.

Lemma wide_length : length yielded = length finished.
Proof. rewrite wide_yielded. by rewrite length_fmap. Qed.

Lemma wide_size : size collected = length finished.
Proof.
  rewrite <-length_map_to_list, wide_collected. apply kv_task_in_time.
Qed.

Lemma wide_lookup_Some task d o :
  task ∈ task_list → task_func task = Finishes d o → (d ≤ timeout self)%nat →
  collected !! str task = Some (entry_of o).
Proof.
  intros Hin Hrun Hd. apply elem_of_map_to_list. rewrite wide_collected.
  apply list_elem_of_omap. exists task. split.
  - apply list_elem_of_filter. split; [|done].
    unfold in_time. rewrite Hrun. by apply Nat.leb_le.
  - unfold kv_task. by rewrite Hrun.
Qed.

Lemma wide_lookup_None task :
  task ∈ task_list → in_time task_func (timeout self) task = false →
  collected !! str task = None.
Proof.
  intros Hin Hlate.
  destruct (collected !! str task) as [e|] eqn:Hlook; [|done]. exfalso.
  apply elem_of_map_to_list in Hlook. rewrite wide_collected in Hlook.
  apply list_elem_of_omap in Hlook as (t' & Ht' & Hkv).
  apply list_elem_of_filter in Ht' as [Hok Ht'].
  assert (Hstr : str t' = str task).
  { unfold kv_task in Hkv. destruct (task_func t'); by simplify_eq. }
  assert (t' = task) as ->; [|congruence].
  clear -Hin Ht' Hstr distinct.
  apply list_elem_of_lookup in Hin as [i Hi].
  apply list_elem_of_lookup in Ht' as [j Hj].
  assert (i = j) as ->; [|congruence].
  eapply NoDup_lookup; [exact distinct| |].
  - rewrite list_lookup_fmap, Hi. done.
  - rewrite list_lookup_fmap, Hj. simpl. by rewrite Hstr.
Qed.

Lemma wide_count :
  count_success collected
  = length (filter (λ t, succeeds task_func t = true) finished).
Proof.
  unfold count_success. rewrite wide_collected. apply count_kv_task.
Qed.
End wide.

(** *** The reports *)

Lemma submit_all_length task_func ws (task_list : list Task) :
  length (submit_all task_func ws task_list) = length task_list.
Proof.
  pose proof (f_equal length (submit_all_tasks task_func ws task_list)) as Hlen.
  by rewrite length_fmap in Hlen.
Qed.

(** A future comes from a task of the list, and finishes no earlier
    than the task runs. *)
Lemma submit_all_sound task_func ws (task_list : list Task) f :
  f ∈ submit_all task_func ws task_list →
  fut_task f ∈ task_list
  ∧ ∀ t o, fut_state f = Some (t, o) →
      ∃ d, task_func (fut_task f) = Finishes d o ∧ (d ≤ t)%nat.
Proof.
  revert ws. induction task_list as [|task rest IH]; intros ws; simpl.
  - intros Hf. by apply elem_of_nil in Hf.
  - destruct (pick_min ws) as [[start others]|].
    + destruct (task_func task) as [d o|] eqn:Hrun.
      * intros [->|Hf]%elem_of_cons; simpl.
        -- split; [left|]. intros t o' [= <- <-]. exists d. split; [done|lia].
        -- destruct (IH _ Hf) as [Hin Hstate]. split; [by right|done].
      * intros [->|Hf]%elem_of_cons; simpl.
        -- split; [left|done].
        -- destruct (IH _ Hf) as [Hin Hstate]. split; [by right|done].
    + intros [->|Hf]%elem_of_cons; simpl.
      * split; [left|done].
      * destruct (IH _ Hf) as [Hin Hstate]. split; [by right|done].
Qed.

Lemma yielded_done (fs : list Future) deadline f :
  f ∈ (as_completed fs deadline).1 → f ∈ fs ∧ done_by deadline f = true.
Proof.
  rewrite as_completed_yielded. intros Hf%list_elem_of_filter. tauto.
Qed.

Lemma yielded_length (fs : list Future) deadline :
  (length (as_completed fs deadline).1 ≤ length fs)%nat
  ∧ ((as_completed fs deadline).2 = false →
     length (as_completed fs deadline).1 = length fs)
  ∧ ((as_completed fs deadline).2 = true →
     (length (as_completed fs deadline).1 < length fs)%nat).
Proof.
  rewrite as_completed_yielded. unfold as_completed. cbn [snd].
  pose proof (length_filter (λ f, done_by deadline f = true) fs) as Hle.
  split; [done|]. split.
  - intros Heq%negb_false_iff%Nat.eqb_eq. done.
  - intros Hne%negb_true_iff%Nat.eqb_neq. lia.
Qed.

Lemma run_unfold self task_func task_list :
  _run_parallel_tasks self task_func task_list
  = let ac := as_completed (submit_all task_func (executor self) task_list)
                (timeout self) in
    results ← collect ∅ ac.1;
    if ac.2 then
      Return {| total_tasks := length task_list; completed := size results;
                results := results; success_rate := None;
                report_error := Some "Timeout" |}
    else
      rate ← true_div (count_success results) (length task_list);
      Return {| total_tasks := length task_list; completed := length ac.1;
                results := results; success_rate := Some rate;
                report_error := None |}.
Proof. unfold _run_parallel_tasks. by destruct (as_completed _ _). Qed.

(** The loop stores every outcome unless one escapes. *)
Lemma collect_stored (l : list Future) (m : gmap string Entry) :
  (∀ f, f ∈ l → escapes f = None) → collect m l = Return (foldl store_result m l).
Proof.
  revert m. induction l as [|f l IH]; intros m Hall; [done|].
  cbn [collect foldl]. unfold record_result. rewrite (Hall f) by left.
  cbn [mbind PyResult_bind]. apply IH. intros f' Hf'. apply Hall. by right.
Qed.

Lemma collect_return (l : list Future) (m m' : gmap string Entry) :
  collect m l = Return m' → m' = foldl store_result m l.
Proof.
  revert m. induction l as [|f l IH]; intros m; [by intros [= <-]|].
  cbn [collect foldl]. unfold record_result.
  destruct (escapes f); [done|]. cbn [mbind PyResult_bind]. apply IH.
Qed.

Lemma collect_raise (l : list Future) (m : gmap string Entry) e :
  collect m l = Raise e → ∃ f, f ∈ l ∧ escapes f = Some e.
Proof.
  revert m. induction l as [|f l IH]; intros m; [done|].
  cbn [collect]. unfold record_result.
  destruct (escapes f) as [e'|] eqn:Hf.
  - intros [= <-]. exists f. split; [left|done].
  - cbn [mbind PyResult_bind]. intros (f' & Hin & Hf')%IH. exists f'. split; [by right|done].
Qed.

(** The exceptions of a task that [except Exception] does not catch
    matter only when the task has finished by the deadline. *)
Definition no_escape (task_func : Task → Run) (deadline : nat) (task : Task) : bool :=
  match task_func task with
  | Finishes d (Raised e) => is_exception e || negb (d <=? deadline)%nat
  | _ => true
  end.

Lemma no_escape_future task_func ws (task_list : list Task) deadline f :
  (∀ task, task ∈ task_list → no_escape task_func deadline task = true) →
  f ∈ (as_completed (submit_all task_func ws task_list) deadline).1 →
  escapes f = None.
Proof.
  intros Hall [Hf Hdone]%yielded_done.
  destruct (submit_all_sound _ _ _ _ Hf) as [Htask Hstate].
  unfold escapes. destruct (fut_state f) as [[t [c|e]]|] eqn:Hst; [done| |done].
  destruct (Hstate t (Raised e) eq_refl) as (d & Hrun & Hd).
  specialize (Hall _ Htask). unfold no_escape in Hall. rewrite Hrun in Hall.
  destruct (is_exception e); [done|]. cbn [orb] in Hall.
  apply negb_true_iff, Nat.leb_gt in Hall.
  unfold done_by in Hdone. rewrite Hst in Hdone. apply Nat.leb_le in Hdone. lia.
Qed.

(** The run of a batch none of whose exceptions escapes. *)
Lemma run_caught self task_func task_list :
  (∀ task, task ∈ task_list → no_escape task_func (timeout self) task = true) →
  _run_parallel_tasks self task_func task_list
  = let ac := as_completed (submit_all task_func (executor self) task_list)
                (timeout self) in
    let results := foldl store_result ∅ ac.1 in
    if ac.2 then
      Return {| total_tasks := length task_list; completed := size results;
                results := results; success_rate := None;
                report_error := Some "Timeout" |}
    else
      rate ← true_div (count_success results) (length task_list);
      Return {| total_tasks := length task_list; completed := length ac.1;
                results := results; success_rate := Some rate;
                report_error := None |}.
Proof.
  intros Hall. rewrite run_unfold. cbv zeta.
  rewrite collect_stored; [done|].
  intros f Hf. by eapply no_escape_future.
Qed.

Lemma filter_all_in_time task_func deadline (l : list Task) :
  (∀ t, t ∈ l → in_time task_func deadline t = true) →
  filter (λ t, in_time task_func deadline t = true) l = l.
Proof.
  induction l as [|t l IH]; intros Hall; [done|].
  rewrite filter_cons. destruct (decide _) as [|Hno].
  - f_equal. apply IH. intros t' Ht'. apply Hall. by right.
  - destruct Hno. apply Hall. left.
Qed.

Lemma filter_all_succeed task_func (l : list Task) :
  (∀ t, t ∈ l → succeeds task_func t = true) →
  filter (λ t, succeeds task_func t = true) l = l.
Proof.
  induction l as [|t l IH]; intros Hall; [done|].
  rewrite filter_cons. destruct (decide _) as [|Hno].
  - f_equal. apply IH. intros t' Ht'. apply Hall. by right.
  - destruct Hno. apply Hall. left.
Qed.

Lemma rate_one n : (0 < n)%nat → Q2Qc (Z.of_nat n # Pos.of_nat n) = 1%Qc.
Proof.
  intros Hn. apply Qc_is_canon. simpl. rewrite Qred_correct.
  unfold Qeq. simpl. destruct n as [|n]; lia.
Qed.

(** C10.  An empty batch does not get a report: nothing is yielded, no
    timeout is raised, and the unguarded division by [total = 0]
    raises [ZeroDivisionError], which the [TimeoutError] handler does
    not catch. *)
Theorem empty_batch_raises (self : MCPServer) (task_func : Task → Run) :
  _run_parallel_tasks self task_func []
    = Raise (mkExn "ZeroDivisionError" "division by zero")
  ∧ parallel_generate_subsections self task_func []
    = Raise (mkExn "ZeroDivisionError" "division by zero")
  ∧ ¬ returns (_run_parallel_tasks self task_func []).
Proof.
  assert (H : _run_parallel_tasks self task_func []
              = Raise (mkExn "ZeroDivisionError" "division by zero")) by done.
  split; [done|]. split; [done|].
  rewrite H. by intros [r ?].
Qed.

(** C4 (as amended).  A batch of [N > 0] tasks with pairwise distinct
    [str(task)], a free worker for each, all finishing within the
    timeout by returning or by raising an [Exception]: the report has
    [completed = total_tasks = N], is not a timeout report, and its
    [success_rate] is the number of succeeding tasks over [N], hence
    [1] when all succeed. *)
Theorem all_finish_report (self : MCPServer) (task_func : Task → Run)
    (task_list : list Task) :
  (0 < length task_list)%nat →
  (length task_list ≤ idle (executor self))%nat →
  NoDup (str <$> task_list) →
  (∀ t, t ∈ task_list → in_time task_func (timeout self) t = true) →
  (∀ t, t ∈ task_list → no_escape task_func (timeout self) t = true) →
  ∃ r, _run_parallel_tasks self task_func task_list = Return r
    ∧ total_tasks r = length task_list
    ∧ completed r = length task_list
    ∧ timed_out r = false
    ∧ success_rate r
      = Some (Q2Qc (Z.of_nat (length (filter (λ t, succeeds task_func t = true) task_list))
                    # Pos.of_nat (length task_list)))
    ∧ ((∀ t, t ∈ task_list → succeeds task_func t = true) →
       success_rate r = Some 1%Qc).
Proof.
  intros Hpos Hpool Hnd Hall Hcaught. rewrite run_caught by done. cbv zeta.
  rewrite wide_timed_out by done.
  rewrite wide_count by done. rewrite wide_length by done.
  rewrite filter_all_in_time by done. rewrite Nat.eqb_refl. simpl.
  destruct (length task_list) as [|n] eqn:Hlen; [lia|].
  simpl. eexists. split; [done|]. simpl.
  repeat split; try done.
  intros Hok. rewrite filter_all_succeed by done.
  rewrite Hlen. f_equal. apply rate_one. lia.
Qed.



(** C1 (as amended).  Tasks [a] (returns within the timeout), [b]
    (not finished when the timeout elapses) and [c] (raises an
    [Exception] whose text is "x" within the timeout), each with a free
    worker: the report has [total_tasks = 3], [completed = 2], the
    entry ["error": "Timeout"], the outcomes of [a] and [c], no entry
    for [b], and no [success_rate]. *)
Theorem timeout_report (self : MCPServer) (task_func : Task → Run)
    (a b c : Task) (da dc : nat) (ca : Content) (e : Exn) :
  (3 ≤ idle (executor self))%nat →
  NoDup [str a; str b; str c] →
  task_func a = Finishes da (Returned ca) → (da ≤ timeout self)%nat →
  in_time task_func (timeout self) b = false →
  task_func c = Finishes dc (Raised e) → (dc ≤ timeout self)%nat →
  is_exception e = true → exn_str e = "x" →
  ∃ r, _run_parallel_tasks self task_func [a; b; c] = Return r
    ∧ total_tasks r = 3%nat
    ∧ completed r = 2%nat
    ∧ timed_out r = true
    ∧ results r !! str a = Some {| success := true; content := Some ca; error := None |}
    ∧ results r !! str c = Some {| success := false; content := None; error := Some "x" |}
    ∧ results r !! str b = None
    ∧ success_rate r = None.
Proof.
  intros Hpool Hnd Ha Hda Hb Hc Hdc He Hx.
  assert (Hcaught : ∀ t, t ∈ [a; b; c] → no_escape task_func (timeout self) t = true).
  { intros t Ht. unfold no_escape.
    apply elem_of_cons in Ht as [->|Ht]; [by rewrite Ha|].
    apply elem_of_cons in Ht as [->|Ht].
    - unfold in_time in Hb. destruct (task_func b) as [d [cb|eb]|]; [done| |done].
      rewrite Hb. apply orb_true_r.
    - apply list_elem_of_singleton in Ht as ->. by rewrite Hc, He. }
  rewrite run_caught by done. cbv zeta.
  assert (Hfin : filter (λ t, in_time task_func (timeout self) t = true) [a; b; c]
                 = [a; c]).
  { assert (Hia : in_time task_func (timeout self) a = true).
    { unfold in_time. rewrite Ha. by apply Nat.leb_le. }
    assert (Hic : in_time task_func (timeout self) c = true).
    { unfold in_time. rewrite Hc. by apply Nat.leb_le. }
    rewrite !filter_cons, filter_nil.
    repeat destruct (decide _); congruence. }
  pose proof (wide_size self task_func [a; b; c] Hpool Hnd) as Hsize.
  pose proof (wide_lookup_Some self task_func [a; b; c] Hpool Hnd a da _
                ltac:(elem_of_list) Ha Hda) as Hla.
  pose proof (wide_lookup_Some self task_func [a; b; c] Hpool Hnd c dc _
                ltac:(elem_of_list) Hc Hdc) as Hlc.
  pose proof (wide_lookup_None self task_func [a; b; c] Hpool Hnd b
                ltac:(elem_of_list) Hb) as Hlb.
  rewrite Hfin in Hsize.
  rewrite wide_timed_out by done. rewrite Hfin.
  set (res := foldl store_result ∅ _) in *.
  cbn [length Nat.eqb negb].
  eexists. split; [done|]. cbn [total_tasks completed results success_rate].
  split; [done|]. split; [done|]. split; [done|].
  split; [done|]. split; [|done].
  rewrite Hlc. simpl. by rewrite Hx.
Qed.

(** *** The report of any batch *)

Lemma collected_size (l : list Future) (m : gmap string Entry) :
  (size (foldl store_result m l) ≤ size m + length l)%nat.
Proof.
  revert m. induction l as [|f l IH]; intros m; simpl; [lia|].
  etrans; [apply IH|]. unfold store_result.
  destruct (fut_state f) as [[t o]|]; [|lia].
  rewrite map_size_insert. destruct (m !! _); unfold id; lia.
Qed.

Lemma count_success_size (m : gmap string Entry) : (count_success m ≤ size m)%nat.
Proof.
  unfold count_success. rewrite <-length_map_to_list. apply length_filter.
Qed.

(** Every entry of the collected dict is the outcome of a future of the
    list under that future's key. *)
Lemma collected_from (l : list Future) (m : gmap string Entry) k e :
  foldl store_result m l !! k = Some e →
  m !! k = Some e
  ∨ ∃ f t o, f ∈ l ∧ fut_state f = Some (t, o)
      ∧ str (fut_task f) = k ∧ e = entry_of o.
Proof.
  revert m. induction l as [|f l IH]; intros m; simpl; [by left|].
  intros [Hm|(f' & t & o & Hin & Hst & Hk & He)]%IH.
  - unfold store_result in Hm. destruct (fut_state f) as [[t o]|] eqn:Hst; [|by left].
    destruct (decide (str (fut_task f) = k)) as [<-|Hne].
    + rewrite lookup_insert_eq in Hm. injection Hm as <-.
      right. exists f, t, o. split; [left|done].
    + rewrite lookup_insert_ne in Hm by done. by left.
  - right. exists f', t, o. split; [by right|done].
Qed.

Lemma rate_bounds (c n : nat) :
  (c ≤ n)%nat → (0 < n)%nat →
  (0 ≤ Q2Qc (Z.of_nat c # Pos.of_nat n))%Qc ∧ (Q2Qc (Z.of_nat c # Pos.of_nat n) ≤ 1)%Qc.
Proof.
  intros Hc Hn. unfold Qcle. simpl. rewrite !Qred_correct.
  unfold Qle. simpl. destruct n as [|n]; [lia|]. split; lia.
Qed.

Lemma timed_out_timeout a b c d : timed_out (mkReport a b c d (Some "Timeout")) = true.
Proof. done. Qed.

Lemma timed_out_normal a b c d : timed_out (mkReport a b c d None) = false.
Proof. done. Qed.

(** The accounts of a batch that is not empty.  Either an exception
    that is not an [Exception], raised by a task of the batch within
    the timeout, leaves the call, or a report is returned: it has as
    many results as completed tasks or fewer, and no more completed
    tasks than tasks; every task is completed exactly when the report
    is not the timeout report; and the success rate, which only that
    report has, lies between 0 and 1. *)
Theorem report_accounting (self : MCPServer) (task_func : Task → Run)
    (task_list : list Task) :
  task_list ≠ [] →
  match _run_parallel_tasks self task_func task_list with
  | Raise e =>
      is_exception e = false
      ∧ ∃ task d, task ∈ task_list ∧ task_func task = Finishes d (Raised e)
          ∧ (d ≤ timeout self)%nat
  | Return r =>
      total_tasks r = length task_list
      ∧ (size (results r) ≤ completed r)%nat
      ∧ (completed r ≤ total_tasks r)%nat
      ∧ (timed_out r = false ↔ completed r = total_tasks r)
      ∧ match success_rate r with
        | Some rate => timed_out r = false ∧ (0 ≤ rate)%Qc ∧ (rate ≤ 1)%Qc
        | None => timed_out r = true
        end
  end.
Proof.
  intros Hne. rewrite run_unfold. cbv zeta.
  set (fs := submit_all task_func _ task_list).
  destruct (yielded_length fs (timeout self)) as (Hle & Hall & Hsome).
  pose proof (submit_all_length task_func (executor self) task_list) as Hfs.
  fold fs in Hfs.
  pose proof (collected_size (as_completed fs (timeout self)).1 ∅) as Hsize.
  rewrite map_size_empty in Hsize.
  destruct (collect ∅ (as_completed fs (timeout self)).1) as [res|e] eqn:Hcollect;
    cbn [mbind PyResult_bind].
  - apply collect_return in Hcollect. rewrite <-Hcollect in Hsize.
    assert (Hpos : (0 < length task_list)%nat) by (destruct task_list; [done|simpl; lia]).
    destruct (as_completed fs (timeout self)).2.
    + specialize (Hsome eq_refl).
      cbn [total_tasks completed results success_rate].
      rewrite timed_out_timeout.
      split; [done|]. split; [done|]. split; [lia|]. split; [|done].
      split; [done|lia].
    + specialize (Hall eq_refl).
      destruct (length task_list) as [|n] eqn:Hlen; [lia|]. cbn [true_div mbind PyResult_bind].
      cbn [total_tasks completed results success_rate].
      rewrite timed_out_normal.
      split; [done|]. split; [lia|]. split; [lia|]. split; [split; [lia|done]|].
      split; [done|]. apply rate_bounds; [|lia].
      pose proof (count_success_size res). lia.
  - apply collect_raise in Hcollect as (f & [Hf Hdone]%yielded_done & Hescape).
    destruct (submit_all_sound _ _ _ _ Hf) as [Htask Hstate].
    unfold escapes in Hescape.
    destruct (fut_state f) as [[t [c|e']]|] eqn:Hst; [done| |done].
    destruct (is_exception e') eqn:He; [done|]. injection Hescape as ->.
    split; [done|].
    destruct (Hstate t (Raised e) eq_refl) as (d & Hrun & Hd).
    exists (fut_task f), d. split; [done|]. split; [done|].
    unfold done_by in Hdone. rewrite Hst in Hdone. apply Nat.leb_le in Hdone. lia.
Qed.

(** Where an entry of a returned report comes from. *)
Lemma recorded_outcome (self : MCPServer) (task_func : Task → Run)
    (task_list : list Task) (r : BatchReport) (k : string) (e : Entry) :
  _run_parallel_tasks self task_func task_list = Return r →
  results r !! k = Some e →
  ∃ task d o,
    task ∈ task_list ∧ str task = k
    ∧ task_func task = Finishes d o ∧ (d ≤ timeout self)%nat
    ∧ e = entry_of o.
Proof.
  rewrite run_unfold. cbv zeta.
  set (fs := submit_all task_func _ task_list).
  intros Hrun Hlook.
  assert (Hres : foldl store_result ∅ (as_completed fs (timeout self)).1 !! k = Some e).
  { destruct (collect ∅ (as_completed fs (timeout self)).1) as [res|e'] eqn:Hcollect;
      [|done].
    apply collect_return in Hcollect as <-. cbn [mbind PyResult_bind] in Hrun.
    destruct (as_completed fs (timeout self)).2.
    - by injection Hrun as <-.
    - destruct (true_div _ _); [|done]. by injection Hrun as <-. }
  apply collected_from in Hres as [Hempty|(f & t & o & Hin & Hst & Hk & ->)];
    [by rewrite lookup_empty in Hempty|].
  apply yielded_done in Hin as [Hin Hdone].
  apply submit_all_sound in Hin as [Htask Hstate].
  destruct (Hstate t o Hst) as (d & Hfunc & Hd).
  exists (fut_task f), d, o. repeat split; try done.
  unfold done_by in Hdone. rewrite Hst in Hdone. apply Nat.leb_le in Hdone. lia.
Qed.

(** Nothing is recorded that did not happen: every entry of [results]
    is the outcome of a task of the batch with that [str(task)], whose
    own running time is within the timeout. *)
Theorem results_provenance (self : MCPServer) (task_func : Task → Run)
    (task_list : list Task) (r : BatchReport) (k : string) (e : Entry) :
  _run_parallel_tasks self task_func task_list = Return r →
  results r !! k = Some e →
  ∃ task d o,
    task ∈ task_list ∧ str task = k
    ∧ task_func task = Finishes d o ∧ (d ≤ timeout self)%nat
    ∧ e = entry_of o.
Proof. apply recorded_outcome. Qed.

Lemma filter_all {A} (P : A → Prop) `{!∀ x, Decision (P x)} (l : list A) :
  (∀ x, x ∈ l → P x) → filter P l = l.
Proof.
  induction l as [|x l IH]; intros Hall; [done|].
  rewrite filter_cons_True by (apply Hall; left).
  f_equal. apply IH. intros y Hy. apply Hall. by right.
Qed.

(** When every recorded entry is a success, the successes counted are
    all the results. *)
Lemma count_success_all (m : gmap string Entry) :
  (∀ k e, m !! k = Some e → success e = true) → count_success m = size m.
Proof.
  intros Hall. unfold count_success. rewrite <-length_map_to_list. f_equal.
  apply filter_all. intros [k e] Hin.
  apply elem_of_map_to_list in Hin. by apply (Hall k e).
Qed.


(** *** A pool smaller than the batch *)

(** The time the calls of a batch take when run one after another. *)
Definition work (task_func : Task → Run) (task_list : list Task) : nat :=
  sum_list ((λ task, match task_func task with Finishes d _ => d | Hangs => 0%nat end)
              <$> task_list).

Lemma pick_min_bound ws start others (bound : nat) :
  pick_min ws = Some (start, others) →
  Forall (λ t, t ≤ bound)%nat ws →
  (start ≤ bound)%nat ∧ Forall (λ t, t ≤ bound)%nat others.
Proof.
  revert start others. induction ws as [|w ws IH]; intros start others; [done|].
  cbn [pick_min]. intros Hpick [Hw Hws]%Forall_cons.
  destruct (pick_min ws) as [[m rest]|] eqn:Hmin.
  - destruct (IH m rest eq_refl Hws) as [Hm Hrest].
    destruct (w <=? m)%nat; injection Hpick as <- <-; [done|].
    split; [done|]. by constructor.
  - injection Hpick as <- <-. by split.
Qed.

(** However few the workers, every call has finished by the time the
    calls would take one after another. *)
Lemma submit_all_bounded task_func ws (task_list : list Task) (bound : nat) :
  ws ≠ [] → Forall (λ t, t ≤ bound)%nat ws →
  (∀ task, task ∈ task_list → task_func task ≠ Hangs) →
  ∀ f, f ∈ submit_all task_func ws task_list →
    ∃ t o, fut_state f = Some (t, o) ∧ (t ≤ bound + work task_func task_list)%nat.
Proof.
  revert ws bound. induction task_list as [|task rest IH]; intros ws bound Hne Hws Hruns f.
  { intros Hf. by apply elem_of_nil in Hf. }
  cbn [submit_all].
  destruct (pick_min ws) as [[start others]|] eqn:Hpick;
    [|by apply pick_min_nil in Hpick].
  destruct (pick_min_bound ws start others bound Hpick Hws) as [Hstart Hothers].
  unfold work. cbn [fmap list_fmap sum_list]. fold (work task_func rest).
  destruct (task_func task) as [d o|] eqn:Hrun;
    [|by destruct (Hruns task ltac:(left))].
  intros [->|Hf]%elem_of_cons.
  - exists (start + d)%nat, o. split; [done|]. unfold id. lia.
  - destruct (IH ((start + d)%nat :: others) (bound + d)%nat) with (f := f)
      as (t & o' & Hstate & Ht);
      [done| |by intros task' Hin; apply Hruns; right|done|].
    + constructor; [lia|]. eapply Forall_impl; [exact Hothers|]. intros t Ht. simpl in *. lia.
    + exists t, o'. split; [done|]. unfold id. lia.
Qed.

(** A batch whose calls all return or raise an [Exception], and would
    together take no longer than what is left of the timeout once the
    workers are free if run one after another, is never cut short,
    with any number of workers: the report is the normal one, with
    every task completed. *)
Theorem enough_time_report (self : MCPServer) (task_func : Task → Run)
    (task_list : list Task) (busy : nat) :
  executor self ≠ [] → Forall (λ t, t ≤ busy)%nat (executor self) →
  task_list ≠ [] →
  (∀ task, task ∈ task_list → task_func task ≠ Hangs) →
  (∀ task, task ∈ task_list → no_escape task_func (timeout self) task = true) →
  (busy + work task_func task_list ≤ timeout self)%nat →
  ∃ r, _run_parallel_tasks self task_func task_list = Return r
    ∧ total_tasks r = length task_list
    ∧ completed r = length task_list
    ∧ timed_out r = false
    ∧ is_Some (success_rate r).
Proof.
  intros Hworkers Hbusy Hne Hruns Hcaught Hwork. rewrite run_caught by done. cbv zeta.
  set (fs := submit_all task_func _ task_list).
  pose proof (submit_all_length task_func (executor self) task_list) as Hfs.
  fold fs in Hfs.
  assert (Hall : filter (λ f, done_by (timeout self) f = true) fs = fs).
  { apply filter_all. intros f Hf.
    destruct (submit_all_bounded task_func (executor self) task_list busy)
      with (f := f) as (t & o & Hstate & Ht); try done.
    unfold done_by. rewrite Hstate. apply Nat.leb_le. lia. }
  destruct (yielded_length fs (timeout self)) as (_ & Hlen & _).
  assert (Hnot : (as_completed fs (timeout self)).2 = false).
  { unfold as_completed. cbn [snd]. rewrite Hall. by rewrite Nat.eqb_refl. }
  specialize (Hlen Hnot). rewrite Hnot.
  destruct (length task_list) as [|n] eqn:Htotal; [by destruct task_list|].
  cbn [true_div mbind PyResult_bind].
  eexists. split; [done|]. cbn [total_tasks completed success_rate].
  rewrite timed_out_normal. split; [done|]. split; [lia|]. split; [done|]. by eexists.
Qed.

(** *** A task that cannot finish in time *)

Lemma filter_shorter {A} (P : A → Prop) `{!∀ x, Decision (P x)} (l : list A) x :
  x ∈ l → ¬ P x → (length (filter P l) < length l)%nat.
Proof.
  induction l as [|y l IH]; intros Hin Hx; [by apply elem_of_nil in Hin|].
  pose proof (length_filter P l) as Hle.
  rewrite filter_cons. apply elem_of_cons in Hin as [<-|Hin].
  - destruct (decide (P x)); [done|]. cbn [length]. lia.
  - specialize (IH Hin Hx). destruct (decide (P y)); cbn [length]; lia.
Qed.

(** A task that hangs, or runs for longer than the timeout, is enough
    for the timeout report, whatever the pool and whatever the other
    tasks do short of raising, in time, an exception that is not an
    [Exception]: the report has no success rate and counts fewer
    completed tasks than tasks; and the task is not among the results
    unless another task shares its key. *)
Theorem late_task_times_out (self : MCPServer) (task_func : Task → Run)
    (task_list : list Task) (task : Task) :
  task ∈ task_list → in_time task_func (timeout self) task = false →
  (∀ other, other ∈ task_list → no_escape task_func (timeout self) other = true) →
  ∃ r, _run_parallel_tasks self task_func task_list = Return r
    ∧ timed_out r = true
    ∧ success_rate r = None
    ∧ (completed r < total_tasks r)%nat
    ∧ ((∀ other, other ∈ task_list → str other = str task →
          in_time task_func (timeout self) other = false) →
       results r !! str task = None).
Proof.
  intros Hin Hlate Hcaught.
  set (fs := submit_all task_func (executor self) task_list).
  assert (Hfuture : ∃ f, f ∈ fs ∧ done_by (timeout self) f ≠ true).
  { assert (Htask : task ∈ fut_task <$> fs) by (subst fs; by rewrite submit_all_tasks).
    apply list_elem_of_fmap in Htask as (f & -> & Hf). exists f. split; [done|].
    destruct (submit_all_sound _ _ _ _ Hf) as [_ Hstate].
    unfold done_by. destruct (fut_state f) as [[t o]|]; [|done].
    destruct (Hstate t o eq_refl) as (d & Hrun & Hd).
    unfold in_time in Hlate. rewrite Hrun in Hlate.
    apply Nat.leb_gt in Hlate. intros Hdone%Nat.leb_le. lia. }
  destruct Hfuture as (f & Hf & Hnot).
  pose proof (filter_shorter (λ f, done_by (timeout self) f = true) fs f Hf Hnot) as Hshort.
  assert (Htimeout : (as_completed fs (timeout self)).2 = true).
  { unfold as_completed. cbn [snd]. apply negb_true_iff, Nat.eqb_neq. lia. }
  pose proof (submit_all_length task_func (executor self) task_list) as Hfs.
  fold fs in Hfs.
  pose proof (collected_size (as_completed fs (timeout self)).1 ∅) as Hsize.
  rewrite map_size_empty in Hsize.
  destruct (yielded_length fs (timeout self)) as (_ & _ & Hfew). specialize (Hfew Htimeout).
  assert (Hreport : ∃ r, _run_parallel_tasks self task_func task_list = Return r
                      ∧ timed_out r = true ∧ success_rate r = None
                      ∧ (completed r < total_tasks r)%nat).
  { rewrite run_caught by done. cbv zeta. fold fs. rewrite Htimeout.
    eexists. split; [done|]. cbn [total_tasks completed success_rate].
    rewrite timed_out_timeout. split; [done|]. split; [done|]. lia. }
  destruct Hreport as (r & Hrun & Hto & Hrate & Hcompleted).
  exists r. split; [done|]. split; [done|]. split; [done|]. split; [done|].
  intros Hkey. destruct (results r !! str task) as [e|] eqn:Hlook; [|done].
  destruct (recorded_outcome self task_func task_list r (str task) e Hrun Hlook)
    as (other & d & o & Hother & Hstr & Hfunc & Hd & _).
  specialize (Hkey other Hother Hstr). unfold in_time in Hkey. rewrite Hfunc in Hkey.
  apply Nat.leb_gt in Hkey. lia.
Qed.
End fanout.

(** *** Concrete batches: tasks are strings, [str] is the identity. *)

Definition server : MCPServer := new_server 24 5.

(** A: 1s, returns; B: 10s; C: 1s, raises "x". *)
Definition scenario_timeout (task : string) : Run (Content := string) :=
  if String.eqb task "A" then Finishes 1 (Returned "done")
  else if String.eqb task "B" then Finishes 10 (Returned "late")
  else Finishes 1 (Raised (mkExn "ValueError" "x")).

(** A: returns; B: raises "x"; C: returns. *)
Definition scenario_fault (task : string) : Run (Content := string) :=
  if String.eqb task "B" then Finishes 1 (Raised (mkExn "ValueError" "x"))
  else Finishes 1 (Returned ("content of " ++ task)).

(** The same, where B calls [sys.exit("x")]. *)
Definition scenario_exit (task : string) : Run (Content := string) :=
  if String.eqb task "B" then Finishes 1 (Raised (mkExc "SystemExit" "x" false))
  else Finishes 1 (Returned ("content of " ++ task)).

(** A: 1s, returns; B: 10s; C: 1s, calls [sys.exit("x")]. *)
Definition scenario_timeout_exit (task : string) : Run (Content := string) :=
  if String.eqb task "A" then Finishes 1 (Returned "done")
  else if String.eqb task "B" then Finishes 10 (Returned "late")
  else Finishes 1 (Raised (mkExc "SystemExit" "x" false)).

(** A server whose three workers are busy for nine more seconds with
    an earlier batch. *)
Definition busy_server : MCPServer :=
  {| max_workers := 3; timeout := 5; executor := [9; 9; 9]%nat |}.


Definition instant (task : string) : Run (Content := string) :=
  Finishes 0 (Returned "ok").

Lemma scenario_fault_caught deadline task : no_escape scenario_fault deadline task = true.
Proof. unfold no_escape, scenario_fault. by destruct (String.eqb task "B"). Qed.

Lemma scenario_timeout_caught deadline task :
  no_escape scenario_timeout deadline task = true.
Proof.
  unfold no_escape, scenario_timeout.
  by destruct (String.eqb task "A"), (String.eqb task "B").
Qed.

Lemma timeout_report_witness :
  ∃ r, _run_parallel_tasks id server scenario_timeout ["A"; "B"; "C"] = Return r
    ∧ total_tasks r = 3%nat
    ∧ completed r = 2%nat
    ∧ timed_out r = true
    ∧ results r !! "A" = Some {| success := true; content := Some "done"; error := None |}
    ∧ results r !! "C" = Some {| success := false; content := None; error := Some "x" |}
    ∧ results r !! "B" = None
    ∧ success_rate r = None.
Proof.
  apply (timeout_report id server scenario_timeout "A" "B" "C" 1 1 "done"
           (mkExn "ValueError" "x")).
  - vm_compute. lia.
  - by apply (bool_decide_unpack _).
  - reflexivity.
  - simpl. lia.
  - reflexivity.
  - reflexivity.
  - simpl. lia.
  - reflexivity.
  - reflexivity.
Defined.

(** C1, as stated, fails: the timeout report has no [success_rate] at
    all, so it is not 2/3.  Moreover, when the fault of C is a
    [SystemExit] the batch raises it and returns no report, and when
    the workers are busy with an earlier batch neither A nor C is
    recorded. *)
Lemma timeout_report_counterexample :
  (∃ r, _run_parallel_tasks id server scenario_timeout ["A"; "B"; "C"] = Return r
     ∧ completed r = 2%nat
     ∧ report_error r = Some "Timeout"
     ∧ success_rate r = None
     ∧ success_rate r ≠ Some (Q2Qc (2 # 3)))
  ∧ _run_parallel_tasks id server scenario_timeout_exit ["A"; "B"; "C"]
    = Raise (mkExc "SystemExit" "x" false)
  ∧ (∃ r, _run_parallel_tasks id busy_server scenario_timeout ["A"; "B"; "C"] = Return r
       ∧ completed r = 0%nat
       ∧ results r !! "A" = None
       ∧ results r !! "C" = None).
Proof.
  split; [|split].
  - eexists. split; [vm_compute; reflexivity|].
    repeat split; try reflexivity. discriminate.
  - by vm_compute.
  - eexists. split; [vm_compute; reflexivity|]. by vm_compute.
Qed.



Lemma all_finish_report_witness :
  ∃ r, _run_parallel_tasks id server instant ["s1"; "s2"; "s3"] = Return r
    ∧ total_tasks r = 3%nat
    ∧ completed r = 3%nat
    ∧ timed_out r = false
    ∧ success_rate r = Some 1%Qc.
Proof.
  destruct (all_finish_report id server instant ["s1"; "s2"; "s3"])
    as (r & Hr & Htotal & Hcompleted & Hto & _ & Hrate).
  - simpl. lia.
  - vm_compute. lia.
  - by apply (bool_decide_unpack _).
  - intros t _. reflexivity.
  - intros t _. reflexivity.
  - exists r. split; [exact Hr|]. split; [exact Htotal|]. split; [exact Hcompleted|].
    split; [exact Hto|]. apply Hrate. intros t _. reflexivity.
Defined.

(** C4, as stated, fails: two tasks with the same [str(task)] share one
    key of [results], so the rate counts one success out of two tasks
    although both succeed.  Moreover, a task that finishes by raising
    a [SystemExit] makes the batch raise it and return no report, and a
    pool of three workers that are busy with an earlier batch times out
    on three tasks that take no time. *)
Lemma all_finish_report_counterexample :
  (∃ r, _run_parallel_tasks id server instant ["t"; "t"] = Return r
     ∧ total_tasks r = 2%nat
     ∧ completed r = 2%nat
     ∧ timed_out r = false
     ∧ success_rate r = Some (Q2Qc (1 # 2))
     ∧ success_rate r ≠ Some 1%Qc)
  ∧ _run_parallel_tasks id server scenario_exit ["A"; "B"; "C"]
    = Raise (mkExc "SystemExit" "x" false)
  ∧ (∃ r, _run_parallel_tasks id busy_server instant ["s1"; "s2"; "s3"] = Return r
       ∧ completed r = 0%nat
       ∧ timed_out r = true).
Proof.
  split; [|split].
  - eexists. split; [vm_compute; reflexivity|].
    split; [reflexivity|]. split; [reflexivity|]. split; [reflexivity|].
    split.
    + simpl. f_equal; by apply Qc_is_canon.
    + simpl. by intros [= H].
  - by vm_compute.
  - eexists. split; [vm_compute; reflexivity|]. by vm_compute.
Qed.

Lemma report_accounting_witness :
  match _run_parallel_tasks id server scenario_timeout ["A"; "B"; "C"] with
  | Raise e =>
      is_exception e = false
      ∧ ∃ task d, task ∈ ["A"; "B"; "C"] ∧ scenario_timeout task = Finishes d (Raised e)
          ∧ (d ≤ timeout server)%nat
  | Return r =>
      total_tasks r = 3%nat
      ∧ (size (results r) ≤ completed r)%nat
      ∧ (completed r ≤ total_tasks r)%nat
      ∧ (timed_out r = false ↔ completed r = total_tasks r)
      ∧ match success_rate r with
        | Some rate => timed_out r = false ∧ (0 ≤ rate)%Qc ∧ (rate ≤ 1)%Qc
        | None => timed_out r = true
        end
  end.
Proof.
  apply (report_accounting id server scenario_timeout ["A"; "B"; "C"]).
  discriminate.
Defined.

Lemma results_provenance_witness :
  ∃ task d o,
    task ∈ ["A"; "B"; "C"] ∧ id task = "C"
    ∧ scenario_timeout task = Finishes d o ∧ (d ≤ timeout server)%nat
    ∧ {| success := false; content := None; error := Some "x" |} = entry_of o.
Proof.
  eapply (results_provenance id server scenario_timeout ["A"; "B"; "C"] _ "C").
  - vm_compute. reflexivity.
  - vm_compute. reflexivity.
Defined.

(** One worker for three tasks of one second each. *)
Definition narrow : MCPServer := new_server 1 5.

Lemma enough_time_report_witness :
  ∃ r, _run_parallel_tasks id narrow scenario_fault ["A"; "B"; "C"] = Return r
    ∧ total_tasks r = 3%nat
    ∧ completed r = 3%nat
    ∧ timed_out r = false
    ∧ is_Some (success_rate r).
Proof.
  apply (enough_time_report id narrow scenario_fault ["A"; "B"; "C"] 0).
  - discriminate.
  - repeat constructor.
  - discriminate.
  - intros task _. unfold scenario_fault. by destruct (String.eqb task "B").
  - intros task _. apply scenario_fault_caught.
  - vm_compute. lia.
Defined.

(** With the same worker and two seconds the third task is cut off;
    and so is every task when the workers of the executor are still
    busy with an earlier batch. *)
Lemma narrow_pool_example :
  (∃ r, _run_parallel_tasks id (new_server 1 2) scenario_fault ["A"; "B"; "C"] = Return r
     ∧ completed r = 2%nat ∧ timed_out r = true ∧ results r !! "C" = None)
  ∧ (∃ r, _run_parallel_tasks id busy_server scenario_fault ["A"; "B"; "C"] = Return r
       ∧ completed r = 0%nat ∧ timed_out r = true).
Proof.
  split.
  - eexists. split; [vm_compute; reflexivity|]. by vm_compute.
  - eexists. split; [vm_compute; reflexivity|]. by vm_compute.
Qed.

Lemma late_task_times_out_witness :
  ∃ r, _run_parallel_tasks id server scenario_timeout ["A"; "B"; "C"] = Return r
    ∧ timed_out r = true
    ∧ success_rate r = None
    ∧ (completed r < total_tasks r)%nat
    ∧ ((∀ other, other ∈ ["A"; "B"; "C"] → id other = id "B" →
          in_time scenario_timeout (timeout server) other = false) →
       results r !! id "B" = None).
Proof.
  apply (late_task_times_out id server scenario_timeout ["A"; "B"; "C"] "B").
  - elem_of_list.
  - reflexivity.
  - intros other _. apply scenario_timeout_caught.
Defined.
End FanOut.

(** ** Python strings

    A Python [str] is a sequence of code points.  A text is held here
    as the bytes of its UTF-8 encoding, which is what a string literal
    of this file is.  The methods that are given their characters
    ([split], [replace], [in], [startswith], [strip] with the two
    quotes) work on the bytes: the characters they are given here are
    ASCII, and the byte of an ASCII character is part of no other
    character.  [str.strip()] and the pattern classes [\s] and [\w] go
    by classes of code points, so they decode the characters:
    [str.isspace] is written out, and which characters beyond ASCII are
    alphanumeric is read from the Unicode database, [Unicode]. *)

Module PyStr.

Definition nl : string := String (ascii_of_nat 10) "".
Definition dq : string := String (ascii_of_nat 34) "".
Definition sq : string := "'".

Definition is_quote (c : ascii) : bool :=
  let n := nat_of_ascii c in ((n =? 34) || (n =? 39))%nat.

(** [s.lstrip(chars)], for the characters satisfying [p] *)
Fixpoint lstrip (p : ascii → bool) (s : string) : string :=
  match s with
  | String c s' => if p c then lstrip p s' else s
  | EmptyString => EmptyString
  end.

(** [s.rstrip(chars)] *)
Fixpoint rstrip (p : ascii → bool) (s : string) : string :=
  match s with
  | String c s' =>
      match rstrip p s' with
      | EmptyString => if p c then EmptyString else String c EmptyString
      | r => String c r
      end
  | EmptyString => EmptyString
  end.

Definition strip_with (p : ascii → bool) (s : string) : string :=
  rstrip p (lstrip p s).

(** [s.strip(chars)] with [chars] the two quote characters *)
Definition strip_quotes (s : string) : string := strip_with is_quote s.

(** [c in s], for a single character *)
Fixpoint contains_char (c : ascii) (s : string) : bool :=
  match s with
  | String c' s' => Ascii.eqb c c' || contains_char c s'
  | EmptyString => false
  end.

(** [s.startswith(p)] *)
Fixpoint starts_with (p s : string) : bool :=
  match p, s with
  | EmptyString, _ => true
  | String a p', String b s' => Ascii.eqb a b && starts_with p' s'
  | String _ _, EmptyString => false
  end.

(** [needle in s] *)
Fixpoint contains (needle s : string) : bool :=
  starts_with needle s
  || match s with
     | String _ s' => contains needle s'
     | EmptyString => false
     end.

(** [s.split(sep)], for a single character: never the empty list *)
Fixpoint split_on (sep : ascii) (s : string) : list string :=
  match s with
  | String c s' =>
      if Ascii.eqb c sep then EmptyString :: split_on sep s'
      else match split_on sep s' with
           | h :: t => String c h :: t
           | [] => [String c EmptyString]
           end
  | EmptyString => [EmptyString]
  end.

(** [s.split(sep, 1)] when [sep in s]: the text before the first [sep]
    and the text after it. *)
Fixpoint split_once (sep : ascii) (s : string) : string * string :=
  match s with
  | String c s' =>
      if Ascii.eqb c sep then (EmptyString, s')
      else let '(k, v) := split_once sep s' in (String c k, v)
  | EmptyString => (EmptyString, EmptyString)
  end.

(** [sep.join(parts)] *)
Fixpoint join (sep : string) (parts : list string) : string :=
  match parts with
  | [] => EmptyString
  | [p] => p
  | p :: rest => p ++ sep ++ join sep rest
  end.

(** [s.lower()] on ASCII letters *)
Definition lower_char (c : ascii) : ascii :=
  let n := nat_of_ascii c in
  if ((65 <=? n) && (n <=? 90))%nat then ascii_of_nat (n + 32) else c.

Fixpoint lower (s : string) : string :=
  match s with
  | String c s' => String (lower_char c) (lower s')
  | EmptyString => EmptyString
  end.

(** *** Characters and their classes *)

(** The payload of a continuation byte. *)
Definition continuation (c : ascii) : option N :=
  let b := N_of_ascii c in
  if ((0x80 <=? b) && (b <? 0xC0))%N then Some (b - 0x80)%N else None.

(** The code point that [s] begins with, and the number of its bytes. *)
Definition decode (s : string) : option (N * nat) :=
  match s with
  | EmptyString => None
  | String c0 s1 =>
      let b0 := N_of_ascii c0 in
      if (b0 <? 0x80)%N then Some (b0, 1%nat)
      else if (b0 <? 0xC0)%N then None
      else if (b0 <? 0xE0)%N then
        match s1 with
        | String c1 _ =>
            x1 ← continuation c1;
            Some (((b0 - 0xC0) * 64 + x1)%N, 2%nat)
        | _ => None
        end
      else if (b0 <? 0xF0)%N then
        match s1 with
        | String c1 (String c2 _) =>
            x1 ← continuation c1;
            x2 ← continuation c2;
            Some ((((b0 - 0xE0) * 64 + x1) * 64 + x2)%N, 3%nat)
        | _ => None
        end
      else if (b0 <? 0xF8)%N then
        match s1 with
        | String c1 (String c2 (String c3 _)) =>
            x1 ← continuation c1;
            x2 ← continuation c2;
            x3 ← continuation c3;
            Some (((((b0 - 0xF0) * 64 + x1) * 64 + x2) * 64 + x3)%N, 4%nat)
        | _ => None
        end
      else None
  end.

(** [str.isspace] of a character: the class [\s], and what
    [str.strip()] removes. *)
Definition isspace (cp : N) : bool :=
  ((9 <=? cp) && (cp <=? 13) || (28 <=? cp) && (cp <=? 32)
   || (cp =? 0x85) || (cp =? 0xA0) || (cp =? 0x1680)
   || (0x2000 <=? cp) && (cp <=? 0x200A)
   || (cp =? 0x2028) || (cp =? 0x2029) || (cp =? 0x202F)
   || (cp =? 0x205F) || (cp =? 0x3000))%N.

(** [str.isalnum] of an ASCII character *)
Definition ascii_alnum (cp : N) : bool :=
  ((48 <=? cp) && (cp <=? 57) || (65 <=? cp) && (cp <=? 90)
   || (97 <=? cp) && (cp <=? 122))%N.

(** [str.isalnum] of a character is read from the Unicode database of
    the interpreter.  On ASCII it is fixed, and no alphanumeric
    character is white space. *)
Class Unicode := {
  isalnum : N → bool;
  isalnum_ascii : ∀ cp, (cp < 128)%N → isalnum cp = ascii_alnum cp;
  isalnum_not_space : ∀ cp, isalnum cp = true → isspace cp = false
}.

(** The class [\w]: the alphanumeric characters and the underscore. *)
Definition isword `{Unicode} (cp : N) : bool := isalnum cp || (cp =? 95)%N.

Fixpoint take_str (n : nat) (s : string) : string :=
  match n, s with
  | S k, String c s' => String c (take_str k s')
  | _, _ => EmptyString
  end.

Fixpoint drop_str (n : nat) (s : string) : string :=
  match n, s with
  | S k, String _ s' => drop_str k s'
  | _, _ => s
  end.

(** The number of bytes of the longest prefix of [s] made of
    characters of the class.  [skip] counts the bytes of the current
    character still to be passed over. *)
Fixpoint prefix_from (cls : N → bool) (skip : nat) (s : string) : nat :=
  match s with
  | EmptyString => 0
  | String _ s' =>
      match skip with
      | S k => S (prefix_from cls k s')
      | O =>
          match decode s with
          | Some (cp, S k) => if cls cp then S (prefix_from cls k s') else 0
          | _ => 0
          end
      end
  end.

Definition prefix_len (cls : N → bool) (s : string) : nat := prefix_from cls 0 s.

(** Every character of [s] is in the class. *)
Definition all_class (cls : N → bool) (s : string) : bool :=
  (prefix_len cls s =? String.length s)%nat.

(** [s] begins with a character of the class. *)
Definition starts_class (cls : N → bool) (s : string) : bool :=
  match decode s with
  | Some (cp, _) => cls cp
  | None => false
  end.

(** [s] ends with a character of the class. *)
Fixpoint ends_class (cls : N → bool) (s : string) : bool :=
  match s with
  | String _ s' => all_class cls s || ends_class cls s'
  | EmptyString => false
  end.

Definition lstrip_class (cls : N → bool) (s : string) : string :=
  drop_str (prefix_len cls s) s.

Fixpoint rstrip_class (cls : N → bool) (s : string) : string :=
  match s with
  | String c s' => if all_class cls s then EmptyString else String c (rstrip_class cls s')
  | EmptyString => EmptyString
  end.

(** [s.strip()] *)
Definition strip (s : string) : string :=
  rstrip_class isspace (lstrip_class isspace s).

(** The longest prefix of characters of the class, and the rest: a
    greedy [\s*] or [\w+].  The classes [\s], [\w] and the characters
    that follow them in the pattern are disjoint, so giving characters
    back never helps a match. *)
Definition span_class (cls : N → bool) (s : string) : string * string :=
  let n := prefix_len cls s in (take_str n s, drop_str n s).

(** A fragment of the database for the examples: ASCII and the CJK
    ideographs from U+4E00 to U+9FA5. *)
Definition sample_isalnum (cp : N) : bool :=
  ascii_alnum cp || ((0x4E00 <=? cp) && (cp <=? 0x9FA5))%N.

Ltac compare_all :=
  repeat match goal with
         | |- context [(?a <=? ?b)%N] => destruct (N.leb_spec a b); try lia
         | |- context [(?a <? ?b)%N] => destruct (N.ltb_spec a b); try lia
         | |- context [(?a =? ?b)%N] => destruct (N.eqb_spec a b); try lia
         | H : context [(?a <=? ?b)%N] |- _ => destruct (N.leb_spec a b); try lia
         | H : context [(?a <? ?b)%N] |- _ => destruct (N.ltb_spec a b); try lia
         | H : context [(?a =? ?b)%N] |- _ => destruct (N.eqb_spec a b); try lia
         end.

Lemma sample_ascii cp : (cp < 128)%N → sample_isalnum cp = ascii_alnum cp.
Proof. intros Hcp. unfold sample_isalnum, ascii_alnum. compare_all; done. Qed.

Lemma sample_not_space cp : sample_isalnum cp = true → isspace cp = false.
Proof. unfold sample_isalnum, ascii_alnum, isspace. compare_all; done. Qed.

Definition sample : Unicode :=
  {| isalnum := sample_isalnum;
     isalnum_ascii := sample_ascii;
     isalnum_not_space := sample_not_space |}.

(** *** The pattern [TOOL_CALL:\s*(\w+)\((.*?)\)] *)

Definition MARKER : string := "TOOL_CALL:".

(** [s] without its prefix [p] *)
Fixpoint strip_prefix (p s : string) : option string :=
  match p, s with
  | EmptyString, _ => Some s
  | String a p', String b s' => if Ascii.eqb a b then strip_prefix p' s' else None
  | String _ _, EmptyString => None
  end.

(** [(.*?)\)]: the shortest run of characters other than a newline
    that is followed by a closing parenthesis. *)
Fixpoint until_close (s : string) : option (string * string) :=
  match s with
  | String c s' =>
      if Ascii.eqb c ")" then Some (EmptyString, s')
      else if Ascii.eqb c (ascii_of_nat 10) then None
      else match until_close s' with
           | Some (a, r) => Some (String c a, r)
           | None => None
           end
  | EmptyString => None
  end.

(** A match of the pattern at the start of [s]: the two groups and the
    text after the match. *)
Definition match_here `{Unicode} (s : string) : option (string * string * string) :=
  match strip_prefix MARKER s with
  | None => None
  | Some rest1 =>
      let '(_, rest2) := span_class isspace rest1 in
      let '(name, rest3) := span_class isword rest2 in
      if String.eqb name "" then None
      else
        match strip_prefix "(" rest3 with
        | None => None
        | Some rest4 =>
            match until_close rest4 with
            | None => None
            | Some (args, rest5) => Some (name, args, rest5)
            end
        end
  end.

(** [re.findall]: the matches from left to right, each search resuming
    where the previous match ended.  [skip] counts the characters of
    the current match still to be passed over. *)
Fixpoint findall_from `{Unicode} (skip : nat) (s : string) : list (string * string) :=
  match s with
  | String c s' =>
      match skip with
      | S k => findall_from k s'
      | O =>
          match match_here s with
          | Some (name, args, rest) =>
              (name, args) :: findall_from (String.length s' - String.length rest) s'
          | None => findall_from 0 s'
          end
      end
  | EmptyString => []
  end.

Definition findall `{Unicode} (text : string) : list (string * string) :=
  findall_from 0 text.

(** *** Facts about the string functions *)

Fixpoint all_chars (p : ascii → bool) (s : string) : bool :=
  match s with
  | String c s' => p c && all_chars p s'
  | EmptyString => true
  end.

Definition starts_in (p : ascii → bool) (s : string) : bool :=
  match s with
  | String c _ => p c
  | EmptyString => false
  end.

Fixpoint ends_in (p : ascii → bool) (s : string) : bool :=
  match s with
  | String c EmptyString => p c
  | String _ s' => ends_in p s'
  | EmptyString => false
  end.

Lemma append_nil_r (s : string) : s ++ "" = s.
Proof. induction s as [|c s IH]; simpl; congruence. Qed.

Lemma append_assoc (a b c : string) : (a ++ b) ++ c = a ++ b ++ c.
Proof. induction a as [|x a IH]; simpl; congruence. Qed.

Lemma length_append (a b : string) :
  String.length (a ++ b) = (String.length a + String.length b)%nat.
Proof. induction a as [|x a IH]; simpl; congruence. Qed.

Lemma all_chars_app p a b : all_chars p (a ++ b) = all_chars p a && all_chars p b.
Proof. induction a as [|x a IH]; simpl; [done|]. rewrite IH. by destruct (p x). Qed.

Lemma lstrip_spec p s :
  ∃ l, s = l ++ lstrip p s ∧ all_chars p l = true ∧ starts_in p (lstrip p s) = false.
Proof.
  induction s as [|c s (l & Hs & Hl & Hstart)]; simpl.
  - by exists "".
  - destruct (p c) eqn:Hc.
    + exists (String c l). simpl. rewrite Hc, Hl. split; [congruence|done].
    + exists "". simpl. by rewrite Hc.
Qed.

Lemma rstrip_spec p s :
  ∃ r, s = rstrip p s ++ r ∧ all_chars p r = true ∧ ends_in p (rstrip p s) = false.
Proof.
  induction s as [|c s (r & Hs & Hr & Hend)]; simpl.
  - by exists "".
  - destruct (rstrip p s) as [|c' t] eqn:Ht.
    + destruct (p c) eqn:Hc.
      * exists (String c r). simpl in *. rewrite Hc, Hr. split; [congruence|done].
      * exists r. simpl in *. rewrite Hc. split; [congruence|done].
    + exists r. simpl in *. split; [congruence|done].
Qed.

Lemma rstrip_starts p s : starts_in p s = false → starts_in p (rstrip p s) = false.
Proof.
  destruct s as [|c s]; simpl; [done|]. intros Hc.
  destruct (rstrip p s); simpl; [|done]. by rewrite Hc.
Qed.

(** [strip] removes a run of characters of the class at each end, and
    what is left neither starts nor ends with one. *)
Lemma strip_with_spec p s :
  ∃ l r, s = l ++ strip_with p s ++ r
    ∧ all_chars p l = true ∧ all_chars p r = true
    ∧ starts_in p (strip_with p s) = false
    ∧ ends_in p (strip_with p s) = false.
Proof.
  unfold strip_with.
  destruct (lstrip_spec p s) as (l & Hs & Hl & Hstart).
  destruct (rstrip_spec p (lstrip p s)) as (r & Ht & Hr & Hend).
  exists l, r. split; [by rewrite <-Ht|].
  split; [done|]. split; [done|]. split; [by apply rstrip_starts|done].
Qed.

Lemma strip_with_all p s : all_chars p s = true → strip_with p s = "".
Proof.
  intros Hall. unfold strip_with.
  assert (lstrip p s = "") as ->; [|done].
  induction s as [|c s IH]; simpl in *; [done|].
  apply andb_true_iff in Hall as [-> Hs]. auto.
Qed.

Lemma strip_with_nil p s : strip_with p s = "" → all_chars p s = true.
Proof.
  intros Hnil. destruct (strip_with_spec p s) as (l & r & Hs & Hl & Hr & _).
  rewrite Hnil in Hs. rewrite Hs. simpl. rewrite all_chars_app. by rewrite Hl, Hr.
Qed.

Lemma lstrip_id p s : starts_in p s = false → lstrip p s = s.
Proof. destruct s as [|c s]; simpl; [done|]. by intros ->. Qed.

Lemma rstrip_id p s : ends_in p s = false → rstrip p s = s.
Proof.
  induction s as [|c s IH]; [done|]. cbn [ends_in rstrip].
  destruct s as [|c' s].
  - intros ->. done.
  - intros Hend. by rewrite (IH Hend).
Qed.

(** [strip] leaves a text as it is exactly when the text neither
    starts nor ends with a character of the class. *)
Lemma strip_with_id p s :
  strip_with p s = s ↔ starts_in p s = false ∧ ends_in p s = false.
Proof.
  split.
  - intros Hid. destruct (strip_with_spec p s) as (_ & _ & _ & _ & _ & Hstart & Hend).
    by rewrite Hid in Hstart, Hend.
  - intros [Hstart Hend]. unfold strip_with. rewrite lstrip_id by done.
    by apply rstrip_id.
Qed.

Lemma contains_char_app c a b :
  contains_char c (a ++ b) = contains_char c a || contains_char c b.
Proof.
  induction a as [|x a IH]; simpl; [done|]. rewrite IH. by rewrite orb_assoc.
Qed.

Lemma contains_char_class (p : ascii → bool) c s :
  p c = false → all_chars p s = true → contains_char c s = false.
Proof.
  intros Hc. induction s as [|x s IH]; simpl; [done|].
  intros [Hx Hs]%andb_true_iff. rewrite IH by done.
  destruct (Ascii.eqb_spec c x) as [->|]; [congruence|done].
Qed.

(** *** Facts about characters and [strip] *)

Lemma take_drop_str n s : take_str n s ++ drop_str n s = s.
Proof.
  revert s. induction n as [|n IH]; intros [|c s]; simpl; try done. by rewrite IH.
Qed.

Lemma take_str_length n s : (n ≤ String.length s)%nat → String.length (take_str n s) = n.
Proof.
  revert s. induction n as [|n IH]; intros [|c s]; simpl; try done; try lia.
  intros Hn. rewrite IH; lia.
Qed.

Lemma drop_str_length n s : String.length (drop_str n s) = (String.length s - n)%nat.
Proof. revert s. induction n as [|n IH]; intros [|c s]; simpl; done. Qed.

Lemma take_str_app a b : take_str (String.length a) (a ++ b) = a.
Proof. induction a as [|c a IH]; simpl; [by destruct b|]. by rewrite IH. Qed.

Lemma drop_str_app a b : drop_str (String.length a) (a ++ b) = b.
Proof. induction a as [|c a IH]; simpl; done. Qed.

Lemma take_str_app_le n a b :
  (n ≤ String.length a)%nat → take_str n (a ++ b) = take_str n a.
Proof.
  revert a. induction n as [|n IH]; intros [|c a]; simpl; try done; try lia.
  intros Hn. rewrite IH; [done|lia].
Qed.

Lemma drop_str_app_le n a b :
  (n ≤ String.length a)%nat → drop_str n (a ++ b) = drop_str n a ++ b.
Proof.
  revert a. induction n as [|n IH]; intros [|c a]; simpl; try done; try lia.
  intros Hn. rewrite IH; [done|lia].
Qed.

Lemma drop_str_all s : drop_str (String.length s) s = "".
Proof. induction s; simpl; done. Qed.

Lemma take_str_nil n : take_str n "" = "".
Proof. by destruct n. Qed.

Lemma drop_str_nil n : drop_str n "" = "".
Proof. by destruct n. Qed.

Lemma take_str_add n m s : take_str (n + m) s = take_str n s ++ take_str m (drop_str n s).
Proof.
  revert s. induction n as [|n IH]; intros s; [done|].
  destruct s as [|c s]; [by rewrite !take_str_nil|]. simpl. by rewrite IH.
Qed.

Lemma drop_str_add n m s : drop_str (n + m) s = drop_str m (drop_str n s).
Proof.
  revert s. induction n as [|n IH]; intros s; [done|].
  destruct s as [|c s]; [by rewrite !drop_str_nil|]. simpl. by rewrite IH.
Qed.

Lemma decode_len s cp len :
  decode s = Some (cp, len) → (1 ≤ len ≤ String.length s)%nat.
Proof.
  unfold decode. destruct s as [|c0 s]; [done|]. cbv zeta.
  repeat (case_match; try done); intros; simplify_option_eq; simpl; lia.
Qed.

(** The character a text begins with does not depend on what follows
    its bytes. *)
Lemma decode_app s t x : decode s = Some x → decode (s ++ t) = Some x.
Proof.
  unfold decode. destruct s as [|c0 s]; [done|]. simpl.
  repeat (case_match; try done); simplify_eq/=; try done.
Qed.

Lemma decode_prefix a b cp len :
  decode (a ++ b) = Some (cp, len) → (len ≤ String.length a)%nat →
  decode a = Some (cp, len).
Proof.
  intros Hd Hlen. pose proof (decode_len _ _ _ Hd) as [Hpos _].
  destruct a as [|c0 a]; [simpl in Hlen; lia|].
  revert Hd. unfold decode. simpl. clear Hpos.
  repeat (case_match; try done); simplify_eq/=; try done;
    intros; simplify_option_eq; simpl in *; lia.
Qed.

Lemma decode_take s cp len :
  decode s = Some (cp, len) → decode (take_str len s) = Some (cp, len).
Proof.
  intros Hd. pose proof (decode_len _ _ _ Hd) as [_ Hlen].
  apply (decode_prefix _ (drop_str len s)).
  - by rewrite take_drop_str.
  - by rewrite take_str_length.
Qed.

Lemma continuation_high c x : continuation c = Some x → (128 ≤ N_of_ascii c)%N.
Proof.
  unfold continuation. destruct (N.leb_spec 128 (N_of_ascii c)); [done|].
  simpl. done.
Qed.

(** The byte of an ASCII character is part of no other character. *)
Lemma decode_ascii_in s cp len (c : ascii) :
  decode s = Some (cp, len) → (N_of_ascii c < 128)%N →
  contains_char c (take_str len s) = true → cp = N_of_ascii c.
Proof.
  intros Hd Hc. revert Hd. unfold decode.
  destruct s as [|c0 s]; [done|]. cbv zeta.
  destruct (N.ltb_spec (N_of_ascii c0) 128) as [Hlow|Hhigh].
  { intros [= <- <-]. simpl. rewrite orb_false_r. by intros ->%Ascii.eqb_eq. }
  repeat (case_match; try done); intros; simplify_option_eq;
    repeat match goal with
           | H : continuation _ = Some _ |- _ => apply continuation_high in H
           end;
    simpl in *;
    repeat match goal with
           | H : context [Ascii.eqb ?a ?b] |- _ =>
               destruct (Ascii.eqb_spec a b); [subst; lia|]
           end;
    try done.
Qed.

Lemma prefix_from_le cls k s : (prefix_from cls k s ≤ String.length s)%nat.
Proof.
  revert k. induction s as [|c s IH]; intros k; [done|]. cbn [prefix_from String.length].
  destruct k as [|k].
  - destruct (decode (String c s)) as [[cp [|len]]|]; try lia.
    destruct (cls cp); [|lia]. specialize (IH len). lia.
  - specialize (IH k). lia.
Qed.

Lemma prefix_len_le cls s : (prefix_len cls s ≤ String.length s)%nat.
Proof. apply prefix_from_le. Qed.

Lemma prefix_from_skip cls k s :
  (k ≤ String.length s)%nat →
  prefix_from cls k s = (k + prefix_len cls (drop_str k s))%nat.
Proof.
  revert s. induction k as [|k IH]; intros s Hk; [done|].
  destruct s as [|c s]; [simpl in Hk; lia|]. cbn [prefix_from drop_str].
  rewrite IH by (simpl in Hk; lia). done.
Qed.

(** The prefix, character by character. *)
Lemma prefix_len_unfold cls s :
  prefix_len cls s
  = match decode s with
    | Some (cp, len) =>
        if cls cp then (len + prefix_len cls (drop_str len s))%nat else 0%nat
    | None => 0%nat
    end.
Proof.
  destruct s as [|c s]; [done|]. unfold prefix_len at 1. cbn [prefix_from].
  destruct (decode (String c s)) as [[cp len]|] eqn:Hd; [|done].
  pose proof (decode_len _ _ _ Hd) as [Hpos Hlen].
  destruct len as [|len]; [lia|]. destruct (cls cp); [|done].
  rewrite prefix_from_skip by (simpl in Hlen; lia). done.
Qed.

Lemma all_class_nil cls : all_class cls "" = true.
Proof. done. Qed.

Lemma all_class_eq cls s :
  all_class cls s = true ↔ prefix_len cls s = String.length s.
Proof. unfold all_class. apply Nat.eqb_eq. Qed.

(** A text of characters of the class is a character of the class
    followed by such a text. *)
Lemma all_class_inv cls s :
  all_class cls s = true → s ≠ "" →
  ∃ cp len, decode s = Some (cp, len) ∧ cls cp = true
    ∧ all_class cls (drop_str len s) = true.
Proof.
  rewrite all_class_eq. rewrite prefix_len_unfold. intros Hall Hne.
  destruct (decode s) as [[cp len]|] eqn:Hd; [|by destruct s].
  destruct (cls cp) eqn:Hcp; [|by destruct s].
  exists cp, len. split; [done|]. split; [done|].
  pose proof (decode_len _ _ _ Hd) as [_ Hlen].
  apply all_class_eq. rewrite drop_str_length. lia.
Qed.

Lemma starts_class_true cls s :
  starts_class cls s = true ↔ ∃ cp len, decode s = Some (cp, len) ∧ cls cp = true.
Proof.
  unfold starts_class. destruct (decode s) as [[cp len]|].
  - split; [eauto|]. by intros (? & ? & [= <- <-] & ?).
  - split; [done|]. by intros (? & ? & ? & ?).
Qed.

Lemma all_class_starts cls s :
  all_class cls s = true → s ≠ "" → starts_class cls s = true.
Proof.
  intros Hall Hne. destruct (all_class_inv cls s Hall Hne) as (cp & len & Hd & Hcp & _).
  apply starts_class_true. eauto.
Qed.

Lemma prefix_len_stop cls s : starts_class cls s = false → prefix_len cls s = 0%nat.
Proof.
  unfold starts_class. rewrite prefix_len_unfold.
  destruct (decode s) as [[cp len]|]; [|done]. by intros ->.
Qed.

Lemma starts_class_app cls s t :
  starts_class cls s = true → starts_class cls (s ++ t) = true.
Proof.
  rewrite !starts_class_true. intros (cp & len & Hd & Hcp).
  exists cp, len. split; [|done]. by apply decode_app.
Qed.

(** Induction on the length of a text. *)
Lemma length_ind (P : string → Prop) :
  (∀ s, (∀ t, (String.length t < String.length s)%nat → P t) → P s) → ∀ s, P s.
Proof.
  intros Hstep s. remember (String.length s) as n eqn:Hn.
  revert s Hn. induction n as [n IH] using lt_wf_ind. intros s ->.
  apply Hstep. intros t Ht. by apply (IH (String.length t)).
Qed.

Lemma drop_shorter s cp len :
  decode s = Some (cp, len) →
  (String.length (drop_str len s) < String.length s)%nat.
Proof. intros [? ?]%decode_len. rewrite drop_str_length. lia. Qed.

(** After a text of characters of the class, the prefix goes on. *)
Lemma prefix_len_app cls a b :
  all_class cls a = true →
  prefix_len cls (a ++ b) = (String.length a + prefix_len cls b)%nat.
Proof.
  induction a as [a IH] using length_ind. intros Hall.
  destruct (decide (a = "")) as [->|Hne]; [done|].
  destruct (all_class_inv cls a Hall Hne) as (cp & len & Hd & Hcp & Hrest).
  pose proof (decode_len _ _ _ Hd) as [Hpos Hlen].
  rewrite (prefix_len_unfold cls (a ++ b)), (decode_app a b _ Hd), Hcp.
  rewrite drop_str_app_le by done.
  rewrite (IH _ (drop_shorter _ _ _ Hd) Hrest). rewrite drop_str_length. lia.
Qed.

Lemma all_class_app cls a b :
  all_class cls a = true → all_class cls b = true → all_class cls (a ++ b) = true.
Proof.
  intros Ha Hb. apply all_class_eq. rewrite prefix_len_app by done.
  apply all_class_eq in Hb. rewrite Hb. by rewrite length_append.
Qed.

Lemma all_class_char cls s cp len :
  decode s = Some (cp, len) → cls cp = true → all_class cls (take_str len s) = true.
Proof.
  intros Hd Hcp. pose proof (decode_len _ _ _ Hd) as [Hpos Hlen].
  apply all_class_eq. rewrite prefix_len_unfold, (decode_take _ _ _ Hd), Hcp.
  rewrite take_str_length by done.
  rewrite <-(take_str_length len s) at 2 by done. rewrite drop_str_all. done.
Qed.

(** The prefix is made of characters of the class, and what follows
    it does not begin with one. *)
Lemma prefix_len_all cls s : all_class cls (take_str (prefix_len cls s) s) = true.
Proof.
  induction s as [s IH] using length_ind.
  rewrite prefix_len_unfold.
  destruct (decode s) as [[cp len]|] eqn:Hd; [|done].
  destruct (cls cp) eqn:Hcp; [|done].
  rewrite take_str_add. apply all_class_app.
  - by apply (all_class_char cls s cp).
  - apply IH. by apply (drop_shorter s cp).
Qed.

Lemma prefix_len_rest cls s :
  starts_class cls (drop_str (prefix_len cls s) s) = false.
Proof.
  induction s as [s IH] using length_ind.
  rewrite prefix_len_unfold. unfold starts_class at 1.
  destruct (decode s) as [[cp len]|] eqn:Hd.
  - destruct (cls cp) eqn:Hcp.
    + rewrite drop_str_add. apply IH. by apply (drop_shorter s cp).
    + simpl. by rewrite Hd.
  - simpl. by rewrite Hd.
Qed.

(** An ASCII character outside the class does not occur in a text of
    characters of the class. *)
Lemma all_class_no_char cls (c : ascii) s :
  (N_of_ascii c < 128)%N → cls (N_of_ascii c) = false →
  all_class cls s = true → contains_char c s = false.
Proof.
  intros Hc Hout. induction s as [s IH] using length_ind. intros Hall.
  destruct (decide (s = "")) as [->|Hne]; [done|].
  destruct (all_class_inv cls s Hall Hne) as (cp & len & Hd & Hcp & Hrest).
  rewrite <-(take_drop_str len s), contains_char_app.
  rewrite (IH _ (drop_shorter _ _ _ Hd) Hrest), orb_false_r.
  destruct (contains_char c (take_str len s)) eqn:Hin; [|done].
  apply (decode_ascii_in s cp len c Hd Hc) in Hin. congruence.
Qed.

Lemma lstrip_class_spec cls s :
  ∃ l, s = l ++ lstrip_class cls s ∧ all_class cls l = true
    ∧ starts_class cls (lstrip_class cls s) = false.
Proof.
  exists (take_str (prefix_len cls s) s). unfold lstrip_class.
  split; [by rewrite take_drop_str|]. split; [apply prefix_len_all|apply prefix_len_rest].
Qed.

Lemma rstrip_class_spec cls s :
  ∃ r, s = rstrip_class cls s ++ r ∧ all_class cls r = true
    ∧ ends_class cls (rstrip_class cls s) = false.
Proof.
  induction s as [|c s (r & Hs & Hr & Hend)]; [by exists ""|].
  cbn [rstrip_class]. destruct (all_class cls (String c s)) eqn:Hall.
  - by exists (String c s).
  - exists r. split; [simpl; congruence|]. split; [done|].
    cbn [ends_class]. rewrite Hend, orb_false_r.
    destruct (all_class cls (String c (rstrip_class cls s))) eqn:Hkept; [|done].
    pose proof (all_class_app cls _ r Hkept Hr) as Hwhole.
    simpl in Hwhole. rewrite <-Hs in Hwhole. congruence.
Qed.

Lemma rstrip_class_starts cls s :
  starts_class cls s = false → starts_class cls (rstrip_class cls s) = false.
Proof.
  intros Hstart. destruct (rstrip_class_spec cls s) as (r & Hs & _).
  destruct (starts_class cls (rstrip_class cls s)) eqn:Hkept; [|done].
  apply (starts_class_app cls _ r) in Hkept. rewrite <-Hs in Hkept. congruence.
Qed.

(** [strip] removes a run of white space at each end, and what is left
    neither begins nor ends with white space. *)
Lemma strip_spec s :
  ∃ l r, s = l ++ strip s ++ r
    ∧ all_class isspace l = true ∧ all_class isspace r = true
    ∧ starts_class isspace (strip s) = false
    ∧ ends_class isspace (strip s) = false.
Proof.
  unfold strip.
  destruct (lstrip_class_spec isspace s) as (l & Hs & Hl & Hstart).
  destruct (rstrip_class_spec isspace (lstrip_class isspace s)) as (r & Ht & Hr & Hend).
  exists l, r. split; [by rewrite <-Ht|].
  split; [done|]. split; [done|]. split; [by apply rstrip_class_starts|done].
Qed.

Lemma strip_all s : all_class isspace s = true → strip s = "".
Proof.
  intros Hall. unfold strip, lstrip_class.
  apply all_class_eq in Hall. by rewrite Hall, drop_str_all.
Qed.

Lemma strip_nil s : strip s = "" → all_class isspace s = true.
Proof.
  intros Hnil. destruct (strip_spec s) as (l & r & Hs & Hl & Hr & _).
  rewrite Hnil in Hs. rewrite Hs. by apply all_class_app.
Qed.

Lemma rstrip_class_id cls s : ends_class cls s = false → rstrip_class cls s = s.
Proof.
  induction s as [|c s IH]; [done|]. cbn [ends_class rstrip_class].
  intros [-> Hend]%orb_false_iff. by rewrite (IH Hend).
Qed.

(** [strip] leaves a text as it is exactly when the text neither
    begins nor ends with white space. *)
Lemma strip_id s :
  strip s = s ↔ starts_class isspace s = false ∧ ends_class isspace s = false.
Proof.
  split.
  - intros Hid. destruct (strip_spec s) as (_ & _ & _ & _ & _ & Hstart & Hend).
    by rewrite Hid in Hstart, Hend.
  - intros [Hstart Hend]. unfold strip, lstrip_class.
    rewrite (prefix_len_stop _ _ Hstart). by apply rstrip_class_id.
Qed.

Lemma isword_ascii `{Unicode} cp :
  (cp < 128)%N → isword cp = ascii_alnum cp || (cp =? 95)%N.
Proof. intros Hcp. unfold isword. by rewrite isalnum_ascii. Qed.

(** No character is in both [\w] and [\s]. *)
Lemma isword_not_space `{Unicode} cp : isword cp = true → isspace cp = false.
Proof.
  unfold isword. intros [Halnum|Hunder]%orb_true_iff.
  - by apply isalnum_not_space.
  - apply N.eqb_eq in Hunder as ->. done.
Qed.

(** [split_on]: the pieces are the text between the separators. *)
Lemma split_on_nonempty sep s : split_on sep s ≠ [].
Proof.
  destruct s as [|c s]; simpl; [done|].
  destruct (Ascii.eqb c sep); [done|]. by destruct (split_on sep s).
Qed.

Lemma split_on_join sep s : join (String sep "") (split_on sep s) = s.
Proof.
  induction s as [|c s IH]; simpl; [done|].
  pose proof (split_on_nonempty sep s) as Hne.
  destruct (Ascii.eqb_spec c sep) as [->|Hc].
  - destruct (split_on sep s) as [|h t] eqn:Hsplit; [done|].
    simpl in *. congruence.
  - destruct (split_on sep s) as [|h [|h' t]] eqn:Hsplit; [done| |];
      simpl in *; congruence.
Qed.

Lemma split_on_pieces sep s :
  Forall (λ piece, contains_char sep piece = false) (split_on sep s).
Proof.
  induction s as [|c s IH]; simpl.
  - by constructor.
  - destruct (Ascii.eqb_spec c sep) as [->|Hne].
    + by constructor.
    + destruct (split_on sep s) as [|h t]; simpl.
      * constructor; [|done]. simpl.
        destruct (Ascii.eqb_spec sep c); [congruence|done].
      * apply Forall_cons in IH as [Hh Ht]. constructor; [|done]. simpl.
        destruct (Ascii.eqb_spec sep c); [congruence|done].
Qed.

Lemma split_on_no_char c sep s :
  contains_char c s = false →
  Forall (λ piece, contains_char c piece = false) (split_on sep s).
Proof.
  induction s as [|x s IH]; simpl.
  - by constructor.
  - intros [Hx Hs]%orb_false_iff. specialize (IH Hs).
    destruct (Ascii.eqb x sep); [by constructor|].
    destruct (split_on sep s) as [|h t].
    + constructor; [|done]. simpl. by rewrite Hx.
    + apply Forall_cons in IH as [Hh Ht]. constructor; [|done].
      simpl. by rewrite Hx, Hh.
Qed.

Lemma split_once_first sep k v :
  contains_char sep k = false →
  split_once sep (k ++ String sep v) = (k, v)
  ∧ contains_char sep (k ++ String sep v) = true.
Proof.
  induction k as [|c k IH]; simpl.
  - intros _. by rewrite Ascii.eqb_refl.
  - intros [Hc Hk]%orb_false_iff. destruct (IH Hk) as [-> ->].
    rewrite Ascii.eqb_sym in Hc. rewrite Hc. by rewrite orb_true_r.
Qed.

(** *** Facts about the pattern *)

Section pattern.
Context {unicode : Unicode}.

Lemma strip_prefix_app p s r t :
  strip_prefix p s = Some r → strip_prefix p (s ++ t) = Some (r ++ t).
Proof.
  revert s. induction p as [|a p IH]; intros s; simpl.
  - by intros [= ->].
  - destruct s as [|b s]; simpl; [done|]. destruct (Ascii.eqb a b); [apply IH|done].
Qed.

Lemma strip_prefix_self p s : strip_prefix p (p ++ s) = Some s.
Proof. induction p as [|a p IH]; simpl; [done|]. by rewrite Ascii.eqb_refl. Qed.

Lemma strip_prefix_prefix p s r : strip_prefix p s = Some r → starts_with p s = true.
Proof.
  revert s. induction p as [|a p IH]; intros s; simpl.
  - intros _. by destruct s.
  - destruct s as [|b s]; [done|]. destruct (Ascii.eqb a b); [apply IH|done].
Qed.

Lemma span_class_first cls s a b :
  span_class cls s = (a, b) → a ≠ "" →
  ∃ cp len, decode s = Some (cp, len) ∧ cls cp = true.
Proof.
  unfold span_class. intros [= <- <-] Hne. apply starts_class_true.
  destruct (starts_class cls s) eqn:Hstart; [done|].
  by rewrite (prefix_len_stop _ _ Hstart) in Hne.
Qed.

(** A run of characters of the class that ends before a whole
    character does not depend on the text after that character. *)
Lemma span_class_app cls s a b t :
  span_class cls s = (a, b) → decode b ≠ None →
  span_class cls (s ++ t) = (a, b ++ t).
Proof.
  unfold span_class. intros [= <- <-] Hd.
  set (n := prefix_len cls s).
  assert (Hn : prefix_len cls (s ++ t) = n).
  { rewrite <-(take_drop_str n s) at 1. rewrite append_assoc.
    rewrite prefix_len_app by apply prefix_len_all.
    rewrite take_str_length by apply prefix_len_le.
    rewrite prefix_len_stop; [lia|].
    pose proof (prefix_len_rest cls s) as Hrest. fold n in Hrest.
    unfold starts_class in Hrest |- *.
    destruct (decode (drop_str n s)) as [x|] eqn:Hdec; [|done].
    by rewrite (decode_app _ t _ Hdec). }
  rewrite Hn. rewrite take_str_app_le, drop_str_app_le by apply prefix_len_le. done.
Qed.

Lemma until_close_app s a r t :
  until_close s = Some (a, r) → until_close (s ++ t) = Some (a, r ++ t).
Proof.
  revert a. induction s as [|x s IH]; intros a; simpl; [done|].
  destruct (Ascii.eqb x ")"); [by intros [= <- <-]|].
  destruct (Ascii.eqb x (ascii_of_nat 10)); [done|].
  destruct (until_close s) as [[a' r']|]; [|done].
  intros [= <- <-]. by rewrite (IH a' eq_refl).
Qed.

(** A match does not depend on the text after it. *)
Lemma match_here_app s name args rest t :
  match_here s = Some (name, args, rest) →
  match_here (s ++ t) = Some (name, args, rest ++ t).
Proof.
  unfold match_here. intros Hm.
  destruct (strip_prefix MARKER s) as [rest1|] eqn:H1; [|done].
  rewrite (strip_prefix_app _ _ _ t H1).
  destruct (span_class isspace rest1) as [sp rest2] eqn:H2.
  destruct (span_class isword rest2) as [nm rest3] eqn:H3.
  destruct (String.eqb_spec nm "") as [|Hnm]; [done|].
  destruct (strip_prefix "(" rest3) as [rest4|] eqn:H4; [|done].
  destruct (until_close rest4) as [[ar rest5]|] eqn:H5; [|done].
  injection Hm as <- <- <-.
  destruct (span_class_first _ _ _ _ H3 Hnm) as (cp & len & Hd2 & _).
  rewrite (span_class_app _ _ _ _ t H2) by congruence.
  assert (Hd3 : decode rest3 ≠ None).
  { destruct rest3 as [|c3 rest3]; [done|]. cbn [strip_prefix] in H4.
    destruct (Ascii.eqb_spec "(" c3) as [<-|]; [by cbn|done]. }
  rewrite (span_class_app _ _ _ _ t H3) by done.
  destruct (String.eqb_spec nm ""); [done|].
  rewrite (strip_prefix_app _ _ _ t H4).
  by rewrite (until_close_app _ _ _ t H5).
Qed.

Lemma match_here_marker s : match_here s ≠ None → starts_with MARKER s = true.
Proof.
  unfold match_here. destruct (strip_prefix MARKER s) eqn:H; [|done].
  intros _. by eapply strip_prefix_prefix.
Qed.

Lemma findall_from_skip a s :
  findall_from (String.length a) (a ++ s) = findall_from 0 s.
Proof. induction a as [|c a IH]; simpl; [done|]. apply IH. Qed.

(** No match starts where the marker does not. *)
Lemma findall_no_marker s : contains MARKER s = false → findall s = [].
Proof.
  unfold findall. induction s as [|c s IH]; [done|].
  cbn [contains]. intros [Hpre Hs]%orb_false_iff.
  cbn [findall_from].
  destruct (match_here (String c s)) eqn:Hm; [|by apply IH].
  rewrite match_here_marker in Hpre; [done|]. by rewrite Hm.
Qed.

(** The text has no conforming occurrence exactly when the pattern
    matches at none of its positions. *)
Lemma findall_nil s :
  findall s = [] ↔ ∀ u t, s = u ++ t → match_here t = None.
Proof.
  unfold findall. induction s as [|c s IH].
  - split; [|done]. intros _ u t Hs. by destruct u, t.
  - cbn [findall_from]. split.
    + destruct (match_here (String c s)) as [[[n a] r]|] eqn:Hm; [done|].
      intros Hnil [|c' u] t Hs; simpl in Hs; [by subst|].
      injection Hs as <- ->. by apply (proj1 IH Hnil u).
    + intros Hall. rewrite (Hall "" (String c s) eq_refl).
      apply IH. intros u t ->. by apply (Hall (String c u)).
Qed.

Lemma findall_infix l s r : findall (l ++ s ++ r) = [] → findall s = [].
Proof.
  rewrite !findall_nil. intros Hall u t ->.
  destruct (match_here t) as [[[n a] rest]|] eqn:Hm; [|done].
  apply (match_here_app _ _ _ _ r) in Hm.
  rewrite (Hall (l ++ u) (t ++ r)) in Hm; [done|].
  by rewrite !append_assoc.
Qed.

Lemma findall_strip s : findall s = [] → findall (strip s) = [].
Proof.
  intros Hnil. destruct (strip_spec s) as (l & r & Hs & _).
  apply (findall_infix l _ r). by rewrite <-Hs.
Qed.

(** An occurrence of the marker cannot begin before another one and
    end inside it: the marker has a single T. *)
Lemma straddle m p rest r :
  contains_char "T" m = false →
  strip_prefix m (p ++ String "T" rest) = Some r → starts_with m p = true.
Proof.
  revert p. induction m as [|a m IH]; intros p.
  - intros _ _. by destruct p.
  - cbn [contains_char]. intros [Ha Hm]%orb_false_iff.
    destruct p as [|c p]; cbn [String.append strip_prefix starts_with].
    + rewrite Ascii.eqb_sym, Ha. done.
    + destruct (Ascii.eqb a c); [by apply IH|done].
Qed.

Lemma findall_before_marker pre rest :
  contains MARKER pre = false →
  findall_from 0 (pre ++ MARKER ++ rest) = findall_from 0 (MARKER ++ rest).
Proof.
  induction pre as [|c pre IH]; [done|].
  cbn [contains]. intros [Hpre Hs]%orb_false_iff.
  change (String c pre ++ MARKER ++ rest) with (String c (pre ++ MARKER ++ rest)).
  cbn [findall_from].
  destruct (match_here (String c (pre ++ MARKER ++ rest))) eqn:Hm; [|by apply IH].
  exfalso. unfold match_here in Hm.
  destruct (strip_prefix MARKER (String c (pre ++ MARKER ++ rest))) as [r|] eqn:Hp;
    [|done].
  clear Hm.
  assert (Hp' : (if Ascii.eqb "T" c
                 then strip_prefix "OOL_CALL:" (pre ++ String "T" ("OOL_CALL:" ++ rest))
                 else None) = Some r) by exact Hp.
  destruct (Ascii.eqb_spec "T" c) as [<-|]; [|done].
  apply straddle in Hp'; [|done].
  assert (Hsame : starts_with MARKER (String "T" pre) = starts_with "OOL_CALL:" pre)
    by reflexivity.
  congruence.
Qed.

Lemma findall_from_match c s name args rest :
  match_here (String c s) = Some (name, args, rest) →
  findall_from 0 (String c s)
  = (name, args) :: findall_from (String.length s - String.length rest) s.
Proof. intros H. cbn [findall_from]. by rewrite H. Qed.

Lemma contains_marker pre rest : contains MARKER (pre ++ MARKER ++ rest) = true.
Proof.
  induction pre as [|c pre IH].
  - reflexivity.
  - change (String c pre ++ MARKER ++ rest) with (String c (pre ++ MARKER ++ rest)).
    cbn [contains]. rewrite IH. apply orb_true_r.
Qed.

(** *** A call written out *)

Lemma until_close_args args post :
  contains_char ")" args = false →
  contains_char (ascii_of_nat 10) args = false →
  until_close (args ++ String ")" post) = Some (args, post).
Proof.
  induction args as [|c args IH]; [done|]. cbn [contains_char].
  intros [Hc Hargs]%orb_false_iff [Hn Hline]%orb_false_iff.
  change (String c args ++ ?s) with (String c (args ++ s)). cbn [until_close].
  rewrite Ascii.eqb_sym, Hc. rewrite Ascii.eqb_sym, Hn. by rewrite (IH Hargs Hline).
Qed.

Lemma span_class_all cls a b :
  all_class cls a = true → starts_class cls b = false →
  span_class cls (a ++ b) = (a, b).
Proof.
  intros Ha Hb. unfold span_class.
  rewrite prefix_len_app, (prefix_len_stop _ _ Hb), Nat.add_0_r by done.
  by rewrite take_str_app, drop_str_app.
Qed.

Lemma word_first name :
  all_class isword name = true → name ≠ "" →
  ∃ cp len, decode name = Some (cp, len) ∧ isword cp = true.
Proof. intros Hname Hne. by apply starts_class_true, all_class_starts. Qed.

Lemma word_starts_no_space name rest :
  all_class isword name = true → name ≠ "" →
  starts_class isspace (name ++ rest) = false.
Proof.
  intros Hname Hne. destruct (word_first name Hname Hne) as (cp & len & Hd & Hcp).
  unfold starts_class. rewrite (decode_app _ rest _ Hd). by apply isword_not_space.
Qed.

Lemma paren_starts_no_word rest : starts_class isword ("(" ++ rest) = false.
Proof.
  unfold starts_class. change (decode ("(" ++ rest)) with (Some (40%N, 1%nat)).
  cbv beta iota. by rewrite isword_ascii.
Qed.

(** The pattern matches a marker followed by white space, a name and
    parenthesised arguments, and captures the name and the arguments. *)
Lemma match_here_call ws name args post :
  all_class isspace ws = true →
  all_class isword name = true → name ≠ "" →
  contains_char ")" args = false →
  contains_char (ascii_of_nat 10) args = false →
  match_here (MARKER ++ ws ++ name ++ "(" ++ args ++ ")" ++ post)
  = Some (name, args, post).
Proof.
  intros Hws Hname Hne Hclose Hline. unfold match_here.
  rewrite strip_prefix_self.
  rewrite (span_class_all isspace ws) by (done || by apply word_starts_no_space).
  rewrite (span_class_all isword name) by (done || apply paren_starts_no_word).
  destruct (String.eqb_spec name ""); [done|].
  change (strip_prefix "(" ("(" ++ args ++ ")" ++ post)) with (Some (args ++ ")" ++ post)).
  cbv beta iota.
  by rewrite (until_close_args args post Hclose Hline
                : until_close (args ++ ")" ++ post) = Some (args, post)).
Qed.

Lemma findall_call pre ws name args post :
  contains MARKER pre = false → contains MARKER post = false →
  all_class isspace ws = true →
  all_class isword name = true → name ≠ "" →
  contains_char ")" args = false →
  contains_char (ascii_of_nat 10) args = false →
  findall (pre ++ MARKER ++ ws ++ name ++ "(" ++ args ++ ")" ++ post) = [(name, args)].
Proof.
  intros Hpre Hpost Hws Hname Hne Hclose Hline. unfold findall.
  rewrite findall_before_marker by done.
  pose proof (match_here_call ws name args post Hws Hname Hne Hclose Hline) as Hm.
  set (body := "OOL_CALL:" ++ ws ++ name ++ "(" ++ args ++ ")").
  assert (Htext : MARKER ++ ws ++ name ++ "(" ++ args ++ ")" ++ post
                  = String "T" (body ++ post)).
  { subst body. change MARKER with (String "T" "OOL_CALL:").
    change (String "T" "OOL_CALL:" ++ ?s) with (String "T" ("OOL_CALL:" ++ s)).
    f_equal. rewrite <-!append_assoc. done. }
  rewrite Htext in Hm |- *.
  rewrite (findall_from_match _ _ _ _ _ Hm).
  rewrite length_append, Nat.add_sub, findall_from_skip.
  f_equal. by apply findall_no_marker.
Qed.

(** The textual call of the example: [f] with [a] and [b], both quoted. *)
Definition CALL_ARGS : string := "a=" ++ dq ++ "1" ++ dq ++ ", b=" ++ dq ++ "2" ++ dq.
Definition CALL : string := "TOOL_CALL: f(" ++ CALL_ARGS ++ ")".

Lemma findall_single_call pre post :
  contains MARKER pre = false → contains MARKER post = false →
  findall (pre ++ CALL ++ post) = [("f", CALL_ARGS)].
Proof.
  intros Hpre Hpost.
  apply (findall_call pre " " "f" CALL_ARGS post); try done.
  apply all_class_eq. rewrite prefix_len_unfold.
  change (decode "f") with (Some (102%N, 1%nat)). cbv beta iota.
  by rewrite isword_ascii.
Qed.
End pattern.

(** *** Lower case and needles without letters *)

Definition is_letter (c : ascii) : bool :=
  let n := nat_of_ascii c in
  ((65 <=? n) && (n <=? 90) || (97 <=? n) && (n <=? 122))%nat.

Lemma lower_char_cases x :
  lower_char x = x ∨ (is_letter x = true ∧ is_letter (lower_char x) = true).
Proof.
  destruct x as [[] [] [] [] [] [] [] []]; vm_compute; auto.
Qed.

Lemma lower_char_eqb a x :
  is_letter a = false → Ascii.eqb a (lower_char x) = Ascii.eqb a x.
Proof.
  intros Ha. destruct (lower_char_cases x) as [->|[Hx Hlow]]; [done|].
  destruct (Ascii.eqb_spec a (lower_char x)) as [->|]; [congruence|].
  destruct (Ascii.eqb_spec a x) as [->|]; [congruence|done].
Qed.

Lemma starts_with_lower needle s :
  all_chars (λ c, negb (is_letter c)) needle = true →
  starts_with needle (lower s) = starts_with needle s.
Proof.
  revert s. induction needle as [|a needle IH]; intros s; [by destruct s|].
  cbn [all_chars]. intros [Ha Hneedle]%andb_true_iff. apply negb_true_iff in Ha.
  destruct s as [|x s]; [done|]. cbn [lower starts_with].
  by rewrite lower_char_eqb, IH.
Qed.

(** A needle without ASCII letters is found in a text exactly when it
    is found in the lower-cased text. *)
Lemma contains_lower needle s :
  all_chars (λ c, negb (is_letter c)) needle = true →
  contains needle (lower s) = contains needle s.
Proof.
  intros Hneedle. induction s as [|x s IH].
  - done.
  - cbn [lower contains]. rewrite IH.
    by rewrite <-(starts_with_lower needle (String x s)).
Qed.

Lemma lower_idempotent s : lower (lower s) = lower s.
Proof.
  induction s as [|x s IH]; [done|]. cbn [lower]. rewrite IH. f_equal.
  destruct x as [[] [] [] [] [] [] [] []]; by vm_compute.
Qed.

(** *** [str.replace] *)

(** [s.replace(old, new)] for a non-empty [old]: the occurrences are
    taken from left to right and do not overlap.  [skip] counts the
    characters of the current occurrence still to be passed over. *)
Fixpoint replace_from (skip : nat) (old new s : string) : string :=
  match s with
  | String c s' =>
      match skip with
      | S k => replace_from k old new s'
      | O =>
          if starts_with old s
          then new ++ replace_from (String.length old - 1) old new s'
          else String c (replace_from 0 old new s')
      end
  | EmptyString => EmptyString
  end.

(** With an empty [old], [new] goes before each character and at the
    end. *)
Fixpoint replace_empty (new s : string) : string :=
  match s with
  | String c s' => new ++ String c (replace_empty new s')
  | EmptyString => new
  end.

Definition replace (old new s : string) : string :=
  match old with
  | EmptyString => replace_empty new s
  | String _ _ => replace_from 0 old new s
  end.

Lemma starts_with_self p s : starts_with p (p ++ s) = true.
Proof. induction p as [|a p IH]; [done|]. cbn. by rewrite Ascii.eqb_refl. Qed.

Lemma starts_with_cancel p q s : starts_with (p ++ q) (p ++ s) = starts_with q s.
Proof. induction p as [|a p IH]; [done|]. cbn. by rewrite Ascii.eqb_refl. Qed.

Lemma starts_with_prefix p q s : starts_with (p ++ q) s = true → starts_with p s = true.
Proof.
  revert s. induction p as [|a p IH]; intros s; [done|].
  destruct s as [|b s]; cbn; [done|].
  intros [Hab Hp]%andb_true_iff. rewrite Hab. by apply IH.
Qed.

Lemma contains_cons m c s :
  contains m (String c s) = starts_with m (String c s) || contains m s.
Proof. done. Qed.

Lemma contains_app_r m a b : contains m (a ++ b) = false → contains m b = false.
Proof.
  induction a as [|c a IH]; [done|].
  change (String c a ++ b) with (String c (a ++ b)). rewrite contains_cons.
  intros [_ Hrest]%orb_false_iff. by apply IH.
Qed.

Lemma contains_prefix p q s : contains p s = false → contains (p ++ q) s = false.
Proof.
  assert (Hstart : ∀ t, starts_with p t = false → starts_with (p ++ q) t = false).
  { intros t Hp. destruct (starts_with (p ++ q) t) eqn:Hpq; [|done].
    apply starts_with_prefix in Hpq. congruence. }
  induction s as [|c s IH].
  - cbn. rewrite !orb_false_r. apply Hstart.
  - rewrite !contains_cons. intros [Hp Hs]%orb_false_iff.
    by rewrite (Hstart _ Hp), (IH Hs).
Qed.

(** An occurrence of a text whose first character occurs nowhere else
    in it cannot begin before another occurrence and end inside it. *)
Lemma straddle_char (x : ascii) m p rest :
  contains_char x m = false →
  starts_with m (p ++ String x rest) = true → starts_with m p = true.
Proof.
  revert p. induction m as [|a m IH]; intros p; [done|].
  cbn [contains_char]. intros [Ha Hm]%orb_false_iff.
  destruct p as [|c p]; cbn [String.append starts_with].
  - rewrite Ascii.eqb_sym, Ha. done.
  - intros [Hac Hp]%andb_true_iff. rewrite Hac. by apply IH.
Qed.

Lemma not_across (x : ascii) m c v rest :
  contains_char x m = false →
  starts_with (String x m) (String c v) = false →
  starts_with (String x m) (String c (v ++ String x m ++ rest)) = false.
Proof.
  intros Hx Hv. cbn [starts_with] in Hv |- *.
  destruct (Ascii.eqb x c); [|done]. cbn [andb] in Hv |- *.
  destruct (starts_with m (v ++ String x m ++ rest)) eqn:Hm; [|done].
  change (String x m ++ rest) with (String x (m ++ rest)) in Hm.
  apply straddle_char in Hm; [congruence|done].
Qed.

Lemma replace_from_skip a old new s :
  replace_from (String.length a) old new (a ++ s) = replace_from 0 old new s.
Proof. induction a as [|c a IH]; [done|]. cbn. apply IH. Qed.

Lemma replace_from_hit x m new s :
  replace_from 0 (String x m) new (String x m ++ s)
  = new ++ replace_from 0 (String x m) new s.
Proof.
  change (String x m ++ s) with (String x (m ++ s)). cbn [replace_from].
  change (String x (m ++ s)) with (String x m ++ s). rewrite starts_with_self.
  replace (String.length (String x m) - 1)%nat with (String.length m)
    by (cbn [String.length]; lia).
  by rewrite replace_from_skip.
Qed.

Lemma replace_from_none old new s :
  contains old s = false → replace_from 0 old new s = s.
Proof.
  induction s as [|c s IH]; [done|]. rewrite contains_cons.
  intros [Hstart Hs]%orb_false_iff. cbn [replace_from]. rewrite Hstart.
  by rewrite (IH Hs).
Qed.

(** The text with a single occurrence of [old], which begins with a
    text whose first character occurs nowhere else in it. *)
Lemma replace_from_single (x : ascii) m tail new pre post :
  contains_char x m = false →
  contains (String x m) pre = false →
  contains (String x m ++ tail) post = false →
  replace_from 0 (String x m ++ tail) new (pre ++ (String x m ++ tail) ++ post)
  = pre ++ new ++ post.
Proof.
  intros Hx Hpre Hpost. induction pre as [|c pre IH].
  - change ("" ++ ?s) with s.
    change (String x m ++ tail) with (String x (m ++ tail)).
    by rewrite replace_from_hit, replace_from_none.
  - rewrite contains_cons in Hpre. apply orb_false_iff in Hpre as [Hstart Hpre].
    change (String c pre ++ ?s) with (String c (pre ++ s)). cbn [replace_from].
    destruct (starts_with (String x m ++ tail)
                (String c (pre ++ (String x m ++ tail) ++ post))) eqn:Hacross.
    + apply starts_with_prefix in Hacross. rewrite append_assoc in Hacross.
      by rewrite (not_across x m c pre (tail ++ post) Hx Hstart) in Hacross.
    + by rewrite (IH Hpre).
Qed.

Lemma contains_single (x : ascii) m tail pre rest :
  contains_char x m = false →
  contains (String x m) pre = false →
  contains (String x m) (m ++ rest) = false →
  contains (String x m ++ tail) (pre ++ String x m ++ rest) = starts_with tail rest.
Proof.
  intros Hx Hpre Hrest. induction pre as [|c pre IH].
  - change ("" ++ ?s) with s.
    change (String x m ++ rest) with (String x (m ++ rest)). rewrite contains_cons.
    change (String x (m ++ rest)) with (String x m ++ rest).
    rewrite starts_with_cancel. rewrite (contains_prefix _ tail _ Hrest).
    apply orb_false_r.
  - rewrite contains_cons in Hpre. apply orb_false_iff in Hpre as [Hstart Hpre].
    change (String c pre ++ ?s) with (String c (pre ++ s)). rewrite contains_cons.
    rewrite (IH Hpre).
    destruct (starts_with (String x m ++ tail) (String c (pre ++ String x m ++ rest)))
      eqn:Hacross; [|done].
    apply starts_with_prefix in Hacross.
    by rewrite (not_across x m c pre rest Hx Hstart) in Hacross.
Qed.

End PyStr.

(** ** The AI client *)

Module Client.
Import PyStr.

(** One entry of [self.available_tools]: the name and the description
    of the function; its parameter schema is only passed on to the
    completion service. *)
Record Tool := mkTool { tool_name : string; tool_description : string }.

(** The list [_register_mcp_tools] builds when a server is attached. *)
Definition MCP_TOOLS : list Tool :=
  [ mkTool "read_file" "读取文件内容";
    mkTool "write_file" "写入文件内容";
    mkTool "list_files" "列出目录中的文件";
    mkTool "get_section_structure" "获取项目的章节结构";
    mkTool "generate_outline" "生成标书大纲";
    mkTool "generate_subsection_content" "生成章节子内容";
    mkTool "one_click_docx_export" "一键导出Word文档" ].

(** The canned replies of [_get_mock_response]. *)
Definition MOCK_CREATE_PROJECT : string :=
  join nl
    [ "";
      "{";
      ("    " ++ dq ++ "intent" ++ dq ++ ": " ++ dq ++ "create_project" ++ dq ++ ",");
      ("    " ++ dq ++ "confidence" ++ dq ++ ": 0.9,");
      ("    " ++ dq ++ "entities" ++ dq ++ ": {");
      ("        " ++ dq ++ "project_name" ++ dq ++ ": " ++ dq ++ "智慧城市建设项目" ++ dq);
      "    },";
      ("    " ++ dq ++ "task_type" ++ dq ++ ": " ++ dq ++ "simple" ++ dq ++ ",");
      ("    " ++ dq ++ "requires_planning" ++ dq ++ ": false");
      "}";
      "" ].

Definition MOCK_GENERATE_OUTLINE : string :=
  join nl
    [ "";
      "{";
      ("    " ++ dq ++ "intent" ++ dq ++ ": " ++ dq ++ "generate_outline" ++ dq ++ ",");
      ("    " ++ dq ++ "confidence" ++ dq ++ ": 0.9,");
      ("    " ++ dq ++ "entities" ++ dq ++ ": {},");
      ("    " ++ dq ++ "task_type" ++ dq ++ ": " ++ dq ++ "simple" ++ dq ++ ",");
      ("    " ++ dq ++ "requires_planning" ++ dq ++ ": false");
      "}";
      "" ].

Definition MOCK_VIEW_CONTENT : string :=
  join nl
    [ "";
      "{";
      ("    " ++ dq ++ "intent" ++ dq ++ ": " ++ dq ++ "view_content" ++ dq ++ ",");
      ("    " ++ dq ++ "confidence" ++ dq ++ ": 0.8,");
      ("    " ++ dq ++ "entities" ++ dq ++ ": {},");
      ("    " ++ dq ++ "task_type" ++ dq ++ ": " ++ dq ++ "simple" ++ dq ++ ",");
      ("    " ++ dq ++ "requires_planning" ++ dq ++ ": false");
      "}";
      "" ].

Definition MOCK_EXPORT_DOCUMENT : string :=
  join nl
    [ "";
      "{";
      ("    " ++ dq ++ "intent" ++ dq ++ ": " ++ dq ++ "export_document" ++ dq ++ ",");
      ("    " ++ dq ++ "confidence" ++ dq ++ ": 0.9,");
      ("    " ++ dq ++ "entities" ++ dq ++ ": {},");
      ("    " ++ dq ++ "task_type" ++ dq ++ ": " ++ dq ++ "simple" ++ dq ++ ",");
      ("    " ++ dq ++ "requires_planning" ++ dq ++ ": false");
      "}";
      "" ].

Definition MOCK_GENERAL : string :=
  join nl
    [ "";
      "🤖 **模拟模式运行中**";
      "";
      "由于未配置 API 密钥，当前运行在模拟模式下。";
      "";
      "💡 **配置 API 密钥**：";
      "1. 运行 `tender` 命令";
      "2. 按提示输入 OpenAI API Key";
      "3. 完成配置后即可使用完整功能";
      "";
      "📝 **当前功能**：";
      "- ✅ 项目管理（创建、列表、切换）";
      "- ✅ 文件操作（读写、目录管理）";
      "- ✅ 大纲生成（使用内置模板）";
      "- ✅ Word文档导出";
      "- ⚠️ AI内容生成（需要API密钥）";
      "";
      "🚀 **开始使用**：即使在模拟模式下，您也可以体验大部分功能！";
      "" ].

(** [_get_mock_response]; [system_prompt] is not used. *)
Definition _get_mock_response (prompt : string) (system_prompt : option string) : string :=
  let prompt_lower := lower prompt in
  let general := MOCK_GENERAL in
  if contains "分析用户的意图" prompt || contains "analyze" prompt_lower then
    if contains "创建项目" prompt || contains "create" prompt_lower then MOCK_CREATE_PROJECT
    else if contains "生成大纲" prompt || contains "outline" prompt_lower then MOCK_GENERATE_OUTLINE
    else if contains "查看" prompt || contains "view" prompt_lower then MOCK_VIEW_CONTENT
    else if contains "导出" prompt || contains "export" prompt_lower then MOCK_EXPORT_DOCUMENT
    else general
  else general.

(** *** Argument parsing of a textual call *)

(** The body of the loop over [args_str.split(',')]. *)
Definition parse_segment (arguments : gmap string string) (arg : string)
    : gmap string string :=
  if contains_char "=" arg then
    let '(key, value) := split_once "=" arg in
    let key := strip_quotes (strip key) in
    let value := strip_quotes (strip value) in
    <[key := value]> arguments
  else arguments.

(** The block that fills [arguments] from [args_str].  Nothing in its
    [try] can raise on strings, so the handler is never entered. *)
Definition parse_arguments (args_str : string) : gmap string string :=
  if String.eqb (strip args_str) "" then ∅
  else foldl parse_segment ∅ (split_on "," args_str).


(** *** The mock responder and letter case *)

(** The canned reply does not depend on the case of the ASCII letters
    of the prompt. *)
Theorem mock_reply_ignores_case (prompt prompt' : string)
    (system_prompt system_prompt' : option string) :
  lower prompt = lower prompt' →
  _get_mock_response prompt system_prompt = _get_mock_response prompt' system_prompt'.
Proof.
  intros Hlower. unfold _get_mock_response.
  rewrite <-(contains_lower "分析用户的意图" prompt) by done.
  rewrite <-(contains_lower "创建项目" prompt) by done.
  rewrite <-(contains_lower "生成大纲" prompt) by done.
  rewrite <-(contains_lower "查看" prompt) by done.
  rewrite <-(contains_lower "导出" prompt) by done.
  rewrite <-(contains_lower "分析用户的意图" prompt') by done.
  rewrite <-(contains_lower "创建项目" prompt') by done.
  rewrite <-(contains_lower "生成大纲" prompt') by done.
  rewrite <-(contains_lower "查看" prompt') by done.
  rewrite <-(contains_lower "导出" prompt') by done.
  by rewrite Hlower.
Qed.

Lemma mock_reply_ignores_case_witness :
  _get_mock_response "Please ANALYZE: Create it" None
  = _get_mock_response "please analyze: create it" (Some "system")
  ∧ _get_mock_response "please analyze: create it" None = MOCK_CREATE_PROJECT.
Proof.
  split; [|reflexivity].
  apply (mock_reply_ignores_case "Please ANALYZE: Create it" "please analyze: create it").
  reflexivity.
Defined.

(** *** The declared arguments of the tools *)

(** The [required] list of each tool in [_register_mcp_tools]. *)
Definition MCP_TOOL_REQUIRED : list (string * list string) :=
  [ ("read_file", ["path"]);
    ("write_file", ["path"; "content"]);
    ("list_files", ["directory"]);
    ("get_section_structure", []);
    ("generate_outline", ["requirements"; "tender_type"]);
    ("generate_subsection_content", ["section"; "subsection"; "requirements"]);
    ("one_click_docx_export", []) ].

Section client.
(** The Unicode database of the interpreter. *)
Context {unicode : Unicode}.
(** The state of everything outside the client: the files the tools
    work on and the completion service. *)
Context {World : Type}.
(** Python values handed to and returned by the tools. *)
Context {Value : Type}.
(** A [str] as a value. *)
Context (VStr : string → Value).
(** [json.dumps(result, ensure_ascii=False, indent=2)] if the result
    is a dict or a list, [str(result)] otherwise. *)
Context (render : Value → PyResult string).

(** The [arguments] of a call: a dict, or another JSON value, whose
    subscription by a string raises. *)
Inductive Args :=
| ArgsDict (d : gmap string Value)
| ArgsOther (subscript_error : Exn).

(** [json.loads]; [None] stands for [JSONDecodeError]. *)
Context (json_loads : string → option Args).

(** The methods of [MCPServer] that the client calls. *)
Record MCPServer := mkMCPServer {
  read_file : World → Value → World * PyResult Value;
  write_file : World → Value → Value → World * PyResult Value;
  list_files : World → Value → World * PyResult Value;
  get_section_structure : World → World * PyResult Value;
  generate_outline : World → Value → Value → World * PyResult Value;
  generate_subsection_content : World → Value → Value → Value → World * PyResult Value;
  one_click_docx_export : World → World * PyResult Value
}.

Record Config := mkConfig {
  cfg_provider : option string;
  cfg_api_key : option string;
  cfg_base_url : option string
}.

Record AIClient := mkClient {
  provider : string;
  api_key : string;
  base_url : string;
  mock_mode : bool;
  mcp_server : option MCPServer;
  available_tools : list Tool
}.

(** [bool(s)] *)
Definition truthy (s : string) : bool := negb (String.eqb s "").

(** [__init__]: [_init_client] runs outside mock mode only, and
    rejects every provider but openai. *)
Definition __init__ (config : Config) (server : option MCPServer) : PyResult AIClient :=
  let provider := default "openai" (cfg_provider config) in
  let api_key := strip (default "" (cfg_api_key config)) in
  let base_url := strip (default "" (cfg_base_url config)) in
  let mock_mode := negb (truthy api_key || truthy base_url) in
  let self := {| provider := provider; api_key := api_key; base_url := base_url;
                 mock_mode := mock_mode; mcp_server := server;
                 available_tools := if server is Some _ then MCP_TOOLS else [] |} in
  if negb mock_mode && negb (String.eqb provider "openai")
  then Raise (mkExn "ValueError" ("Unsupported AI provider: " ++ provider))
  else Return self.

(** *** The dispatcher *)

(** [arguments[key]] *)
Definition getitem (arguments : Args) (key : string) : PyResult Value :=
  match arguments with
  | ArgsDict d =>
      match d !! key with
      | Some v => Return v
      | None => Raise (mkExn "KeyError" ("'" ++ key ++ "'"))
      end
  | ArgsOther e => Raise e
  end.

(** Evaluate [arguments[key]], then go on in the same world. *)
Definition with_arg (arguments : Args) (key : string) (w : World)
    (k : Value → World * PyResult Value) : World * PyResult Value :=
  match getitem arguments key with
  | Return v => k v
  | Raise e => (w, Raise e)
  end.

(** The [if]/[elif] chain: [None] is the final [else]. *)
Definition invoke (srv : MCPServer) (w : World) (tool_name : string) (arguments : Args)
    : option (World * PyResult Value) :=
  if String.eqb tool_name "read_file" then
    Some (with_arg arguments "path" w (λ path, read_file srv w path))
  else if String.eqb tool_name "write_file" then
    Some (with_arg arguments "path" w (λ path,
          with_arg arguments "content" w (λ content, write_file srv w path content)))
  else if String.eqb tool_name "list_files" then
    Some (with_arg arguments "directory" w (λ directory, list_files srv w directory))
  else if String.eqb tool_name "get_section_structure" then
    Some (get_section_structure srv w)
  else if String.eqb tool_name "generate_outline" then
    Some (with_arg arguments "requirements" w (λ requirements,
          with_arg arguments "tender_type" w (λ tender_type,
            generate_outline srv w requirements tender_type)))
  else if String.eqb tool_name "generate_subsection_content" then
    Some (with_arg arguments "section" w (λ section,
          with_arg arguments "subsection" w (λ subsection,
          with_arg arguments "requirements" w (λ requirements,
            generate_subsection_content srv w section subsection requirements))))
  else if String.eqb tool_name "one_click_docx_export" then
    Some (one_click_docx_export srv w)
  else None.

Definition NOT_INITIALIZED : string := "MCP服务器未初始化".
Definition unknown_tool (tool_name : string) : string := "未知的工具: " ++ tool_name.
Definition call_failed (e : Exn) : string := "工具调用失败: " ++ exn_str e.

(** [_call_mcp_tool]: what the tool and the rendering of its result
    raise goes through the handler [except Exception]. *)
Definition _call_mcp_tool (self : AIClient) (w : World) (tool_name : string)
    (arguments : Args) : World * PyResult string :=
  match mcp_server self with
  | None => (w, Return NOT_INITIALIZED)
  | Some srv =>
      match invoke srv w tool_name arguments with
      | None => (w, Return (unknown_tool tool_name))
      | Some (w', outcome) =>
          (w', except_Exception (result ← outcome; render result)
                 (λ e, Return (call_failed e)))
      end
  end.

(** *** The call extractor *)

Definition result_block (tool_name tool_result : string) : string :=
  nl ++ nl ++ "**" ++ tool_name ++ " 执行结果：**" ++ nl ++ tool_result.

(** One iteration of the loop over [matches]. *)
Definition process_match (self : AIClient) (acc : World * list string)
    (m : string * string) : World * PyResult (list string) :=
  let '(w, result_parts) := acc in
  let '(tool_name, args_str) := m in
  let arguments := parse_arguments args_str in
  let '(w', outcome) :=
    _call_mcp_tool self w tool_name (ArgsDict (VStr <$> arguments)) in
  (w', tool_result ← outcome;
       Return (result_parts ++ [result_block tool_name tool_result])%list).

Definition _process_text_tool_calls (self : AIClient) (w : World) (text : string)
    : World * PyResult string :=
  if bool_decide (available_tools self = []) || negb (contains MARKER text)
  then (w, Return text)
  else
    match findall text with
    | [] => (w, Return text)
    | matches =>
        let '(w', outcome) := for_each (process_match self) (w, [text]) matches in
        (w', result_parts ← outcome; Return (join nl result_parts))
    end.

(** The calls the loop of [_process_text_tool_calls] dispatches. *)
Definition detected_calls (self : AIClient) (text : string)
    : list (string * gmap string string) :=
  if bool_decide (available_tools self = []) || negb (contains MARKER text) then []
  else (λ m, (m.1, parse_arguments m.2)) <$> findall text.

(** *** The completion gateway *)

Record Message := mkMessage {
  role : string;
  msg_content : string;
  tool_call_id : option string
}.

Record ToolCall := mkToolCall { tc_id : string; tc_name : string; tc_arguments : string }.

(** [response.choices[0].message] *)
Record Completion := mkCompletion {
  content : option string;
  tool_calls : list ToolCall
}.

(** What is sent: the messages, and the tool list when function
    calling is asked for.  The model name, the temperature and the
    token limit are the same in every request. *)
Record Request := mkRequest {
  req_messages : list Message;
  req_tools : option (list Tool)
}.

(** [self.client.chat.completions.create] followed by
    [.choices[0].message]: one round trip to the service. *)
Context (create : World → Request → World * PyResult Completion).

Definition describe (tool : Tool) : string :=
  "- " ++ tool_name tool ++ ": " ++ tool_description tool.

Definition enhanced_system_prompt (self : AIClient) (system_prompt : string) : string :=
  join nl
    [ system_prompt;
      "";
      "你可以使用以下工具来帮助用户：";
      join nl (describe <$> available_tools self);
      "";
      "当需要使用工具时，请在回复中包含类似这样的格式：";
      "TOOL_CALL: tool_name(参数)";
      "";
      "例如：";
      "- TOOL_CALL: get_section_structure()";
      "- TOOL_CALL: read_file(path=" ++ dq ++ "/path/to/file" ++ dq ++ ")";
      "- TOOL_CALL: generate_outline(requirements=" ++ dq ++ "需求" ++ dq
        ++ ", tender_type=" ++ dq ++ "类型" ++ dq ++ ")" ].

Definition system_messages (self : AIClient) (system_prompt : option string)
    : list Message :=
  match system_prompt with
  | Some sp =>
      if truthy sp then
        if bool_decide (available_tools self = []) then [mkMessage "system" sp None]
        else [mkMessage "system" (enhanced_system_prompt self sp) None]
      else []
  | None => []
  end.

(** The text returned when the request fails. *)
Definition error_text (self : AIClient) (e : Exn) : string :=
  let s := lower (exn_str e) in
  if contains "api_key" s || contains "authentication" s then
    "⚠️ API密钥认证失败，请检查配置。"
  else if contains "connection" s || contains "network" s then
    "⚠️ 网络连接失败，请检查端点 " ++ base_url self ++ " 是否可访问。"
  else "⚠️ AI服务调用失败: " ++ exn_str e.

(** [None.strip()] *)
Definition NO_CONTENT : Exn :=
  mkExn "AttributeError" "'NoneType' object has no attribute 'strip'".

(** The loop over [message.tool_calls]. *)
Definition run_tool_call (self : AIClient) (acc : World * list string)
    (tool_call : ToolCall) : World * PyResult (list string) :=
  let '(w, tool_results) := acc in
  let arguments :=
    match json_loads (tc_arguments tool_call) with
    | Some a => a
    | None => ArgsDict ∅
    end in
  let '(w', outcome) := _call_mcp_tool self w (tc_name tool_call) arguments in
  (w', tool_result ← outcome;
       let line := "工具 " ++ tc_name tool_call ++ " 执行结果:" ++ nl ++ tool_result in
       Return (tool_results ++ [line])%list).

(** The turns added to [messages] after the tool calls: the assistant
    turn, then one tool turn per call. *)
Definition assistant_turn (message : Completion) : Message :=
  mkMessage "assistant"
    (match content message with
     | Some c => if truthy c then c else "我将使用工具来帮助您。"
     | None => "我将使用工具来帮助您。"
     end) None.

Definition tool_turns (calls : list ToolCall) (tool_results : list string)
    : list Message :=
  zip_with (λ tool_call r, mkMessage "tool" r (Some (tc_id tool_call)))
    calls tool_results.

(** The body of the function-calling [try]: the final world, the
    requests sent, the list [messages] as the body left it, and how the
    body ended. *)
Definition function_calling (self : AIClient) (w : World) (messages : list Message)
    : World * list Request * list Message * PyResult string :=
  let request := mkRequest messages (Some (available_tools self)) in
  let '(w1, response) := create w request in
  match response with
  | Raise e => (w1, [request], messages, Raise e)
  | Return message =>
      match tool_calls message with
      | [] =>
          match content message with
          | Some c =>
              let '(w2, outcome) := _process_text_tool_calls self w1 (strip c) in
              (w2, [request], messages, outcome)
          | None => (w1, [request], messages, Raise NO_CONTENT)
          end
      | calls =>
          let '(w2, outcome) := for_each (run_tool_call self) (w1, []) calls in
          match outcome with
          | Raise e => (w2, [request], messages, Raise e)
          | Return tool_results =>
              let messages2 :=
                (messages ++ assistant_turn message :: tool_turns calls tool_results)%list in
              let request2 := mkRequest messages2 None in
              let '(w3, final_response) := create w2 request2 in
              match final_response with
              | Raise e => (w3, [request; request2], messages2, Raise e)
              | Return final =>
                  match content final with
                  | Some c => (w3, [request; request2], messages2, Return (strip c))
                  | None => (w3, [request; request2], messages2, Raise NO_CONTENT)
                  end
              end
          end
      end
  end.

(** The request without tools. *)
Definition plain_chat (self : AIClient) (w : World) (sent : list Request)
    (messages : list Message) : World * list Request * PyResult (option string) :=
  let request := mkRequest messages None in
  let '(w1, response) := create w request in
  let sent := (sent ++ [request])%list in
  match response with
  | Raise e => (w1, sent, Raise e)
  | Return message =>
      match content message with
      | Some c =>
          let '(w2, outcome) := _process_text_tool_calls self w1 (strip c) in
          (w2, sent, result ← outcome; Return (Some result))
      | None => (w1, sent, Raise NO_CONTENT)
      end
  end.

(** The list [messages] that [chat] builds first. *)
Definition user_messages (self : AIClient) (prompt : string)
    (system_prompt : option string) : list Message :=
  (system_messages self system_prompt ++ [mkMessage "user" prompt None])%list.

(** The body of the outer [try] of [chat]. *)
Definition chat_body (self : AIClient) (w : World) (prompt : string)
    (system_prompt : option string) : World * list Request * PyResult (option string) :=
  let messages := user_messages self prompt system_prompt in
  if String.eqb (provider self) "openai" then
    if bool_decide (available_tools self = []) then plain_chat self w [] messages
    else
      let '(w1, sent, messages', attempt) := function_calling self w messages in
      match attempt with
      | Return result => (w1, sent, Return (Some result))
      | Raise e =>
          if is_exception e then plain_chat self w1 sent messages'
          else (w1, sent, Raise e)
      end
  else (w, [], Return None).

(** [chat]: the final world, the requests sent to the service in
    order, and the value returned ([None] is Python's [None]) or the
    exception raised. *)
Definition chat (self : AIClient) (w : World) (prompt : string)
    (system_prompt : option string) : World * list Request * PyResult (option string) :=
  if mock_mode self then (w, [], Return (Some (_get_mock_response prompt system_prompt)))
  else
    let '(w', sent, outcome) := chat_body self w prompt system_prompt in
    (w', sent, except_Exception outcome (λ e, Return (Some (error_text self e)))).

(** *** What leaves the handlers *)

Lemma except_Exception_escape {A} (outcome : PyResult A) (handler : Exn → A) e :
  except_Exception outcome (λ e, Return (handler e)) = Raise e →
  outcome = Raise e ∧ is_exception e = false.
Proof.
  destruct outcome as [a|e']; [done|]. simpl.
  destruct (is_exception e') eqn:He; [done|]. by intros [= <-].
Qed.

Lemma except_Exception_caught {A} (handler : Exn → PyResult A) e :
  is_exception e = true → except_Exception (Raise e) handler = handler e.
Proof. intros He. simpl. by rewrite He. Qed.

Lemma for_each_escape {A B} (P : Exn → Prop) (body : World * B → A → World * PyResult B) :
  (∀ acc item w e, body acc item = (w, Raise e) → P e) →
  ∀ items acc w e, for_each body acc items = (w, Raise e) → P e.
Proof.
  intros Hbody items. induction items as [|item items IH]; intros acc w e; [done|].
  cbn [for_each]. destruct (body acc item) as [w1 [b|e1]] eqn:Hstep.
  - apply IH.
  - intros [= <- <-]. by eapply Hbody.
Qed.

Lemma call_mcp_tool_escape self w name arguments w' e :
  _call_mcp_tool self w name arguments = (w', Raise e) → is_exception e = false.
Proof.
  unfold _call_mcp_tool. destruct (mcp_server self) as [srv|]; [|done].
  destruct (invoke srv w name arguments) as [[w1 run]|]; [|done].
  intros [= <- Hraise]. by apply except_Exception_escape in Hraise as [_ He].
Qed.

Lemma process_match_escape self acc m w' e :
  process_match self acc m = (w', Raise e) → is_exception e = false.
Proof.
  unfold process_match. destruct acc as [w parts], m as [name args].
  destruct (_call_mcp_tool self w name _) as [w1 [r|e1]] eqn:Hcall; [done|].
  intros [= <- <-]. by eapply call_mcp_tool_escape.
Qed.

Lemma process_text_escape self w text w' e :
  _process_text_tool_calls self w text = (w', Raise e) → is_exception e = false.
Proof.
  unfold _process_text_tool_calls. destruct (_ || _); [done|].
  destruct (findall text) as [|m matches]; [done|].
  destruct (for_each _ _ _) as [w1 [parts|e1]] eqn:Hloop; [done|].
  intros [= <- <-].
  eapply (for_each_escape (λ e, is_exception e = false)); [|exact Hloop].
  intros acc item w2 e2. apply process_match_escape.
Qed.



(** No instance of [Exception] leaves [chat]. *)
Lemma chat_escape self w prompt system_prompt w' sent e :
  chat self w prompt system_prompt = (w', sent, Raise e) → is_exception e = false.
Proof.
  unfold chat. destruct (mock_mode self); [done|].
  destruct (chat_body self w prompt system_prompt) as [[w1 sent1] outcome].
  intros [= <- <- Hraise]. by apply except_Exception_escape in Hraise as [_ He].
Qed.

(** *** The dispatcher never raises an [Exception] *)

Ltac case_tool name t :=
  destruct (String.eqb_spec name t) as [->|?];
  [split; [done|intros Hn; exfalso; apply Hn; elem_of_list]|].

Lemma invoke_unknown srv w name arguments :
  invoke srv w name arguments = None ↔ name ∉ tool_name <$> MCP_TOOLS.
Proof.
  unfold invoke, MCP_TOOLS. cbn [fmap list_fmap tool_name].
  case_tool name "read_file". case_tool name "write_file".
  case_tool name "list_files". case_tool name "get_section_structure".
  case_tool name "generate_outline". case_tool name "generate_subsection_content".
  case_tool name "one_click_docx_export".
  split; [|done]. intros _ Hin.
  repeat (apply elem_of_cons in Hin as [?|Hin]; [done|]).
  by apply elem_of_nil in Hin.
Qed.

(** The capability a name resolves to, applied to the arguments of the
    call. *)
Inductive capability (srv : MCPServer) (w : World) (d : gmap string Value)
    : string → World * PyResult Value → Prop :=
| cap_read_file path :
    d !! "path" = Some path →
    capability srv w d "read_file" (read_file srv w path)
| cap_write_file path text :
    d !! "path" = Some path → d !! "content" = Some text →
    capability srv w d "write_file" (write_file srv w path text)
| cap_list_files directory :
    d !! "directory" = Some directory →
    capability srv w d "list_files" (list_files srv w directory)
| cap_get_section_structure :
    capability srv w d "get_section_structure" (get_section_structure srv w)
| cap_generate_outline requirements tender_type :
    d !! "requirements" = Some requirements →
    d !! "tender_type" = Some tender_type →
    capability srv w d "generate_outline"
      (generate_outline srv w requirements tender_type)
| cap_generate_subsection_content section subsection requirements :
    d !! "section" = Some section →
    d !! "subsection" = Some subsection →
    d !! "requirements" = Some requirements →
    capability srv w d "generate_subsection_content"
      (generate_subsection_content srv w section subsection requirements)
| cap_one_click_docx_export :
    capability srv w d "one_click_docx_export" (one_click_docx_export srv w).

Lemma invoke_capability srv w d name run :
  capability srv w d name run → invoke srv w name (ArgsDict d) = Some run.
Proof.
  destruct 1; unfold invoke, with_arg, getitem; simpl (String.eqb _ _); cbv iota;
    repeat match goal with H : _ !! _ = Some _ |- _ => rewrite H; clear H end;
    done.
Qed.

(** C2 (as amended).  No instance of [Exception] leaves
    [_call_mcp_tool]: it returns a text, or it raises an exception that
    is not an [Exception] and that the tool or the rendering of its
    result raised.  Without a server it answers that the server is not
    initialised, whatever the name.  With a server, a name outside the
    seven tools gets the unknown-tool message naming it, and for the
    capability the name resolves to, run on the arguments of the call:
    an [Exception] it raises, or that rendering its result raises,
    becomes the failure message with [str(e)]; any other exception it
    raises leaves the dispatcher; otherwise the rendered result is
    returned. *)
Theorem call_mcp_tool_never_raises (self : AIClient) (w : World) (name : string)
    (arguments : Args) :
  (∃ w' outcome,
     _call_mcp_tool self w name arguments = (w', outcome)
     ∧ match outcome with
       | Return text => True
       | Raise e =>
           is_exception e = false
           ∧ ∃ srv run, mcp_server self = Some srv
               ∧ invoke srv w name arguments = Some (w', run)
               ∧ (result ← run; render result) = Raise e
       end)
  ∧ match mcp_server self with
    | None => _call_mcp_tool self w name arguments = (w, Return "MCP服务器未初始化")
    | Some srv =>
        (name ∉ tool_name <$> MCP_TOOLS →
           _call_mcp_tool self w name arguments = (w, Return ("未知的工具: " ++ name)))
        ∧ (∀ d w' run,
             arguments = ArgsDict d →
             capability srv w d name (w', run) →
             match run with
             | Raise e =>
                 _call_mcp_tool self w name arguments
                 = (w', if is_exception e
                        then Return ("工具调用失败: " ++ exn_str e) else Raise e)
             | Return v =>
                 match render v with
                 | Return text =>
                     _call_mcp_tool self w name arguments = (w', Return text)
                 | Raise e =>
                     _call_mcp_tool self w name arguments
                     = (w', if is_exception e
                            then Return ("工具调用失败: " ++ exn_str e) else Raise e)
                 end
             end)
    end.
Proof.
  split.
  - unfold _call_mcp_tool. destruct (mcp_server self) as [srv|]; [|by eexists _, (Return _)].
    destruct (invoke srv w name arguments) as [[w1 run]|] eqn:Hrun;
      [|by eexists _, (Return _)].
    eexists w1, _. split; [done|].
    destruct (except_Exception _ _) as [text|e] eqn:Hout; [done|].
    apply except_Exception_escape in Hout as [Hraise He].
    split; [done|]. by exists srv, run.
  - unfold _call_mcp_tool. destruct (mcp_server self) as [srv|]; [|done].
    split.
    + intros Hname. by rewrite (proj2 (invoke_unknown srv w name arguments) Hname).
    + intros d w' run -> Hcap. rewrite (invoke_capability _ _ _ _ _ Hcap).
      destruct run as [v|e]; simpl.
      * destruct (render v) as [text|e]; simpl; [done|]. by destruct (is_exception e).
      * by destruct (is_exception e).
Qed.

(** *** The call extractor on a single call *)

Lemma process_text_no_calls self w text :
  findall text = [] → _process_text_tool_calls self w text = (w, Return text).
Proof.
  intros Hnone. unfold _process_text_tool_calls. rewrite Hnone.
  by destruct (_ || _).
Qed.

Lemma process_text_no_tools self w text :
  available_tools self = [] →
  _process_text_tool_calls self w text = (w, Return text) ∧ detected_calls self text = [].
Proof.
  intros Hnone. unfold _process_text_tool_calls, detected_calls.
  by rewrite bool_decide_eq_true_2.
Qed.

(** C5 (as amended).  Let the marker occur in the text only in the
    call [TOOL_CALL: f(a=.., b=..)] with both values in double quotes.
    The pattern finds exactly that call, and its arguments parse to
    [a = 1] and [b = 2], quotes stripped.  A client with tools
    dispatches exactly this one call and returns the whole text,
    unchanged, followed by the block with the result of the call; a
    client without tools dispatches nothing and returns the text. *)
Theorem extract_single_call (self : AIClient) (w : World) (pre post : string) :
  contains MARKER pre = false →
  contains MARKER post = false →
  let text := pre ++ CALL ++ post in
  let arguments : gmap string string := <["b" := "2"]> (<["a" := "1"]> ∅) in
  findall text = [("f", CALL_ARGS)]
  ∧ parse_arguments CALL_ARGS = arguments
  ∧ (available_tools self ≠ [] →
       detected_calls self text = [("f", arguments)]
       ∧ _process_text_tool_calls self w text
         = let '(w', outcome) :=
             _call_mcp_tool self w "f" (ArgsDict (VStr <$> arguments)) in
           (w', tool_result ← outcome;
                Return (text ++ nl ++ nl ++ nl ++ "**f 执行结果：**" ++ nl ++ tool_result)))
  ∧ (available_tools self = [] →
       detected_calls self text = []
       ∧ _process_text_tool_calls self w text = (w, Return text)).
Proof.
  intros Hpre Hpost text arguments.
  assert (Hfind : findall text = [("f", CALL_ARGS)]) by by apply findall_single_call.
  assert (Hparse : parse_arguments CALL_ARGS = arguments) by by vm_compute.
  assert (Hmark : contains MARKER text = true).
  { subst text. change (CALL ++ post) with (MARKER ++ (" f(" ++ CALL_ARGS ++ ")") ++ post).
    apply contains_marker. }
  split; [done|]. split; [done|]. split.
  - intros Htools. unfold detected_calls, _process_text_tool_calls.
    rewrite bool_decide_eq_false_2 by done. rewrite Hmark, Hfind.
    cbn [negb orb fmap list_fmap fst snd for_each process_match]. rewrite Hparse.
    split; [done|].
    by destruct (_call_mcp_tool self w "f" (ArgsDict (VStr <$> arguments)))
      as [w' [tool_result|e]].
  - intros Htools. destruct (process_text_no_tools self w text Htools). done.
Qed.

(** *** A reply without calls *)

(** The first request of [chat]. *)
Definition first_request (self : AIClient) (prompt : string)
    (system_prompt : option string) : Request :=
  mkRequest (user_messages self prompt system_prompt)
    (if bool_decide (available_tools self = []) then None
     else Some (available_tools self)).

(** C6 (as amended).  Let the first reply of the service have no
    structured calls.  When it has a text, and the text has no
    conforming marker occurrence, [chat] sends no second request and
    returns the text with the white space at both ends stripped; this
    is the text itself exactly when it neither begins nor ends with
    white space.  When it has no text, a client with tools sends a
    second request, the same messages without the tools, and a client
    without tools returns the text of the error. *)
Theorem chat_without_calls (self : AIClient) (w w1 : World) (prompt : string)
    (system_prompt : option string) (message : Completion) :
  mock_mode self = false →
  provider self = "openai" →
  create w (first_request self prompt system_prompt) = (w1, Return message) →
  tool_calls message = [] →
  match content message with
  | Some c =>
      findall c = [] →
      chat self w prompt system_prompt
      = (w1, [first_request self prompt system_prompt], Return (Some (strip c)))
      ∧ (strip c = c
         ↔ starts_class isspace c = false ∧ ends_class isspace c = false)
  | None =>
      if bool_decide (available_tools self = []) then
        chat self w prompt system_prompt
        = (w1, [first_request self prompt system_prompt],
           Return (Some (error_text self NO_CONTENT)))
      else
        ∃ w2 outcome,
          chat self w prompt system_prompt
          = (w2, [first_request self prompt system_prompt;
                  mkRequest (user_messages self prompt system_prompt) None],
             outcome)
  end.
Proof.
  intros Hmock Hprov Hcreate Hcalls.
  destruct (content message) as [c|] eqn:Hcontent.
  - intros Hnone. split; [|apply strip_id].
    apply findall_strip in Hnone.
    unfold chat, chat_body, first_request, user_messages in *.
    rewrite Hmock, Hprov, String.eqb_refl.
    destruct (bool_decide (available_tools self = [])).
    + unfold plain_chat. rewrite Hcreate, Hcontent.
      by rewrite process_text_no_calls.
    + unfold function_calling. rewrite Hcreate, Hcalls, Hcontent.
      by rewrite process_text_no_calls.
  - unfold chat, chat_body, first_request, user_messages in *.
    rewrite Hmock, Hprov, String.eqb_refl.
    destruct (bool_decide (available_tools self = [])).
    + unfold plain_chat. by rewrite Hcreate, Hcontent.
    + unfold function_calling. rewrite Hcreate, Hcalls, Hcontent.
      change (is_exception NO_CONTENT) with true. cbv iota.
      unfold plain_chat.
      destruct (create w1 _) as [w2 [reply|e]]; [|by eexists _, _].
      destruct (content reply) as [c|]; [|by eexists _, _].
      destruct (_process_text_tool_calls self w2 (strip c)) as [w3 outcome].
      by eexists _, _.
Qed.

(** *** The offline mode *)



Lemma init_provider config server self :
  __init__ config server = Return self →
  mock_mode self = true ∨ provider self = "openai".
Proof.
  unfold __init__. destruct (negb _) eqn:Hmock; simpl.
  - destruct (String.eqb_spec (default "openai" (cfg_provider config)) "openai") as [Heq|];
      simpl; [|done].
    intros [= <-]. by right.
  - intros [= <-]. left. simpl. by apply negb_false_iff.
Qed.

Lemma init_tools config server self :
  __init__ config server = Return self →
  mcp_server self = server
  ∧ available_tools self = if server is Some _ then MCP_TOOLS else [].
Proof.
  unfold __init__. destruct (_ && _); [done|]. by intros [= <-].
Qed.

Lemma plain_chat_sent self w sent messages :
  ∃ w' outcome,
    plain_chat self w sent messages
    = (w', (sent ++ [mkRequest messages None])%list, outcome)
    ∧ outcome ≠ Return None.
Proof.
  unfold plain_chat. destruct (create w (mkRequest messages None)) as [w1 [message|e]].
  - destruct (content message) as [c|]; [|by eexists _, _].
    destruct (_process_text_tool_calls self w1 (strip c)) as [w2 [result|e]];
      by eexists _, _.
  - by eexists _, _.
Qed.


Ltac sent_ok :=
  split; [reflexivity|split; [simpl; lia|by repeat constructor]].

Lemma function_calling_sent self w messages :
  let request := mkRequest messages (Some (available_tools self)) in
  ∃ w' messages' attempt more,
    function_calling self w messages = (w', request :: more, messages', attempt)
    ∧ (length more ≤ 1)%nat
    ∧ Forall (λ r, req_tools r = None) more.
Proof.
  intros request. unfold function_calling. fold request.
  destruct (create w request) as [w1 [message|e]];
    [|eexists _, _, _, []; sent_ok].
  destruct (tool_calls message) as [|call calls].
  - destruct (content message) as [c|]; [|eexists _, _, _, []; sent_ok].
    destruct (_process_text_tool_calls self w1 (strip c)) as [w2 result].
    eexists _, _, _, []. sent_ok.
  - destruct (for_each _ _ _) as [w2 [tool_results|e]];
      [|eexists _, _, _, []; sent_ok].
    destruct (create w2 _) as [w3 [final|e]].
    + destruct (content final); eexists _, _, _, [_]; sent_ok.
    + eexists _, _, _, [_]. sent_ok.
Qed.

(** Outside mock mode [chat] begins with the first request. *)
Lemma chat_sends_first self w prompt system_prompt :
  mock_mode self = false →
  provider self = "openai" →
  ∃ w' more outcome,
    chat self w prompt system_prompt
    = (w', first_request self prompt system_prompt :: more, outcome)
    ∧ (length more ≤ 2)%nat
    ∧ Forall (λ r, req_tools r = None) more
    ∧ (available_tools self = [] → more = [])
    ∧ outcome ≠ Return None.
Proof.
  intros Hmock Hprov. unfold chat, chat_body, first_request. fold (user_messages self prompt system_prompt).
  rewrite Hmock, Hprov, String.eqb_refl.
  set (messages := user_messages self prompt system_prompt).
  destruct (bool_decide (available_tools self = [])) eqn:Hnone.
  - destruct (plain_chat_sent self w [] messages) as (w' & outcome & -> & Hout).
    eexists w', [], _. split; [done|]. split; [simpl; lia|].
    split; [done|]. split; [done|].
    destruct outcome as [[text|]|e]; simpl; [done|done|by destruct (is_exception e)].
  - apply bool_decide_eq_false in Hnone.
    destruct (function_calling_sent self w messages)
      as (w1 & messages' & attempt & more & -> & Hlen & Hno).
    destruct attempt as [result|e].
    + eexists _, _, _. split; [done|]. split; [lia|]. by repeat split.
    + destruct (is_exception e) eqn:He.
      * destruct (plain_chat_sent self w1
                    (mkRequest messages (Some (available_tools self)) :: more) messages')
          as (w' & outcome & -> & Hout).
        eexists _, _, _. split; [done|].
        split; [rewrite length_app; simpl; lia|].
        split; [apply Forall_app; split; [done|by repeat constructor]|].
        split; [done|].
        destruct outcome as [[text|]|e']; simpl; [done|done|by destruct (is_exception e')].
      * eexists _, _, _. split; [done|]. split; [lia|]. split; [done|].
        split; [done|]. simpl. by rewrite He.
Qed.


(** *** More of [chat] *)

(** [is_available]: the probe request sent outside mock mode. *)
Definition PROBE_PROMPT : string := "Hello".
Definition PROBE_SYSTEM : string :=
  "You are a helpful assistant. Please respond with 'OK'.".

Definition is_available (self : AIClient) (w : World) : World * list Request * PyResult bool :=
  if mock_mode self then (w, [], Return true)
  else
    let '(w', sent, outcome) := chat self w PROBE_PROMPT (Some PROBE_SYSTEM) in
    (w', sent,
     except_Exception
       (test_response ← outcome;
        Return match test_response with
               | Some text =>
                   truthy text && negb (contains "⚠️" text)
                   && (0 <? String.length (strip text))%nat
               | None => false
               end)
       (λ e, Return false)).

(** [generate_content]: the context, a list of keys and rendered
    values in the order of the dict, is put before the prompt. *)
Definition context_line (kv : string * string) : string := kv.1 ++ ": " ++ kv.2.

Definition generate_content (self : AIClient) (w : World) (prompt : string)
    (context : option (list (string * string)))
    : World * list Request * PyResult (option string) :=
  let full_prompt :=
    match context with
    | Some (kv :: rest) =>
        join nl (context_line <$> kv :: rest) ++ nl ++ nl ++ prompt
    | _ => prompt
    end in
  chat self w full_prompt None.

(** A client that [__init__] has built gets a text from [chat], never
    [None], unless an exception that is not an [Exception] is raised
    by the service or by a tool, which [chat] lets through.  At most
    three requests are sent, of which only the first may carry the tool
    list; in mock mode nothing is sent, and a client without a server
    sends exactly one request. *)
Theorem chat_returns_text (config : Config) (server : option MCPServer)
    (self : AIClient) (w : World) (prompt : string) (system_prompt : option string) :
  __init__ config server = Return self →
  ∃ w' sent outcome,
    chat self w prompt system_prompt = (w', sent, outcome)
    ∧ match outcome with
      | Return (Some text) => True
      | Return None => False
      | Raise e => is_exception e = false
      end
    ∧ (length sent ≤ 3)%nat
    ∧ Forall (λ r, req_tools r = None) (tail sent)
    ∧ (mock_mode self = true → sent = [])
    ∧ (mock_mode self = false → server = None → length sent = 1%nat).
Proof.
  intros Hinit. destruct (init_tools _ _ _ Hinit) as [_ Htools].
  destruct (mock_mode self) eqn:Hmock.
  { unfold chat. rewrite Hmock. eexists w, [], _. split; [done|].
    split; [done|]. split; [simpl; lia|]. by repeat split. }
  destruct (init_provider _ _ _ Hinit) as [|Hprov]; [congruence|].
  destruct (chat_sends_first self w prompt system_prompt Hmock Hprov)
    as (w' & more & outcome & Hchat & Hlen & Hno & Hone & Hout).
  exists w', (first_request self prompt system_prompt :: more), outcome.
  split; [done|]. split.
  { destruct outcome as [[text|]|e]; [done|done|]. by eapply chat_escape. }
  split; [simpl; lia|]. split; [done|]. split; [done|].
  intros _ ->. rewrite Hone; [done|]. by rewrite Htools.
Qed.





Lemma error_text_warning self e : contains "⚠️" (error_text self e) = true.
Proof. unfold error_text. by repeat destruct (_ || _). Qed.

(** In mock mode the client reports itself available without sending
    anything; outside mock mode, when every request to the service
    raises an [Exception], it reports itself unavailable; and when the
    service raises another exception, [is_available] raises it. *)
Theorem is_available_unreachable (self : AIClient) (w : World) :
  (mock_mode self = true → is_available self w = (w, [], Return true))
  ∧ (mock_mode self = false →
     (∀ w0 request, ∃ w1 e,
        create w0 request = (w1, Raise e) ∧ is_exception e = true) →
     (is_available self w).2 = Return false)
  ∧ (mock_mode self = false →
     provider self = "openai" →
     ∀ w1 e,
       create w (first_request self PROBE_PROMPT (Some PROBE_SYSTEM)) = (w1, Raise e) →
       is_exception e = false →
       is_available self w
       = (w1, [first_request self PROBE_PROMPT (Some PROBE_SYSTEM)], Raise e)).
Proof.
  split; [|split]; intros Hmock; unfold is_available; rewrite Hmock; [done| |].
  - intros Hdown. unfold chat, chat_body. rewrite Hmock.
    destruct (String.eqb (provider self) "openai"); [|done].
    set (messages := user_messages self PROBE_PROMPT (Some PROBE_SYSTEM)).
    assert (Hplain : ∀ w0 sent ms, ∃ w' e,
               plain_chat self w0 sent ms
               = (w', (sent ++ [mkRequest ms None])%list, Raise e)
               ∧ is_exception e = true).
    { intros w0 sent ms. unfold plain_chat.
      destruct (Hdown w0 (mkRequest ms None)) as (w1' & e & -> & He). eauto. }
    destruct (bool_decide (available_tools self = [])).
    + destruct (Hplain w [] messages) as (w' & e & -> & He). simpl. rewrite He. simpl.
      by rewrite error_text_warning, andb_false_r.
    + unfold function_calling.
      destruct (Hdown w (mkRequest messages (Some (available_tools self))))
        as (w1' & e & -> & He). rewrite He.
      destruct (Hplain w1' [mkRequest messages (Some (available_tools self))] messages)
        as (w' & e' & -> & He'). simpl. rewrite He'. simpl.
      by rewrite error_text_warning, andb_false_r.
  - intros Hprov w1 e Hcreate He. unfold chat, chat_body. rewrite Hmock, Hprov, String.eqb_refl.
    unfold first_request in *.
    destruct (bool_decide (available_tools self = [])).
    + unfold plain_chat. rewrite Hcreate. simpl. rewrite He. simpl. by rewrite He.
    + unfold function_calling. rewrite Hcreate, He. simpl. rewrite He. simpl.
      by rewrite He.
Qed.

(** *** The call extractor in general *)

(** What is put after the text: each block on a line of its own. *)
Fixpoint appended (blocks : list string) : string :=
  match blocks with
  | [] => ""
  | b :: rest => nl ++ b ++ appended rest
  end.

(** The calls run in order by the dispatcher, up to the first that
    raises. *)
Fixpoint dispatch (self : AIClient) (w : World)
    (calls : list (string * gmap string string)) : World * PyResult (list string) :=
  match calls with
  | [] => (w, Return [])
  | (tool_name, arguments) :: rest =>
      match _call_mcp_tool self w tool_name (ArgsDict (VStr <$> arguments)) with
      | (w1, Return tool_result) =>
          let '(w2, outcome) := dispatch self w1 rest in
          (w2, tool_results ← outcome; Return (tool_result :: tool_results))
      | (w1, Raise e) => (w1, Raise e)
      end
  end.

Lemma join_appended text (blocks : list string) :
  join nl (text :: blocks) = text ++ appended blocks.
Proof.
  revert text. induction blocks as [|b blocks IH]; intros text.
  - simpl. by rewrite append_nil_r.
  - change (join nl (text :: b :: blocks)) with (text ++ nl ++ join nl (b :: blocks)).
    by rewrite IH.
Qed.

Definition result_blocks (calls : list (string * gmap string string))
    (tool_results : list string) : list string :=
  zip_with (λ call r, result_block call.1 r) calls tool_results.

Lemma process_matches self (matches : list (string * string)) w parts :
  for_each (process_match self) (w, parts) matches
  = let '(w', outcome) :=
      dispatch self w ((λ m, (m.1, parse_arguments m.2)) <$> matches) in
    (w', tool_results ← outcome;
         Return (parts ++ result_blocks ((λ m, (m.1, parse_arguments m.2)) <$> matches)
                            tool_results)%list).
Proof.
  revert w parts. induction matches as [|[name args] matches IH]; intros w parts.
  - simpl. by rewrite app_nil_r.
  - cbn [for_each process_match fmap list_fmap dispatch fst snd].
    destruct (_call_mcp_tool self w name _) as [w1 [r|e]]; [|done].
    cbn. rewrite IH.
    destruct (dispatch self w1 _) as [w2 [rs|e]]; [|done].
    cbn. by rewrite <-app_assoc.
Qed.

(** The extractor never changes the text of the reply: it runs the
    detected calls in order through the dispatcher and returns the
    text followed by one result block for each call, in the order of
    the calls; an exception that the dispatcher lets through ends the
    loop and leaves the extractor. *)
Theorem process_text_appends (self : AIClient) (w : World) (text : string) :
  _process_text_tool_calls self w text
  = let '(w', outcome) := dispatch self w (detected_calls self text) in
    (w', tool_results ← outcome;
         Return (text ++ appended (result_blocks (detected_calls self text) tool_results))).
Proof.
  unfold _process_text_tool_calls, detected_calls.
  destruct (_ || _).
  { simpl. by rewrite append_nil_r. }
  destruct (findall text) as [|m matches] eqn:Hfind.
  { simpl. by rewrite append_nil_r. }
  rewrite process_matches.
  destruct (dispatch self w _) as [w' [rs|e]]; [|done].
  cbn -[join]. by rewrite join_appended.
Qed.

(** *** The dispatcher and the declared arguments *)

Lemma required_cases name required :
  (name, required) ∈ MCP_TOOL_REQUIRED →
  (name = "read_file" ∧ required = ["path"])
  ∨ (name = "write_file" ∧ required = ["path"; "content"])
  ∨ (name = "list_files" ∧ required = ["directory"])
  ∨ (name = "get_section_structure" ∧ required = [])
  ∨ (name = "generate_outline" ∧ required = ["requirements"; "tender_type"])
  ∨ (name = "generate_subsection_content"
     ∧ required = ["section"; "subsection"; "requirements"])
  ∨ (name = "one_click_docx_export" ∧ required = []).
Proof.
  unfold MCP_TOOL_REQUIRED. intros Hin.
  repeat (apply elem_of_cons in Hin as [[= -> ->]|Hin]; [tauto|]).
  by apply elem_of_nil in Hin.
Qed.

Ltac read_keys H :=
  repeat match goal with
         | |- context [?d !! ?k] =>
             lazymatch goal with
             | Hk : d !! k = _ |- _ => fail
             | _ => idtac
             end;
             let Hk := fresh "Hk" in
             assert (Hk := H k ltac:(elem_of_list)); rewrite Hk
         end.

Ltac missing_key :=
  let k0 := fresh "k" in
  let Hk0 := fresh "Hk" in
  let Hnone := fresh "Hnone" in
  intros (k0 & Hk0 & Hnone);
  repeat match goal with
         | |- context [?d !! ?k] =>
             let Hlook := fresh "Hlook" in
             destruct (d !! k) eqn:Hlook;
             [|exists k; split; [elem_of_list|split; [done|reflexivity]]]
         end;
  exfalso;
  repeat (apply elem_of_cons in Hk0 as [->|Hk0]; [congruence|]);
  by apply elem_of_nil in Hk0.

(** The dispatcher and the tool list agree on the arguments: a tool
    reads exactly the keys declared as required, so other keys never
    matter; and when a required key is missing the tool is not run (the
    world is as before) and the answer names a missing key. *)
Theorem dispatcher_reads_required (self : AIClient) (srv : MCPServer) (w : World)
    (name : string) (required : list string) (d : gmap string Value) :
  mcp_server self = Some srv →
  (name, required) ∈ MCP_TOOL_REQUIRED →
  (∀ d' : gmap string Value,
     (∀ k, k ∈ required → d' !! k = d !! k) →
     _call_mcp_tool self w name (ArgsDict d') = _call_mcp_tool self w name (ArgsDict d))
  ∧ ((∃ k, k ∈ required ∧ d !! k = None) →
     ∃ k, k ∈ required ∧ d !! k = None
       ∧ _call_mcp_tool self w name (ArgsDict d)
         = (w, Return ("工具调用失败: '" ++ k ++ "'"))).
Proof.
  intros Hsrv Hin. unfold _call_mcp_tool. rewrite Hsrv.
  apply required_cases in Hin.
  destruct Hin as [[-> ->]|[[-> ->]|[[-> ->]|[[-> ->]|[[-> ->]|[[-> ->]|[-> ->]]]]]]];
    unfold invoke; simpl (String.eqb _ _); unfold with_arg, getitem; split.
  all: try (intros d' H; by read_keys H).
  all: missing_key.
Qed.
End client.

(** *** The argument parsing rule *)

(** The rule in the words of the specification: one layer of matching
    quote characters is stripped from the key and from the value. *)
Fixpoint last_char (s : string) : option ascii :=
  match s with
  | String c EmptyString => Some c
  | String _ s' => last_char s'
  | EmptyString => None
  end.

Fixpoint remove_last (s : string) : string :=
  match s with
  | String _ EmptyString => EmptyString
  | String c s' => String c (remove_last s')
  | EmptyString => EmptyString
  end.

Definition strip_one_layer (s : string) : string :=
  match s with
  | String c s' =>
      if is_quote c && bool_decide (last_char s' = Some c) then remove_last s' else s
  | EmptyString => EmptyString
  end.

Definition rule_segment (arguments : gmap string string) (arg : string)
    : gmap string string :=
  if contains_char "=" arg then
    let '(key, value) := split_once "=" arg in
    <[strip_one_layer (strip key) := strip_one_layer (strip value)]> arguments
  else arguments.

Definition rule_parse_arguments (args_str : string) : gmap string string :=
  foldl rule_segment ∅ (split_on "," args_str).

Lemma parse_segment_dropped arguments arg :
  contains_char "=" arg = false → parse_segment arguments arg = arguments.
Proof. intros H. unfold parse_segment. by rewrite H. Qed.

Lemma parse_segments_dropped arguments (segments : list string) :
  Forall (λ arg, contains_char "=" arg = false) segments →
  foldl parse_segment arguments segments = arguments.
Proof.
  induction 1 as [|arg segments Harg _ IH]; [done|].
  simpl. by rewrite parse_segment_dropped.
Qed.

(** The test [if args_str.strip()] changes nothing: a blank text has no
    segment with an equals sign. *)
Lemma parse_arguments_fold args_str :
  parse_arguments args_str = foldl parse_segment ∅ (split_on "," args_str).
Proof.
  unfold parse_arguments. destruct (String.eqb_spec (strip args_str) "") as [Hblank|]; [|done].
  symmetry. apply parse_segments_dropped, split_on_no_char.
  apply (all_class_no_char isspace); [done|done|]. by apply strip_nil.
Qed.

(** C7 (as amended).  The text between the parentheses is split at
    every comma; a segment without an equals sign is dropped and the
    others go on; a segment with one is split at the first; from the
    key and from the value the surrounding white space is stripped, and
    then every quote character at either end, of either kind and in any
    number. *)
Theorem parse_arguments_rule (args_str : string) :
  parse_arguments args_str = foldl parse_segment ∅ (split_on "," args_str)
  ∧ join "," (split_on "," args_str) = args_str
  ∧ Forall (λ arg, contains_char "," arg = false) (split_on "," args_str)
  ∧ (∀ arguments arg,
       contains_char "=" arg = false → parse_segment arguments arg = arguments)
  ∧ (∀ arguments key value,
       contains_char "=" key = false →
       parse_segment arguments (key ++ "=" ++ value)
       = <[strip_quotes (strip key) := strip_quotes (strip value)]> arguments)
  ∧ (∀ s, ∃ l r, s = l ++ strip s ++ r
       ∧ all_class isspace l = true ∧ all_class isspace r = true
       ∧ starts_class isspace (strip s) = false
       ∧ ends_class isspace (strip s) = false)
  ∧ (∀ s, ∃ l r, s = l ++ strip_quotes s ++ r
       ∧ all_chars is_quote l = true ∧ all_chars is_quote r = true
       ∧ starts_in is_quote (strip_quotes s) = false
       ∧ ends_in is_quote (strip_quotes s) = false).
Proof.
  split; [apply parse_arguments_fold|].
  split; [apply (split_on_join ","%char)|].
  split; [apply split_on_pieces|].
  split; [apply parse_segment_dropped|].
  split; [|split; intros s; [apply strip_spec|apply strip_with_spec]].
  intros arguments key value Hkey. unfold parse_segment.
  destruct (split_once_first "="%char key value Hkey) as [Hsplit Hhas].
  change (key ++ "=" ++ value) with (key ++ String "="%char value).
  by rewrite Hhas, Hsplit.
Qed.

(** The ideographic space, U+3000. *)
Definition IDEOGRAPHIC_SPACE : string :=
  String (ascii_of_nat 227) (String (ascii_of_nat 128) (String (ascii_of_nat 128) "")).

Lemma parse_arguments_rule_witness :
  parse_segment ∅ (" b" ++ "=" ++ dq ++ "2" ++ dq) = <["b" := "2"]> ∅
  ∧ parse_segment ∅ ("a" ++ "=" ++ IDEOGRAPHIC_SPACE ++ "x" ++ IDEOGRAPHIC_SPACE)
    = <["a" := "x"]> ∅
  ∧ parse_segment ∅ "verbose" = ∅.
Proof.
  pose proof (parse_arguments_rule "") as (_ & _ & _ & Hdrop & Hsplit & _).
  split; [|split].
  - rewrite (Hsplit ∅ " b" (dq ++ "2" ++ dq) eq_refl). reflexivity.
  - rewrite (Hsplit ∅ "a" (IDEOGRAPHIC_SPACE ++ "x" ++ IDEOGRAPHIC_SPACE) eq_refl).
    reflexivity.
  - apply Hdrop. reflexivity.
Defined.

(** C7, as stated, fails: two layers of quotes are both stripped, and
    so are quotes that do not match, where the rule of one layer of
    matching quotes would leave them. *)
Lemma parse_arguments_rule_counterexample :
  parse_arguments "a=''x''" = {[ "a" := "x" ]}
  ∧ rule_parse_arguments "a=''x''" = {[ "a" := "'x'" ]}
  ∧ parse_arguments "a=''x''" ≠ rule_parse_arguments "a=''x''"
  ∧ parse_arguments ("k=" ++ dq ++ "v'") = {[ "k" := "v" ]}
  ∧ rule_parse_arguments ("k=" ++ dq ++ "v'") = {[ "k" := dq ++ "v'" ]}.
Proof.
  split; [by vm_compute|]. split; [by vm_compute|].
  split; [|split; by vm_compute].
  intros Heq. apply (f_equal (λ m : gmap string string, m !! "a")) in Heq.
  vm_compute in Heq. discriminate Heq.
Qed.

(** *** A concrete setting

    The world is the set of files, values are strings, and the
    completion service answers with a fixed message.  The examples use
    the fragment [sample] of the Unicode database. *)

#[local] Existing Instance sample.

Definition demo_server : MCPServer (World := gmap string string) (Value := string) :=
  {| read_file := λ w path,
       match w !! path with
       | Some text => (w, Return text)
       | None => (w, Raise (mkExn "FileNotFoundError" ("no such file: " ++ path)))
       end;
     write_file := λ w path text, (<[path := text]> w, Return "True");
     list_files := λ w directory, (w, Return "[]");
     get_section_structure := λ w, (w, Return "{}");
     generate_outline := λ w requirements tender_type, (w, Return "outline");
     generate_subsection_content := λ w section subsection requirements,
       (w, Return "text");
     one_click_docx_export := λ w, (w, Raise (mkExn "RuntimeError" "no project")) |}.

(** [KeyboardInterrupt] derives from [BaseException] only. *)
Definition INTERRUPT : Exn := mkExc "KeyboardInterrupt" "" false.

(** A server on which listing a directory is interrupted. *)
Definition interrupted_server : MCPServer (World := gmap string string) (Value := string) :=
  {| read_file := read_file demo_server;
     write_file := write_file demo_server;
     list_files := λ w directory, (w, Raise INTERRUPT);
     get_section_structure := get_section_structure demo_server;
     generate_outline := generate_outline demo_server;
     generate_subsection_content := generate_subsection_content demo_server;
     one_click_docx_export := one_click_docx_export demo_server |}.

Definition keyed_config : Config := mkConfig None (Some " sk-test ") None.

(** [AIClient(config, mcp_server=server)] and [AIClient(config)] *)
Definition with_server : AIClient :=
  {| provider := "openai"; api_key := "sk-test"; base_url := "";
     mock_mode := false; mcp_server := Some demo_server;
     available_tools := MCP_TOOLS |}.

Definition without_server : AIClient (World := gmap string string) (Value := string) :=
  {| provider := "openai"; api_key := "sk-test"; base_url := "";
     mock_mode := false; mcp_server := None; available_tools := [] |}.

Definition interrupted : AIClient :=
  {| provider := "openai"; api_key := "sk-test"; base_url := "";
     mock_mode := false; mcp_server := Some interrupted_server;
     available_tools := MCP_TOOLS |}.

Lemma with_server_init : __init__ keyed_config (Some demo_server) = Return with_server.
Proof. reflexivity. Qed.

Lemma without_server_init : __init__ keyed_config None = Return without_server.
Proof. reflexivity. Qed.

Definition no_json (text : string) : option (Args (Value := string)) := None.

(** A service that answers every request with the same message. *)
Definition answers (message : Completion) (w : gmap string string) (request : Request)
    : gmap string string * PyResult Completion :=
  (w, Return message).

Lemma call_mcp_tool_never_raises_witness :
  _call_mcp_tool Return with_server ∅ "delete_everything" (ArgsDict ∅)
    = (∅, Return "未知的工具: delete_everything")
  ∧ _call_mcp_tool Return with_server ∅ "read_file" (ArgsDict {[ "path" := "a.md" ]})
    = (∅, Return "工具调用失败: no such file: a.md")
  ∧ _call_mcp_tool Return with_server {[ "a.md" := "hi" ]} "read_file"
      (ArgsDict {[ "path" := "a.md" ]})
    = ({[ "a.md" := "hi" ]}, Return "hi").
Proof.
  pose proof (call_mcp_tool_never_raises Return with_server ∅ "delete_everything"
                (ArgsDict ∅)) as (_ & Hunknown & _).
  pose proof (call_mcp_tool_never_raises Return with_server ∅ "read_file"
                (ArgsDict {[ "path" := "a.md" ]})) as (_ & _ & Hraise).
  pose proof (call_mcp_tool_never_raises Return with_server {[ "a.md" := "hi" ]}
                "read_file" (ArgsDict {[ "path" := "a.md" ]})) as (_ & _ & Hreturn).
  split; [|split].
  - apply Hunknown. by apply (bool_decide_unpack _).
  - exact (Hraise {[ "path" := "a.md" ]} ∅
             (Raise (mkExn "FileNotFoundError" "no such file: a.md")) eq_refl
             (cap_read_file demo_server ∅ {[ "path" := "a.md" ]} "a.md" eq_refl)).
  - exact (Hreturn {[ "path" := "a.md" ]} {[ "a.md" := "hi" ]} (Return "hi") eq_refl
             (cap_read_file demo_server {[ "a.md" := "hi" ]} {[ "path" := "a.md" ]}
                "a.md" eq_refl)).
Defined.

(** C2, as stated, fails: a client built without a server answers
    that the server is not initialised, not that the tool is unknown;
    and an exception that is not an [Exception], here the
    [KeyboardInterrupt] raised while a tool runs, is not caught at the
    dispatcher. *)
Lemma call_mcp_tool_never_raises_counterexample :
  _call_mcp_tool Return without_server ∅ "delete_everything" (ArgsDict ∅)
    = (∅, Return "MCP服务器未初始化")
  ∧ _call_mcp_tool Return without_server ∅ "delete_everything" (ArgsDict ∅)
    ≠ (∅, Return "未知的工具: delete_everything")
  ∧ _call_mcp_tool Return interrupted ∅ "list_files" (ArgsDict {[ "directory" := "." ]})
    = (∅, Raise INTERRUPT).
Proof. split; [reflexivity|]. split; [|reflexivity]. intros [= H]. Qed.

Lemma extract_single_call_witness :
  let text := "I will look. " ++ CALL ++ " Then I go on." in
  detected_calls with_server text = [("f", <["b" := "2"]> (<["a" := "1"]> ∅))]
  ∧ _process_text_tool_calls id Return with_server ∅ text
    = (∅, Return (text ++ nl ++ nl ++ nl ++ "**f 执行结果：**" ++ nl ++ "未知的工具: f")).
Proof.
  pose proof (extract_single_call id Return with_server ∅
                "I will look. " " Then I go on." eq_refl eq_refl)
    as (_ & _ & Htools & _).
  destruct Htools as [Hcalls Hout]; [done|].
  split; [exact Hcalls|exact Hout].
Defined.

(** C5, as stated, fails: a client without tools dispatches no call
    and returns the text as it is. *)
Lemma extract_single_call_counterexample :
  detected_calls without_server CALL = []
  ∧ detected_calls without_server CALL ≠ [("f", <["b" := "2"]> (<["a" := "1"]> ∅))]
  ∧ _process_text_tool_calls id Return without_server ∅ CALL = (∅, Return CALL).
Proof. split; [reflexivity|]. split; [discriminate|reflexivity]. Qed.

Definition greeting : Completion := mkCompletion (Some "Hello.") [].
Definition padded_greeting : Completion := mkCompletion (Some (" Hello." ++ nl)) [].
Definition no_text : Completion := mkCompletion None [].

Lemma chat_without_calls_witness :
  chat id Return no_json (answers greeting) with_server ∅ "Hi" None
  = (∅, [first_request with_server "Hi" None], Return (Some "Hello.")).
Proof.
  apply (chat_without_calls id Return no_json (answers greeting) with_server ∅ ∅
           "Hi" None greeting); reflexivity.
Defined.

(** C6, as stated, fails: the reply is returned stripped, not
    character for character; and after a reply without text and
    without calls a client with tools makes a second round trip. *)
Lemma chat_without_calls_counterexample :
  (let '(_, sent, output) :=
     chat id Return no_json (answers padded_greeting) with_server ∅ "Hi" None in
   length sent = 1%nat
   ∧ output = Return (Some "Hello.")
   ∧ output ≠ Return (content padded_greeting))
  ∧ (let '(_, sent, output) :=
       chat id Return no_json (answers no_text) with_server ∅ "Hi" None in
     length sent = 2%nat).
Proof. vm_compute. split; [|done]. split; [done|]. split; [done|]. discriminate. Qed.


(** *** More of the concrete setting *)





(** A service that cannot be reached. *)
Definition no_service (w : gmap string string) (request : Request)
    : gmap string string * PyResult Completion :=
  (w, Raise (mkExn "APIConnectionError" "Connection error.")).

Lemma chat_returns_text_witness :
  ∃ w' sent text,
    chat id Return no_json no_service with_server ∅ "Hi" None
    = (w', sent, Return (Some text))
    ∧ (length sent ≤ 3)%nat.
Proof.
  destruct (chat_returns_text id Return no_json no_service keyed_config
              (Some demo_server) with_server ∅ "Hi" None with_server_init)
    as (w' & sent & outcome & Hchat & Hout & Hlen & _).
  exists w', sent. rewrite Hchat. vm_compute in Hchat.
  injection Hchat as <- <- <-. eexists. split; [reflexivity|simpl; lia].
Defined.


Lemma is_available_unreachable_witness :
  (is_available id Return no_json no_service with_server ∅).2 = Return false.
Proof.
  apply (proj1 (proj2 (is_available_unreachable id Return no_json no_service
                         with_server ∅)));
    [reflexivity|].
  intros w0 request. by eexists _, _.
Defined.

Lemma process_text_appends_witness :
  let text := "I will look. " ++ CALL ++ " Then I go on." in
  _process_text_tool_calls id Return with_server ∅ text
  = (∅, Return (text ++ nl ++ nl ++ nl ++ "**f 执行结果：**" ++ nl ++ "未知的工具: f")).
Proof.
  intros text. rewrite (process_text_appends id Return with_server ∅ text).
  reflexivity.
Defined.

Lemma dispatcher_reads_required_witness :
  _call_mcp_tool Return with_server ∅ "write_file" (ArgsDict {[ "path" := "a.md" ]})
  = (∅, Return "工具调用失败: 'content'").
Proof.
  destruct (dispatcher_reads_required Return with_server demo_server ∅ "write_file"
              ["path"; "content"] {[ "path" := "a.md" ]} eq_refl ltac:(elem_of_list))
    as [_ Hmissing].
  destruct Hmissing as (k & Hk & Hnone & Hcall).
  - exists "content". split; [elem_of_list|reflexivity].
  - apply elem_of_cons in Hk as [->|Hk]; [discriminate Hnone|].
    apply list_elem_of_singleton in Hk as ->. exact Hcall.
Defined.
End Client.

(** ** The agent's textual tool calls

    [MCPAgent._process_text_tool_calls]
    (src/tender_cli/mcp_tools/mcp_agent.py): the fallback that runs the
    calls an answer spells out and puts their results in their place. *)

Module Agent.
Import PyStr.

Section agent.
(** The Unicode database of the interpreter. *)
Context {unicode : Unicode}.
(** The projects and files the tools act on. *)
Context {World : Type}.
(** [_call_tool_directly]: each of its branches returns a text, and
    its handler [except Exception] turns an [Exception] into one;
    another exception leaves it.  Which text, and what the call does
    to the projects and files, is not constrained here. *)
Context (_call_tool_directly : World → string → gmap string string
                               → World * PyResult string).

(** [f"TOOL_CALL: {tool_name}({args_str})"] *)
Definition tool_call_text (tool_name args_str : string) : string :=
  "TOOL_CALL: " ++ tool_name ++ "(" ++ args_str ++ ")".

(** The text put in the place of a call. *)
Definition result_text (tool_name tool_result : string) : string :=
  nl ++ nl ++ "**" ++ tool_name ++ " 执行结果：**" ++ nl ++ tool_result.

(** One iteration of the loop over [matches]. *)
Definition process_match (acc : World * string) (m : string * string)
    : World * PyResult string :=
  let '(w, text) := acc in
  let '(tool_name, args_str) := m in
  let arguments := Client.parse_arguments args_str in
  let '(w', outcome) := _call_tool_directly w tool_name arguments in
  (w', tool_result ← outcome;
       Return (replace (tool_call_text tool_name args_str)
                 (result_text tool_name tool_result) text)).

Definition _process_text_tool_calls (w : World) (text : string) : World * PyResult string :=
  if negb (contains MARKER text) then (w, Return text)
  else
    match findall text with
    | [] => (w, Return text)
    | matches => for_each process_match (w, text) matches
    end.

Lemma starts_with_split p s : starts_with p s = true → ∃ u, s = p ++ u.
Proof.
  revert s. induction p as [|a p IH]; intros s; [by exists s|].
  destruct s as [|b s]; [done|]. cbn [starts_with].
  intros [Hab Hp]%andb_true_iff. apply Ascii.eqb_eq in Hab as ->.
  destruct (IH s Hp) as (u & ->). by exists u.
Qed.

Lemma word_not_blank name rest (tail : string) :
  all_class isword name = true → name ≠ "" →
  name ++ rest ≠ String " " tail.
Proof.
  intros Hname Hne Heq.
  destruct (word_first name Hname Hne) as (cp & len & Hd & Hcp).
  apply (decode_app name rest) in Hd. rewrite Heq in Hd.
  change (decode (String " " tail)) with (Some (32%N, 1%nat)) in Hd.
  injection Hd as <- <-. by rewrite isword_ascii in Hcp.
Qed.

Lemma word_not_space_text name rest ws (tail : string) :
  all_class isword name = true → name ≠ "" →
  all_class isspace ws = true → ws ≠ "" →
  ws ++ tail ≠ name ++ rest.
Proof.
  intros Hname Hne Hws Hblank Heq.
  destruct (word_first name Hname Hne) as (cp & len & Hd & Hcp).
  apply (all_class_starts _ _ Hws), starts_class_true in Hblank
    as (cp' & len' & Hd' & Hcp').
  apply (decode_app name rest) in Hd. apply (decode_app ws tail) in Hd'.
  rewrite Heq, Hd in Hd'. injection Hd' as <- <-.
  apply isword_not_space in Hcp. congruence.
Qed.

(** The text looked for begins with the marker and one space; after
    the marker the call has the white space [ws]. *)
Lemma call_text_found ws name tail rest :
  all_class isspace ws = true →
  all_class isword name = true → name ≠ "" →
  starts_with (" " ++ name ++ tail) (ws ++ name ++ rest) = true → ws = " ".
Proof.
  intros Hws Hname Hne (u & Heq)%starts_with_split.
  rewrite !append_assoc in Heq.
  destruct ws as [|x ws].
  - exfalso. by apply (word_not_blank name rest (name ++ tail ++ u)).
  - change (String x ws ++ ?s) with (String x (ws ++ s)) in Heq.
    change (" " ++ ?s) with (String " " s) in Heq.
    injection Heq as -> Heq.
    destruct (decide (ws = "")) as [->|Hblank]; [done|].
    exfalso. by apply (word_not_space_text name (tail ++ u) ws (name ++ rest)).
Qed.

(** A text with one call spelled out, the marker occurring nowhere
    else: the tool is always run, but its result takes the place of
    the call only when exactly one space follows the colon; written
    with none or with other white space, the call is run and the text
    comes back as it was, without the result.  An exception that the
    tool lets through leaves the extractor. *)
Theorem text_call_replaced (w : World) (pre ws name args post : string) :
  contains MARKER pre = false →
  contains MARKER (ws ++ name ++ "(" ++ args ++ ")" ++ post) = false →
  all_class isspace ws = true →
  all_class isword name = true → name ≠ "" →
  contains_char ")" args = false →
  contains_char (ascii_of_nat 10) args = false →
  let text := pre ++ MARKER ++ ws ++ name ++ "(" ++ args ++ ")" ++ post in
  _process_text_tool_calls w text
  = let '(w', outcome) := _call_tool_directly w name (Client.parse_arguments args) in
    (w', tool_result ← outcome;
         Return (if String.eqb ws " "
                 then pre ++ result_text name tool_result ++ post else text)).
Proof.
  intros Hpre Hrest Hws Hname Hne Hclose Hline text.
  assert (Hpost : contains MARKER post = false).
  { apply (contains_app_r MARKER (ws ++ name ++ "(" ++ args ++ ")")).
    by rewrite !append_assoc. }
  unfold _process_text_tool_calls. subst text.
  rewrite contains_marker. cbn [negb].
  rewrite (findall_call pre ws name args post) by done.
  cbn [for_each process_match].
  destruct (_call_tool_directly w name (Client.parse_arguments args))
    as [w' [tool_result|e]]; [|done].
  cbn [mbind PyResult_bind mret PyResult_ret fst snd]. do 2 f_equal.
  unfold tool_call_text.
  set (new := result_text name tool_result).
  set (tail := " " ++ name ++ "(" ++ args ++ ")").
  assert (Hold : "TOOL_CALL: " ++ name ++ "(" ++ args ++ ")" = MARKER ++ tail) by done.
  rewrite Hold. change MARKER with (String "T" "OOL_CALL:").
  change (replace (String "T" "OOL_CALL:" ++ tail) new ?s)
    with (replace_from 0 (String "T" "OOL_CALL:" ++ tail) new s).
  destruct (String.eqb_spec ws " ") as [->|Hspace].
  - assert (Htext : pre ++ String "T" "OOL_CALL:" ++ " " ++ name ++ "(" ++ args ++ ")" ++ post
                    = pre ++ (String "T" "OOL_CALL:" ++ tail) ++ post).
    { subst tail. by rewrite !append_assoc. }
    rewrite Htext.
    apply (replace_from_single "T" "OOL_CALL:" tail new pre post); [done|done|].
    by apply (contains_prefix MARKER).
  - apply replace_from_none.
    rewrite (contains_single "T" "OOL_CALL:" tail pre); [|done|exact Hpre|exact Hrest].
    destruct (starts_with tail (ws ++ name ++ "(" ++ args ++ ")" ++ post)) eqn:Hfound;
      [|done].
    subst tail. by apply call_text_found in Hfound.
Qed.
End agent.

(** *** A concrete call *)

#[local] Existing Instance sample.

(** A tool that reports what it was asked. *)
Definition echo_tool (w : list string) (tool_name : string) (arguments : gmap string string)
    : list string * PyResult string :=
  (tool_name :: w, Return ("ran " ++ tool_name)).

Lemma text_call_replaced_witness :
  _process_text_tool_calls echo_tool [] ("ok TOOL_CALL:  list_projects() done")
  = (["list_projects"], Return "ok TOOL_CALL:  list_projects() done")
  ∧ _process_text_tool_calls echo_tool []
      ("ok TOOL_CALL:" ++ Client.IDEOGRAPHIC_SPACE ++ "项目() done")
    = (["项目"], Return ("ok TOOL_CALL:" ++ Client.IDEOGRAPHIC_SPACE ++ "项目() done"))
  ∧ _process_text_tool_calls echo_tool [] ("ok TOOL_CALL: list_projects() done")
    = (["list_projects"],
       Return ("ok " ++ result_text "list_projects" "ran list_projects" ++ " done")).
Proof.
  split; [|split].
  - apply (text_call_replaced echo_tool [] "ok " "  " "list_projects" "" " done");
      first [reflexivity|discriminate].
  - apply (text_call_replaced echo_tool [] "ok " Client.IDEOGRAPHIC_SPACE "项目" "" " done");
      first [reflexivity|discriminate].
  - apply (text_call_replaced echo_tool [] "ok " " " "list_projects" "" " done");
      first [reflexivity|discriminate].
Defined.
End Agent.

(** ** The document tools

    [DocumentTools.export_pdf] and [DocumentTools.format_tables]
    (src/tender_cli/mcp_tools/document_tools.py). *)

Module Document.
Import PyStr.

(** [docx_path.replace('.docx', '.pdf')]; no file is read or written. *)
Definition export_pdf (docx_path : string) : string :=
  let pdf_path := replace ".docx" ".pdf" docx_path in
  pdf_path.

(** One line of the Markdown table. *)
Definition table_line (cells : list string) : string :=
  "| " ++ join " | " cells ++ " |".

Definition format_tables (data : list (list string)) : string :=
  match data with
  | [] => ""
  | headers :: rows =>
      let table_lines :=
        ([table_line headers; table_line (replicate (length headers) "---")]
           ++ (table_line <$> rows))%list in
      join nl table_lines
  end.

(** The path returned names a PDF only if the path given has [.docx]
    in it: a path without it comes back unchanged; and the text is
    replaced wherever it stands, not only as the extension. *)
Theorem export_pdf_paths :
  (∀ path, contains ".docx" path = false → export_pdf path = path)
  ∧ (∀ stem rest,
       contains ".docx" stem = false → contains ".docx" rest = false →
       export_pdf (stem ++ ".docx" ++ rest) = stem ++ ".pdf" ++ rest).
Proof.
  split.
  - intros path Hnone. by apply replace_from_none.
  - intros stem rest Hstem Hrest.
    apply (replace_from_single "." "docx" "" ".pdf" stem rest); done.
Qed.

Lemma export_pdf_paths_witness :
  export_pdf "bid.doc" = "bid.doc"
  ∧ export_pdf "out.docx/bid.doc" = "out.pdf/bid.doc".
Proof.
  destruct export_pdf_paths as [Hnone Hone]. split.
  - apply Hnone. reflexivity.
  - apply (Hone "out" "/bid.doc"); reflexivity.
Defined.

(** *** The lines of a table *)

Lemma contains_char_join c sep parts :
  contains_char c sep = false →
  Forall (λ part, contains_char c part = false) parts →
  contains_char c (join sep parts) = false.
Proof.
  intros Hsep. induction parts as [|p parts IH]; [done|].
  intros [Hp Hparts]%Forall_cons. specialize (IH Hparts).
  destruct parts as [|q parts]; [done|].
  change (join sep (p :: q :: parts)) with (p ++ sep ++ join sep (q :: parts)).
  by rewrite !contains_char_app, Hp, Hsep, IH.
Qed.

Lemma split_on_whole sep s : contains_char sep s = false → split_on sep s = [s].
Proof.
  induction s as [|c s IH]; [done|]. cbn [contains_char split_on].
  intros [Hc Hs]%orb_false_iff. rewrite Ascii.eqb_sym, Hc. by rewrite (IH Hs).
Qed.

Lemma split_on_first sep p rest :
  contains_char sep p = false →
  split_on sep (p ++ String sep rest) = p :: split_on sep rest.
Proof.
  induction p as [|c p IH].
  - intros _. cbn. by rewrite Ascii.eqb_refl.
  - cbn [contains_char]. intros [Hc Hp]%orb_false_iff.
    change (String c p ++ ?s) with (String c (p ++ s)). cbn [split_on].
    rewrite Ascii.eqb_sym, Hc. by rewrite (IH Hp).
Qed.

(** Splitting at a separator undoes joining with it, when no part
    holds the separator. *)
Lemma split_on_joined sep parts :
  parts ≠ [] →
  Forall (λ part, contains_char sep part = false) parts →
  split_on sep (join (String sep "") parts) = parts.
Proof.
  induction parts as [|p parts IH]; [done|]. intros _ [Hp Hparts]%Forall_cons.
  destruct parts as [|q parts]; [by apply split_on_whole|].
  change (join (String sep "") (p :: q :: parts))
    with (p ++ String sep (join (String sep "") (q :: parts))).
  rewrite split_on_first by done. by rewrite IH.
Qed.

Lemma table_line_single (cells : list string) :
  Forall (λ cell, contains_char (ascii_of_nat 10) cell = false) cells →
  contains_char (ascii_of_nat 10) (table_line cells) = false.
Proof.
  intros Hcells. unfold table_line.
  rewrite !contains_char_app. rewrite (contains_char_join _ " | " cells) by done.
  done.
Qed.

(** A table whose cells hold no line break is written on one line per
    row and one more for the rule under the header, which has one
    [---] for each header cell: splitting the text into lines gives
    these lines back. *)
Theorem format_tables_lines (headers : list string) (rows : list (list string)) :
  Forall (Forall (λ cell, contains_char (ascii_of_nat 10) cell = false)) (headers :: rows) →
  split_on (ascii_of_nat 10) (format_tables (headers :: rows))
  = table_line headers :: table_line (replicate (length headers) "---")
      :: (table_line <$> rows).
Proof.
  intros [Hheaders Hrows]%Forall_cons. unfold format_tables.
  apply (split_on_joined (ascii_of_nat 10)); [done|].
  repeat constructor.
  - by apply table_line_single.
  - apply table_line_single. by apply Forall_replicate.
  - apply Forall_fmap. eapply Forall_impl; [exact Hrows|].
    intros row Hrow. by apply table_line_single.
Qed.

Lemma format_tables_lines_witness :
  split_on (ascii_of_nat 10) (format_tables [["项目"; "金额"]; ["开发"; "60"]])
  = ["| 项目 | 金额 |"; "| --- | --- |"; "| 开发 | 60 |"].
Proof.
  apply (format_tables_lines ["项目"; "金额"] [["开发"; "60"]]).
  repeat constructor.
Defined.
End Document.

(** ** The content tools

    [ContentTools] (src/tender_cli/mcp_tools/content_tools.py) and the
    batch generation of [MCPServer] that runs it on the thread pool. *)

Module Content.
Import PyStr.

(** One entry of an outline's [sections]; a key of the dict may be
    missing. *)
Record Section := mkSection {
  title : option string;
  subsections : option (list string)
}.

(** The outline dict. *)
Record Outline := mkOutline {
  outline_title : option string;
  sections : option (list Section)
}.

Definition generate_outline (requirements tender_type : string) : Outline :=
  {| outline_title := Some (tender_type ++ "标书大纲");
     sections := Some
       [ mkSection (Some "公司介绍及资质证明")
           (Some ["公司基本情况"; "资质证书"; "技术团队介绍"; "公司业绩"]);
         mkSection (Some "项目需求理解与分析")
           (Some ["招标需求分析"; "技术难点识别"; "解决方案概述"]);
         mkSection (Some "总体技术方案设计")
           (Some ["方案概述"; "核心技术架构"; "技术选型说明"; "安全保障体系"]);
         mkSection (Some "系统架构与技术选型")
           (Some ["系统总体架构"; "数据库设计"; "接口设计"; "性能优化方案"]);
         mkSection (Some "项目实施计划与管理")
           (Some ["项目实施计划"; "项目管理方法"; "质量保证措施"; "风险控制方案"]);
         mkSection (Some "运维服务与技术支持")
           (Some ["运维服务方案"; "技术支持体系"; "培训计划"; "应急响应机制"]);
         mkSection (Some "项目预算与报价分析")
           (Some ["成本构成分析"; "报价明细"; "性价比分析"]) ] |}.

(** The dict [validate_outline] returns. *)
Record Validation := mkValidation {
  valid : bool;
  issues : list string;
  suggestions : list string;
  score : Z
}.

Definition REQUIRED_SECTIONS : list string :=
  ["公司介绍"; "技术方案"; "项目管理"; "预算报价"].

(** [s.get("title", "") for s in outline.get("sections", [])] *)
Definition titles (outline : Outline) : list string :=
  (λ s, default "" (title s)) <$> default [] (sections outline).

(** [any(required in section for section in sections)] *)
Definition mentioned (required : string) (sections : list string) : bool :=
  existsb (contains required) sections.

(** One iteration of the loop over [required_sections]. *)
Definition check_required (sections : list string) (issues : list string)
    (required : string) : list string :=
  let issue := "缺少必要章节: " ++ required in
  if negb (mentioned required sections) then (issues ++ [issue])%list else issues.

Definition validate_outline (outline : Outline) : Validation :=
  let sections_ := titles outline in
  let issues := foldl (check_required sections_) [] REQUIRED_SECTIONS in
  let section_count := length (default [] (sections outline)) in
  let suggestions :=
    if (section_count <? 5)%nat then ["建议增加更多章节以提高标书完整性"]
    else if (10 <? section_count)%nat then ["章节过多，建议合并相关内容"]
    else [] in
  {| valid := (length issues =? 0)%nat;
     issues := issues;
     suggestions := suggestions;
     score := Z.max 0 (100 - Z.of_nat (length issues) * 20
                           - Z.of_nat (length suggestions) * 5) |}.

Definition INNOVATION_KEYWORDS : list string := ["创新"; "特色"; "优势"; "亮点"].

Definition suggest_improvements (outline : Outline) : list string :=
  let sections_ := default [] (sections outline) in
  let suggestions :=
    if (length sections_ <? 6)%nat then ["建议增加'售后服务'章节"] else [] in
  let has_innovation :=
    existsb (λ s, existsb (λ keyword, contains keyword (default "" (title s)))
                    INNOVATION_KEYWORDS) sections_ in
  if negb has_innovation
  then (suggestions ++ ["建议增加技术创新或方案亮点章节"])%list
  else suggestions.

Section subsections.
(** The values of a task dict and their text in an f-string; the
    values are those of a JSON document, whose formatting returns. *)
Context {Value : Type} (fmt : Value → string) (empty_dict : Value).

(** [f"{x}"] where [x] comes from [dict.get] without a default. *)
Definition format_value (x : option Value) : string :=
  match x with
  | Some v => fmt v
  | None => "None"
  end.

Definition generate_subsection_content (section subsection : option Value)
    (requirements : Value) : string :=
  join nl
    [ ("# " ++ format_value subsection);
      "";
      "## 概述";
      ("本节将详细介绍" ++ format_value subsection ++ "的相关内容。");
      "";
      "## 详细方案";
      "根据项目需求，我们制定了以下方案：";
      "";
      "1. **方案要点一**";
      "   - 具体实施措施";
      "   - 预期效果";
      "";
      "2. **方案要点二**";
      "   - 具体实施措施";
      "   - 预期效果";
      "";
      "## 实施计划";
      "- 第一阶段：准备工作";
      "- 第二阶段：具体实施";
      "- 第三阶段：验收交付";
      "";
      "## 质量保证";
      "我们将采用以下措施确保质量：";
      "- 质量控制流程";
      "- 测试验证方法";
      "- 风险防控措施";
      "";
      "---";
      "*本内容由 Tender AI 智能生成*";
      "" ].

(** [MCPServer._generate_subsection_task], as a function of the task
    dict. *)
Definition subsection_of_task (task_info : gmap string Value) : string :=
  let section := task_info !! "section" in
  let subsection := task_info !! "subsection" in
  let requirements := default empty_dict (task_info !! "requirements") in
  generate_subsection_content section subsection requirements.

(** The same call on a worker thread: it returns after the time the
    formatting takes. *)
Context (str : gmap string Value → string) (running_time : gmap string Value → nat).

Definition _generate_subsection_task (task_info : gmap string Value)
    : FanOut.Run (Content := string) :=
  FanOut.Finishes (running_time task_info) (FanOut.Returned (subsection_of_task task_info)).

(** Batch generation never records a failure: every entry of the
    results of a returned report is the success entry holding the
    template filled in for a task of the batch with that key, so all
    results count as successes. *)
Theorem subsections_never_fail (self : FanOut.MCPServer)
    (subsections_list : list (gmap string Value)) (r : FanOut.BatchReport) :
  FanOut.parallel_generate_subsections str self _generate_subsection_task subsections_list
  = Return r →
  (∀ k e, FanOut.results r !! k = Some e →
     ∃ task_info, task_info ∈ subsections_list ∧ str task_info = k
       ∧ e = {| FanOut.success := true;
                FanOut.content := Some (subsection_of_task task_info);
                FanOut.error := None |})
  ∧ FanOut.count_success (FanOut.results r) = size (FanOut.results r).
Proof.
  unfold FanOut.parallel_generate_subsections. intros Hrun.
  assert (Hentry : ∀ k e, FanOut.results r !! k = Some e →
     ∃ task_info, task_info ∈ subsections_list ∧ str task_info = k
       ∧ e = {| FanOut.success := true;
                FanOut.content := Some (subsection_of_task task_info);
                FanOut.error := None |}).
  { intros k e Hlook.
    destruct (FanOut.recorded_outcome str self _ _ r k e Hrun Hlook)
      as (task_info & d & o & Hin & Hk & Hfunc & _ & ->).
    exists task_info. split; [done|]. split; [done|].
    unfold _generate_subsection_task in Hfunc. by injection Hfunc as _ <-. }
  split; [exact Hentry|].
  apply FanOut.count_success_all. intros k e Hlook.
  by destruct (Hentry k e Hlook) as (task_info & _ & _ & ->).
Qed.
End subsections.

(** *** The validator *)

Lemma mentioned_spec (required : string) (outline : Outline) :
  mentioned required (titles outline) = true
  ↔ ∃ s, s ∈ default [] (sections outline)
       ∧ contains required (default "" (title s)) = true.
Proof.
  unfold mentioned, titles. rewrite existsb_exists. split.
  - intros (t & Hin%list_elem_of_In%list_elem_of_fmap & Ht).
    destruct Hin as (s & -> & Hs). by exists s.
  - intros (s & Hs & Ht). exists (default "" (title s)). split; [|done].
    apply list_elem_of_In, list_elem_of_fmap. by exists s.
Qed.

(** The verdict of [validate_outline] on any outline: the outline is
    valid exactly when each of the four required phrases occurs in the
    title of some section; the score is 100 less 20 for each missing
    phrase and 5 for a suggestion, so it lies between 15 and 100 and
    the floor at 0 is never reached; and it is 100 exactly for a valid
    outline of five to ten sections. *)
Theorem validate_outline_score (outline : Outline) :
  let v := validate_outline outline in
  let section_count := length (default [] (sections outline)) in
  (valid v = true ↔ issues v = [])
  ∧ (valid v = true
     ↔ ∀ required, required ∈ REQUIRED_SECTIONS →
         ∃ s, s ∈ default [] (sections outline)
           ∧ contains required (default "" (title s)) = true)
  ∧ (15 ≤ score v ≤ 100)%Z
  ∧ (score v = 100%Z ↔ valid v = true ∧ (5 ≤ section_count ≤ 10)%nat).
Proof.
  intros v section_count.
  pose proof (mentioned_spec "公司介绍" outline) as H1.
  pose proof (mentioned_spec "技术方案" outline) as H2.
  pose proof (mentioned_spec "项目管理" outline) as H3.
  pose proof (mentioned_spec "预算报价" outline) as H4.
  assert (Hreq : (∀ required, required ∈ REQUIRED_SECTIONS →
                    ∃ s, s ∈ default [] (sections outline)
                      ∧ contains required (default "" (title s)) = true)
                 ↔ mentioned "公司介绍" (titles outline) = true
                   ∧ mentioned "技术方案" (titles outline) = true
                   ∧ mentioned "项目管理" (titles outline) = true
                   ∧ mentioned "预算报价" (titles outline) = true).
  { rewrite H1, H2, H3, H4. unfold REQUIRED_SECTIONS. split.
    - intros Hall. repeat split; apply Hall; elem_of_list.
    - intros (Ha & Hb & Hc & Hd) required Hin.
      repeat (apply elem_of_cons in Hin as [->|Hin]; [done|]).
      by apply elem_of_nil in Hin. }
  rewrite Hreq. clear H1 H2 H3 H4 Hreq.
  subst v. unfold validate_outline. cbv zeta.
  cbn [valid issues suggestions score]. fold section_count.
  unfold REQUIRED_SECTIONS. cbn [foldl]. unfold check_required.
  destruct (mentioned "公司介绍" (titles outline)),
           (mentioned "技术方案" (titles outline)),
           (mentioned "项目管理" (titles outline)),
           (mentioned "预算报价" (titles outline));
    cbn [negb app length Nat.eqb];
    destruct (Nat.ltb_spec section_count 5);
    try destruct (Nat.ltb_spec 10 section_count);
    cbn [length].
  all: try (exfalso; lia).
  all: split; [split; [done|intros Heq; first [done|discriminate Heq]]|].
  all: split; [split; [intros Hv; first [done|discriminate Hv]
                      |by intros (? & ? & ? & ?)]|].
  all: split; [lia|].
  all: split; [intros Hs; first [lia|split; [done|lia]]
              |intros [Hv ?]; first [discriminate Hv|lia]].
Qed.

(** The outline the generator builds does not pass the validator: for
    every request it lacks two of the required phrases and scores 60,
    and the only improvement suggested is a chapter on innovation. *)
Theorem generated_outline_rejected (requirements tender_type : string) :
  validate_outline (generate_outline requirements tender_type)
  = {| valid := false;
       issues := ["缺少必要章节: 项目管理"; "缺少必要章节: 预算报价"];
       suggestions := [];
       score := 60 |}
  ∧ suggest_improvements (generate_outline requirements tender_type)
    = ["建议增加技术创新或方案亮点章节"].
Proof. split; reflexivity. Qed.

(** *** A concrete batch *)

(** Two subsections of one chapter; a task is named by its subsection. *)
Definition demo_tasks : list (gmap string string) :=
  [ {[ "section" := "技术方案"; "subsection" := "系统架构" ]};
    {[ "section" := "技术方案"; "subsection" := "接口设计" ]} ].

Definition demo_str (task_info : gmap string string) : string :=
  default "" (task_info !! "subsection").

Lemma subsections_never_fail_witness :
  ∃ r, FanOut.parallel_generate_subsections demo_str FanOut.server
         (_generate_subsection_task id "{}" (λ _, 1%nat)) demo_tasks = Return r
    ∧ (∀ k e, FanOut.results r !! k = Some e →
         ∃ task_info, task_info ∈ demo_tasks ∧ demo_str task_info = k
           ∧ e = {| FanOut.success := true;
                    FanOut.content := Some (subsection_of_task id "{}" task_info);
                    FanOut.error := None |})
    ∧ FanOut.count_success (FanOut.results r) = size (FanOut.results r).
Proof.
  eexists. split; [vm_compute; reflexivity|].
  apply (subsections_never_fail id "{}" demo_str (λ _, 1%nat) FanOut.server demo_tasks).
  vm_compute. reflexivity.
Defined.

Lemma validate_outline_score_example :
  valid (validate_outline (mkOutline None None)) = false
  ∧ score (validate_outline (mkOutline None None)) = 15%Z.
Proof. split; reflexivity. Qed.
End Content.

(** ** The conversation history

    [ConversationManager] (src/tender_cli/core/conversation.py).  The
    clock is an input: [add_message] is given the text of
    [datetime.now().isoformat()]. *)

Module Conversation.
Import PyStr.

(** [l[start:]] for a Python list: a negative [start] counts from the
    end, and both ends are clipped. *)
Definition slice_from {A} (start : Z) (l : list A) : list A :=
  let n := Z.of_nat (length l) in
  let first := if (start <? 0)%Z then Z.max 0 (n + start) else Z.min start n in
  drop (Z.to_nat first) l.

Section conversation.
Context {Value : Type}.

Record Message := mkMessage {
  role : string;
  content : string;
  timestamp : string;
  metadata : gmap string Value
}.

Record ConversationManager := mkManager {
  max_history : Z;
  messages : list Message;
  context : gmap string Value
}.

Definition __init__ (max_history : Z) : ConversationManager :=
  {| max_history := max_history; messages := []; context := ∅ |}.

(** The dict [add_message] builds; [metadata or {}]. *)
Definition new_message (now role content : string)
    (metadata : option (gmap string Value)) : Message :=
  {| role := role; content := content; timestamp := now;
     metadata := default ∅ metadata |}.

Definition add_message (self : ConversationManager) (now role content : string)
    (metadata : option (gmap string Value)) : ConversationManager :=
  let message := new_message now role content metadata in
  let messages := (messages self ++ [message])%list in
  {| max_history := max_history self;
     messages := if (max_history self <? Z.of_nat (length messages))%Z
                 then slice_from (- max_history self) messages
                 else messages;
     context := context self |}.

Definition get_recent_messages (self : ConversationManager) (count : Z) : list Message :=
  slice_from (- count) (messages self).

Definition get_context_for_ai (self : ConversationManager) : string :=
  let recent_messages := get_recent_messages self 5 in
  join nl ((λ msg, role msg ++ ": " ++ content msg) <$> recent_messages).

(** The dict [get_summary] returns. *)
Record Summary := mkSummary {
  total_messages : nat;
  user_messages : nat;
  assistant_messages : nat;
  start_time : option string;
  last_time : option string
}.

Definition get_summary (self : ConversationManager) : Summary :=
  {| total_messages := length (messages self);
     user_messages := length (filter (λ m, role m = "user") (messages self));
     assistant_messages := length (filter (λ m, role m = "assistant") (messages self));
     start_time := timestamp <$> head (messages self);
     last_time := timestamp <$> last (messages self) |}.

(** *** A conversation: the calls of [add_message] in turn *)

Record Call := mkCall {
  call_now : string;
  call_role : string;
  call_content : string;
  call_metadata : option (gmap string Value)
}.

Definition message_of (c : Call) : Message :=
  new_message (call_now c) (call_role c) (call_content c) (call_metadata c).

Definition step (self : ConversationManager) (c : Call) : ConversationManager :=
  add_message self (call_now c) (call_role c) (call_content c) (call_metadata c).

Definition converse (max_history : Z) (calls : list Call) : ConversationManager :=
  foldl step (__init__ max_history) calls.

Lemma slice_last {A} (n : nat) (l : list A) :
  (0 < n)%nat → slice_from (- Z.of_nat n) l = drop (length l - n) l.
Proof.
  intros Hn. unfold slice_from. cbv zeta.
  destruct (Z.ltb_spec (- Z.of_nat n) 0); [|lia].
  f_equal. lia.
Qed.

Lemma slice_zero {A} (l : list A) : slice_from 0 l = l.
Proof. unfold slice_from. cbv zeta. simpl. by rewrite Z.min_l by lia. Qed.

Lemma slice_drop {A} (k : nat) (l : list A) :
  (0 < k)%nat → slice_from (Z.of_nat k) l = drop k l.
Proof.
  intros Hk. unfold slice_from. cbv zeta.
  destruct (Z.ltb_spec (Z.of_nat k) 0); [lia|].
  destruct (decide (k ≤ length l)%nat).
  - f_equal. lia.
  - rewrite !drop_ge; [done|lia|lia].
Qed.

Lemma converse_snoc n calls c : converse n (calls ++ [c]) = step (converse n calls) c.
Proof. unfold converse. by rewrite foldl_app. Qed.

Lemma converse_limit n calls : max_history (converse n calls) = n.
Proof.
  induction calls as [|c calls IH] using rev_ind; [done|].
  by rewrite converse_snoc.
Qed.

(** The history is the window of the last [max_history] messages. *)
Lemma converse_window (n : nat) (calls : list Call) :
  (0 < n)%nat →
  messages (converse (Z.of_nat n) calls)
  = drop (length calls - n) (message_of <$> calls).
Proof.
  intros Hn. induction calls as [|c calls IH] using rev_ind; [done|].
  rewrite converse_snoc. unfold step, add_message. cbn [messages].
  rewrite converse_limit, IH. fold (message_of c).
  rewrite fmap_app, length_app, length_drop, length_fmap, length_app.
  cbn [length fmap list_fmap].
  destruct (Z.ltb_spec (Z.of_nat n) (Z.of_nat (length calls - (length calls - n) + 1))).
  - rewrite slice_last by done.
    rewrite length_app, length_drop, length_fmap. cbn [length].
    rewrite drop_app_le by (rewrite length_drop, length_fmap; lia).
    rewrite drop_drop.
    rewrite (drop_app_le _ _ (length calls + 1 - n)) by (rewrite length_fmap; lia).
    do 2 f_equal. lia.
  - rewrite (drop_app_le _ _ (length calls + 1 - n)) by (rewrite length_fmap; lia).
    do 2 f_equal. lia.
Qed.

(** With a positive limit the history is always the last
    [max_history] messages added, oldest first: never more than the
    limit, nothing reordered, and the newest message is never the one
    dropped. *)
Theorem history_window (n : nat) (calls : list Call) :
  (0 < n)%nat →
  let self := converse (Z.of_nat n) calls in
  messages self = drop (length calls - n) (message_of <$> calls)
  ∧ length (messages self) = (length calls `min` n)%nat
  ∧ last (messages self) = message_of <$> last calls.
Proof.
  intros Hn self. subst self. rewrite converse_window by done.
  split; [done|]. split.
  - rewrite length_drop, length_fmap. lia.
  - destruct calls as [|c calls _] using rev_ind; [done|].
    rewrite fmap_app, length_app. cbn [length fmap list_fmap].
    rewrite drop_app_le by (rewrite length_fmap; lia).
    by rewrite !last_snoc.
Qed.

(** A limit of 0 does not empty the history: [messages[-0:]] is the
    whole list, so every message is kept and the history grows without
    bound.  A negative limit keeps nothing at all. *)
Theorem history_limit_not_positive (calls : list Call) :
  messages (converse 0 calls) = message_of <$> calls
  ∧ ∀ n, (n < 0)%Z → messages (converse n calls) = [].
Proof.
  split.
  - induction calls as [|c calls IH] using rev_ind; [done|].
    rewrite converse_snoc. unfold step, add_message. cbn [messages].
    rewrite converse_limit, IH. fold (message_of c).
    rewrite fmap_app. cbn [fmap list_fmap].
    change (- 0)%Z with 0%Z. rewrite slice_zero. by destruct (_ <? _)%Z.
  - intros n Hn. induction calls as [|c calls IH] using rev_ind; [done|].
    rewrite converse_snoc. unfold step, add_message. cbn [messages].
    rewrite converse_limit, IH. cbn [app length].
    destruct (Z.ltb_spec n (Z.of_nat 1)); [|lia].
    replace (- n)%Z with (Z.of_nat (Z.to_nat (- n))) by lia.
    rewrite slice_drop by lia. apply drop_ge. simpl. lia.
Qed.

Lemma filter_two_roles (l : list Message) :
  (length (filter (λ m, role m = "user") l)
   + length (filter (λ m, role m = "assistant") l) ≤ length l)%nat.
Proof.
  induction l as [|m l IH]; [done|].
  rewrite !filter_cons.
  destruct (decide (role m = "user")) as [Hu|], (decide (role m = "assistant")) as [Ha|];
    cbn [length]; try lia.
  rewrite Hu in Ha. discriminate Ha.
Qed.

(** The summary of a conversation with a positive limit: the total is
    the number of messages added, capped at the limit; the user and
    assistant counts never exceed it together; the start time is that
    of the oldest message still kept and the last time that of the
    newest message added, both [None] only before the first message. *)
Theorem summary_counts (n : nat) (calls : list Call) :
  (0 < n)%nat →
  let summary := get_summary (converse (Z.of_nat n) calls) in
  total_messages summary = (length calls `min` n)%nat
  ∧ (user_messages summary + assistant_messages summary ≤ total_messages summary)%nat
  ∧ start_time summary = call_now <$> calls !! (length calls - n)%nat
  ∧ last_time summary = call_now <$> last calls.
Proof.
  intros Hn summary. subst summary. unfold get_summary.
  cbn [total_messages user_messages assistant_messages start_time last_time].
  rewrite converse_window by done.
  split; [rewrite length_drop, length_fmap; lia|].
  split; [apply filter_two_roles|].
  split.
  - rewrite head_lookup, lookup_drop, Nat.add_0_r, list_lookup_fmap.
    by destruct (calls !! _).
  - destruct calls as [|c calls _] using rev_ind; [done|].
    rewrite fmap_app, length_app. cbn [length fmap list_fmap].
    rewrite drop_app_le by (rewrite length_fmap; lia).
    by rewrite !last_snoc.
Qed.

(** Whatever the history holds, when the limit is not negative the
    message just added is the most recent one, and asking for no
    recent message returns the whole history. *)
Theorem recent_after_add (self : ConversationManager) (now role content : string)
    (metadata : option (gmap string Value)) :
  (0 ≤ max_history self)%Z →
  let self' := add_message self now role content metadata in
  get_recent_messages self' 1 = [new_message now role content metadata]
  ∧ get_recent_messages self' 0 = messages self'.
Proof.
  intros Hlimit self'. split.
  - assert (Hlast : ∃ l, messages self' = (l ++ [new_message now role content metadata])%list).
    { subst self'. unfold add_message. cbn [messages].
      destruct (Z.ltb_spec (max_history self)
                  (Z.of_nat (length (messages self ++ [new_message now role content metadata]))))
        as [Hlt|]; [|by eexists].
      rewrite length_app in Hlt. cbn [length] in Hlt.
      destruct (decide (max_history self = 0%Z)) as [Hzero|Hpos].
      + rewrite Hzero. change (- 0)%Z with 0%Z. rewrite slice_zero. by eexists.
      + replace (max_history self) with (Z.of_nat (Z.to_nat (max_history self))) by lia.
        rewrite slice_last by lia. rewrite length_app. cbn [length].
        rewrite drop_app_le by lia. by eexists. }
    destruct Hlast as [l Hl]. unfold get_recent_messages. rewrite Hl.
    rewrite (slice_last 1) by lia. rewrite length_app. cbn [length].
    rewrite drop_app_le by lia.
    replace (length l + 1 - 1)%nat with (length l) by lia.
    by rewrite drop_all.
  - unfold get_recent_messages. change (- 0)%Z with 0%Z. apply slice_zero.
Qed.
End conversation.

(** *** A concrete conversation *)

Definition demo_calls : list (Call (Value := string)) :=
  [ mkCall "2024-01-01T10:00:00" "user" "创建项目" None;
    mkCall "2024-01-01T10:00:01" "assistant" "好的" None;
    mkCall "2024-01-01T10:00:02" "user" "生成大纲" None ].

Lemma history_window_witness :
  messages (converse 2 demo_calls) = drop 1 (message_of <$> demo_calls)
  ∧ length (messages (converse 2 demo_calls)) = 2%nat
  ∧ last (messages (converse 2 demo_calls)) = message_of <$> last demo_calls.
Proof. apply (history_window 2 demo_calls). lia. Defined.

Lemma summary_counts_witness :
  total_messages (get_summary (converse 2 demo_calls)) = 2%nat
  ∧ (user_messages (get_summary (converse 2 demo_calls))
     + assistant_messages (get_summary (converse 2 demo_calls))
     ≤ total_messages (get_summary (converse 2 demo_calls)))%nat
  ∧ start_time (get_summary (converse 2 demo_calls)) = Some "2024-01-01T10:00:01"
  ∧ last_time (get_summary (converse 2 demo_calls)) = Some "2024-01-01T10:00:02".
Proof. apply (summary_counts 2 demo_calls). lia. Defined.

Lemma recent_after_add_witness :
  get_recent_messages (add_message (converse 2 demo_calls) "2024-01-01T10:00:03"
                         "assistant" "完成" None) 1
  = [new_message "2024-01-01T10:00:03" "assistant" "完成" None]
  ∧ get_recent_messages (add_message (converse 2 demo_calls) "2024-01-01T10:00:03"
                           "assistant" "完成" None) 0
    = messages (add_message (converse 2 demo_calls) "2024-01-01T10:00:03"
                  "assistant" "完成" None).
Proof.
  apply (recent_after_add (converse 2 demo_calls)). simpl. lia.
Defined.

Lemma history_limit_not_positive_witness :
  messages (converse 0 demo_calls) = message_of <$> demo_calls
  ∧ messages (converse (-1) demo_calls) = [].
Proof.
  destruct (history_limit_not_positive demo_calls) as [Hzero Hnegative].
  split; [exact Hzero|]. apply Hnegative. lia.
Defined.
End Conversation.

(** ** The configuration

    [Config] (src/tender_cli/core/config.py): the nested dict behind
    the dotted keys, and how the client reads it. *)

Module Config.
Import PyStr.

Section config.
(** The values of a configuration document that are neither a dict, a
    string, a boolean nor [None] (numbers, lists), with their truth
    value and the name of their type. *)
Context {Other : Type} (is_true : Other → bool) (type_name : Other → string).

#[warnings="-register-all"]
Inductive Value :=
| VDict (d : gmap string Value)
| VStr (s : string)
| VBool (b : bool)
| VNone
| VOther (x : Other).

Definition is_dict (v : Value) : bool :=
  match v with VDict _ => true | _ => false end.

(** [bool(v)] *)
Definition truthy (v : Value) : bool :=
  match v with
  | VDict d => negb (size d =? 0)%nat
  | VStr s => negb (String.eqb s "")
  | VBool b => b
  | VNone => false
  | VOther x => is_true x
  end.

(** [type(v).__name__] *)
Definition type_of (v : Value) : string :=
  match v with
  | VDict _ => "dict"
  | VStr _ => "str"
  | VBool _ => "bool"
  | VNone => "NoneType"
  | VOther x => type_name x
  end.

(** The loop of [get]: descend while the value is a dict that has the
    key. *)
Fixpoint lookup_path (value : Value) (keys : list string) : option Value :=
  match keys with
  | [] => Some value
  | k :: keys =>
      match value with
      | VDict d =>
          match d !! k with
          | Some v => lookup_path v keys
          | None => None
          end
      | _ => None
      end
  end.

Definition get (self : gmap string Value) (key : string) (default_ : Value) : Value :=
  default default_ (lookup_path (VDict self) (split_on "." key)).

(** The text of the [TypeError] raised when the item [keys] of a value
    that is not a dict is looked for or assigned; it depends on the
    type of the value and on the interpreter. *)
Context (item_error : Value → list string → string).

(** The loop of [set] and its last assignment.  The dicts on the path
    are updated in place, so the state is returned also when the call
    raises. *)
Fixpoint set_path (config : gmap string Value) (keys : list string) (value : Value)
    : gmap string Value * option Exn :=
  match keys with
  | [] => (config, None)
  | k :: rest =>
      match rest with
      | [] => (<[k := value]> config, None)
      | _ :: _ =>
          let config1 :=
            match config !! k with
            | None => <[k := VDict ∅]> config
            | Some _ => config
            end in
          match config1 !! k with
          | Some (VDict d) =>
              let '(d', raised) := set_path d rest value in
              (<[k := VDict d']> config1, raised)
          | Some v => (config1, Some (mkExn "TypeError" (item_error v rest)))
          | None => (config1, None)
          end
      end
  end.

(** [save_config]: the file is rewritten from the dict; a failure to
    write is reported on the console and not raised. *)
Context {World : Type} (save_config : gmap string Value → World → World).

Definition set (self : gmap string Value) (w : World) (key : string) (value : Value)
    : gmap string Value * World * PyResult unit :=
  let '(config, raised) := set_path self (split_on "." key) value in
  match raised with
  | Some e => (config, w, Raise e)
  | None => (config, save_config config w, Return tt)
  end.

(** [value.lower() in ('true', '1', 'yes', 'on')] *)
Definition debug_flag (value : string) : bool :=
  bool_decide (lower value ∈ ["true"; "1"; "yes"; "on"]).

Definition _set_nested_config (self : gmap string Value) (key : string) (value : Value)
    : gmap string Value * option Exn :=
  let keys := split_on "." key in
  let value :=
    match value with
    | VStr s => if String.eqb (List.last keys "") "debug" then VBool (debug_flag s) else value
    | _ => value
    end in
  set_path self keys value.

(** [x and x.strip()], as a truth value. *)
Definition and_strip (x : Value) : PyResult bool :=
  if truthy x then
    match x with
    | VStr s => Return (negb (String.eqb (strip s) ""))
    | _ => Raise (mkExn "AttributeError"
                    ("'" ++ type_of x ++ "' object has no attribute 'strip'"))
    end
  else Return false.

Definition is_configured (self : gmap string Value) : PyResult bool :=
  let api_key := get self "ai.api_key" VNone in
  let base_url := get self "ai.base_url" VNone in
  has_key ← and_strip api_key;
  if has_key : bool then Return true else and_strip base_url.

(** The property [ai_config]. *)
Definition ai_config (self : gmap string Value) : Value := get self "ai" (VDict ∅).

(** What [AIClient.__init__] reads from the dict it is given, when the
    entries it reads are strings. *)
Definition str_entry (d : gmap string Value) (key : string) : option (option string) :=
  match d !! key with
  | None => Some None
  | Some (VStr s) => Some (Some s)
  | Some _ => None
  end.

Definition client_config (ai : Value) : option Client.Config :=
  match ai with
  | VDict d =>
      provider ← str_entry d "provider";
      api_key ← str_entry d "api_key";
      base_url ← str_entry d "base_url";
      Some (Client.mkConfig provider api_key base_url)
  | _ => None
  end.

(** *** Paths *)

Lemma set_path_cons config k k' rest value :
  set_path config (k :: k' :: rest) value
  = let config1 :=
      match config !! k with
      | None => <[k := VDict ∅]> config
      | Some _ => config
      end in
    match config1 !! k with
    | Some (VDict d) =>
        let '(d', raised) := set_path d (k' :: rest) value in
        (<[k := VDict d']> config1, raised)
    | Some v => (config1, Some (mkExn "TypeError" (item_error v (k' :: rest))))
    | None => (config1, None)
    end.
Proof. done. Qed.

(** The dict under [k] when the loop of [set] goes through it. *)
Definition child (config : gmap string Value) (k : string) : option (gmap string Value) :=
  match config !! k with
  | None => Some ∅
  | Some (VDict d) => Some d
  | Some _ => None
  end.

Lemma set_path_child config k rest value d :
  rest ≠ [] → child config k = Some d →
  set_path config (k :: rest) value
  = ((<[k := VDict (set_path d rest value).1]> config), (set_path d rest value).2).
Proof.
  destruct rest as [|k' rest]; [done|]. intros _.
  unfold child. intros Hchild. rewrite set_path_cons. cbv zeta.
  destruct (config !! k) as [v|] eqn:Hk.
  - destruct v; try done. injection Hchild as ->. rewrite Hk.
    by destruct (set_path d _ _).
  - injection Hchild as <-. rewrite lookup_insert_eq.
    destruct (set_path ∅ _ _). by rewrite insert_insert_eq.
Qed.

Lemma set_path_leaf config k rest value v :
  rest ≠ [] → config !! k = Some v → is_dict v = false →
  set_path config (k :: rest) value
  = (config, Some (mkExn "TypeError" (item_error v rest))).
Proof.
  destruct rest as [|k' rest]; [done|]. intros _.
  intros Hk Hv. rewrite set_path_cons. cbv zeta. rewrite Hk. cbv beta iota. rewrite Hk.
  by destruct v.
Qed.

Lemma child_cases config k :
  (∃ d, child config k = Some d)
  ∨ (∃ v, config !! k = Some v ∧ is_dict v = false).
Proof.
  unfold child. destruct (config !! k) as [v|]; [|by left; eexists].
  destruct v; first [by left; eexists|by right; eexists].
Qed.

(** What is stored under a path is found under it. *)
Lemma lookup_set_path config keys value config' :
  keys ≠ [] → set_path config keys value = (config', None) →
  lookup_path (VDict config') keys = Some value.
Proof.
  revert config config'. induction keys as [|k rest IH]; intros config config' Hne; [done|].
  destruct (decide (rest = [])) as [->|Hrest].
  - intros [= <-]. cbn. by rewrite lookup_insert_eq.
  - destruct (child_cases config k) as [[d Hchild]|(v & Hk & Hv)].
    + rewrite (set_path_child _ _ _ _ _ Hrest Hchild).
      destruct (set_path d rest value) as [d' raised] eqn:Hset.
      intros [= <- ->]. cbn [lookup_path]. rewrite lookup_insert_eq.
      by apply (IH d).
    + by rewrite (set_path_leaf _ _ _ _ _ Hrest Hk Hv).
Qed.

(** A path that leaves the stored one at some key is not affected. *)
Lemma lookup_set_path_other config p k rest k' rest' value :
  k ≠ k' →
  lookup_path (VDict (set_path config (p ++ k :: rest) value).1) (p ++ k' :: rest')
  = lookup_path (VDict config) (p ++ k' :: rest').
Proof.
  intros Hne. revert config. induction p as [|a p IH]; intros config.
  - cbn [app]. destruct (decide (rest = [])) as [->|Hrest].
    + cbn. by rewrite lookup_insert_ne.
    + destruct (child_cases config k) as [[d Hchild]|(v & Hk & Hv)].
      * rewrite (set_path_child _ _ _ _ _ Hrest Hchild). cbn.
        by rewrite lookup_insert_ne.
      * by rewrite (set_path_leaf _ _ _ _ _ Hrest Hk Hv).
  - cbn [app].
    assert (Hrest : (p ++ k :: rest)%list ≠ []) by (by destruct p).
    destruct (child_cases config a) as [[d Hchild]|(v & Hk & Hv)].
    + rewrite (set_path_child _ _ _ _ _ Hrest Hchild). cbn [fst lookup_path].
      rewrite lookup_insert_eq, IH.
      unfold child in Hchild. destruct (config !! a) as [v|]; [by destruct v; simplify_eq|].
      injection Hchild as <-. destruct p; cbn; by rewrite lookup_empty.
    + by rewrite (set_path_leaf _ _ _ _ _ Hrest Hk Hv).
Qed.

(** Storing raises exactly when the path runs into a value that is not
    a dict, and then nothing has been changed. *)
Lemma set_path_raises config p q value v :
  p ≠ [] → q ≠ [] →
  lookup_path (VDict config) p = Some v → is_dict v = false →
  set_path config (p ++ q) value
  = (config, Some (mkExn "TypeError" (item_error v q))).
Proof.
  intros Hp Hq. revert config. induction p as [|a p IH]; intros config; [done|].
  cbn [lookup_path app]. destruct (config !! a) as [va|] eqn:Ha; [|done].
  destruct (decide (p = [])) as [->|Hp'].
  - cbn [lookup_path app]. intros [= ->] Hv. by apply set_path_leaf.
  - intros Hlook Hv.
    assert (Hrest : (p ++ q)%list ≠ []) by (by destruct p).
    assert (∃ d, va = VDict d) as [d ->].
    { destruct va; try (by destruct p); by eexists. }
    rewrite (set_path_child config a (p ++ q) value d) by (done || unfold child; by rewrite Ha).
    rewrite (IH Hp' d Hlook Hv). cbn [fst snd].
    by rewrite insert_id.
Qed.

Lemma set_path_returns config keys value :
  (∀ p q v, keys = (p ++ q)%list → p ≠ [] → q ≠ [] →
     lookup_path (VDict config) p = Some v → is_dict v = true) →
  (set_path config keys value).2 = None.
Proof.
  revert config. induction keys as [|k rest IH]; intros config Hdicts; [done|].
  destruct (decide (rest = [])) as [->|Hrest]; [done|].
  destruct (child_cases config k) as [[d Hchild]|(v & Hk & Hv)].
  - rewrite (set_path_child _ _ _ _ _ Hrest Hchild). cbn [snd]. apply IH.
    intros p q v -> Hp Hq Hlook.
    apply (Hdicts (k :: p) q v); [done|done|done|].
    cbn [lookup_path]. unfold child in Hchild.
    destruct (config !! k) as [vk|].
    + destruct vk; simplify_eq. done.
    + injection Hchild as <-. destruct p as [|a p]; [done|].
      cbn in Hlook. by rewrite lookup_empty in Hlook.
  - specialize (Hdicts [k] rest v eq_refl ltac:(done) Hrest).
    cbn in Hdicts. rewrite Hk in Hdicts. specialize (Hdicts eq_refl). congruence.
Qed.

(** *** The dotted keys *)

(** What [set] stores under a key, [get] returns under that key, and
    it is what was saved. *)
Theorem set_get_round_trip (self : gmap string Value) (w : World) (key : string)
    (value default_ : Value) :
  (set self w key value).2 = Return tt →
  get (set self w key value).1.1 key default_ = value
  ∧ (set self w key value).1.2 = save_config (set self w key value).1.1 w.
Proof.
  unfold set, get.
  destruct (set_path self (split_on "." key) value) as [config raised] eqn:Hset.
  destruct raised as [e|]; [done|]. intros _. cbn [fst snd]. split; [|done].
  by rewrite (lookup_set_path self _ value config (split_on_nonempty _ _) Hset).
Qed.

(** [set] leaves alone every key whose path leaves the path of the key
    that is set. *)
Theorem set_other_key (self : gmap string Value) (w : World) (key key' : string)
    (value default_ : Value) (p rest rest' : list string) (k k' : string) :
  split_on "." key = (p ++ k :: rest)%list →
  split_on "." key' = (p ++ k' :: rest')%list →
  k ≠ k' →
  get (set self w key value).1.1 key' default_ = get self key' default_.
Proof.
  intros Hkey Hkey' Hne. unfold set, get. rewrite Hkey, Hkey'.
  pose proof (lookup_set_path_other self p k rest k' rest' value Hne) as Hother.
  destruct (set_path self (p ++ k :: rest) value) as [config raised].
  cbn [fst] in Hother. destruct raised; cbn [fst]; by rewrite Hother.
Qed.

(** [set] raises [TypeError] exactly when its key runs through a value
    that is not a dict; the configuration is then unchanged and nothing
    is saved. *)
Theorem set_through_value (self : gmap string Value) (w : World) (key : string)
    (value : Value) :
  (∀ p q v, split_on "." key = (p ++ q)%list → p ≠ [] → q ≠ [] →
     lookup_path (VDict self) p = Some v → is_dict v = false →
     set self w key value = (self, w, Raise (mkExn "TypeError" (item_error v q))))
  ∧ ((∀ p q v, split_on "." key = (p ++ q)%list → p ≠ [] → q ≠ [] →
        lookup_path (VDict self) p = Some v → is_dict v = true) →
     (set self w key value).2 = Return tt).
Proof.
  split.
  - intros p q v Hkey Hp Hq Hlook Hv. unfold set. rewrite Hkey.
    by rewrite (set_path_raises self p q value v).
  - intros Hdicts. unfold set.
    pose proof (set_path_returns self (split_on "." key) value Hdicts) as Hret.
    destruct (set_path self _ value) as [config raised]. cbn in Hret. by rewrite Hret.
Qed.

(** *** The configuration and the client *)

Lemma get_ai_entry (self : gmap string Value) (entry : string) (d : gmap string Value) :
  self !! "ai" = Some (VDict d) →
  lookup_path (VDict self) ["ai"; entry] = d !! entry.
Proof. intros Hai. cbn. rewrite Hai. by destruct (d !! entry). Qed.

Lemma and_strip_entry (d : gmap string Value) (entry : string) (s : option string) :
  str_entry d entry = Some s →
  and_strip (default VNone (d !! entry))
  = Return (Client.truthy (strip (default "" s))).
Proof.
  unfold str_entry. destruct (d !! entry) as [v|]; [|by intros [= <-]].
  destruct v as [| s' | | |]; try done. intros [= <-]. cbn.
  unfold and_strip, truthy, Client.truthy.
  destruct (String.eqb_spec s' "") as [->|]; done.
Qed.

(** [is_configured], on which the command line decides whether to ask
    for a setup, agrees with the client: for a configuration whose
    [ai] entries are strings it returns the negation of the mock mode
    of every client built from [ai_config], and when it returns
    [False] building the client cannot fail. *)
Theorem configured_iff_not_mock {ClientWorld ClientValue : Type}
    (self : gmap string Value) (config : Client.Config) :
  client_config (ai_config self) = Some config →
  ∃ configured, is_configured self = Return configured
    ∧ (∀ (server : option (Client.MCPServer (World := ClientWorld) (Value := ClientValue)))
         client,
         Client.__init__ config server = Return client →
         Client.mock_mode client = negb configured)
    ∧ (configured = false →
       ∀ server : option (Client.MCPServer (World := ClientWorld) (Value := ClientValue)),
         ∃ client, Client.__init__ config server = Return client).
Proof.
  intros Hconfig.
  assert (∃ d provider api_key base_url,
            get self "ai.api_key" VNone = default VNone (d !! "api_key")
            ∧ get self "ai.base_url" VNone = default VNone (d !! "base_url")
            ∧ str_entry d "provider" = Some provider
            ∧ str_entry d "api_key" = Some api_key
            ∧ str_entry d "base_url" = Some base_url
            ∧ config = Client.mkConfig provider api_key base_url)
    as (d & provider & api_key & base_url & Hkey & Hurl & Hp & Ha & Hb & ->).
  { unfold ai_config, get in Hconfig.
    change (split_on "." "ai") with ["ai"] in Hconfig.
    unfold get.
    change (split_on "." "ai.api_key") with ["ai"; "api_key"].
    change (split_on "." "ai.base_url") with ["ai"; "base_url"].
    cbn [lookup_path] in Hconfig |- *.
    destruct (self !! "ai") as [ai|] eqn:Hai.
    - cbn in Hconfig. destruct ai as [d| | | |]; try done.
      cbn in Hconfig.
      destruct (str_entry d "provider") as [provider|] eqn:Hp; [|done].
      destruct (str_entry d "api_key") as [api_key|] eqn:Ha; [|done].
      destruct (str_entry d "base_url") as [base_url|] eqn:Hb; [|done].
      injection Hconfig as <-. exists d, provider, api_key, base_url.
      split; [by destruct (d !! "api_key")|]. split; [by destruct (d !! "base_url")|].
      done.
    - cbn in Hconfig. injection Hconfig as <-. exists ∅, None, None, None.
      done. }
  unfold is_configured. rewrite Hkey, Hurl.
  rewrite (and_strip_entry d "api_key" api_key Ha).
  rewrite (and_strip_entry d "base_url" base_url Hb).
  cbn [mbind PyResult_bind].
  set (has_key := Client.truthy (strip (default "" api_key))).
  set (has_url := Client.truthy (strip (default "" base_url))).
  exists (has_key || has_url). split; [by destruct has_key|]. split.
  - intros server client. unfold Client.__init__. cbn [Client.cfg_api_key Client.cfg_base_url].
    fold has_key has_url. destruct (_ && _); [done|]. by intros [= <-].
  - intros Hoff server. unfold Client.__init__.
    cbn [Client.cfg_api_key Client.cfg_base_url]. fold has_key has_url.
    rewrite Hoff. cbn. by eexists.
Qed.

(** *** The environment *)

(** [env_mappings], in the order of the dict. *)
Definition ENV_MAPPINGS : list (string * string) :=
  [ ("OPENAI_API_KEY", "ai.api_key");
    ("OPENAI_BASE_URL", "ai.base_url");
    ("OPENAI_MODEL", "ai.model");
    ("AI_PROVIDER", "ai.provider");
    ("TENDER_WORKSPACE", "project.default_workspace");
    ("TENDER_DEBUG", "debug") ].

(** One iteration of the loop of [_load_from_env] over the process
    environment; an exception ends the loop. *)
Definition load_one (environ : gmap string string)
    (state : gmap string Value * option Exn) (mapping : string * string)
    : gmap string Value * option Exn :=
  match state.2 with
  | Some _ => state
  | None =>
      match environ !! mapping.1 with
      | Some env_value =>
          if negb (String.eqb env_value "")
          then _set_nested_config state.1 mapping.2 (VStr env_value)
          else state
      | None => state
      end
  end.

Definition _load_from_env (self : gmap string Value) (environ : gmap string string)
    : gmap string Value * option Exn :=
  foldl (load_one environ) (self, None) ENV_MAPPINGS.

(** Two paths part at some key. *)
Fixpoint diverges (a b : list string) : bool :=
  match a, b with
  | x :: a, y :: b => if String.eqb x y then diverges a b else true
  | _, _ => false
  end.

Fixpoint all_diverge (paths : list (list string)) : bool :=
  match paths with
  | [] => true
  | a :: paths => forallb (diverges a) paths && all_diverge paths
  end.

Lemma diverges_spec a b :
  diverges a b = true →
  ∃ p k rest k' rest', a = (p ++ k :: rest)%list ∧ b = (p ++ k' :: rest')%list ∧ k ≠ k'.
Proof.
  revert b. induction a as [|x a IH]; intros [|y b]; try done. cbn [diverges].
  destruct (String.eqb_spec x y) as [->|Hne].
  - intros (p & k & rest & k' & rest' & -> & -> & Hk)%IH.
    by exists (y :: p), k, rest, k', rest'.
  - intros _. by exists [], x, a, y, b.
Qed.

Lemma diverges_sym a b : diverges a b = diverges b a.
Proof.
  revert b. induction a as [|x a IH]; intros [|y b]; try done. cbn [diverges].
  rewrite (String.eqb_sym y x). by rewrite IH.
Qed.

(** What one mapping stores, if anything. *)
Definition stored (environ : gmap string string) (mapping : string * string) : option Value :=
  match environ !! mapping.1 with
  | Some env_value =>
      if String.eqb env_value "" then None
      else if String.eqb (List.last (split_on "." mapping.2) "") "debug"
           then Some (VBool (debug_flag env_value))
           else Some (VStr env_value)
  | None => None
  end.

Lemma load_one_stored environ state mapping :
  load_one environ state mapping
  = match state.2 with
    | Some _ => state
    | None =>
        match stored environ mapping with
        | Some value => set_path state.1 (split_on "." mapping.2) value
        | None => state
        end
    end.
Proof.
  unfold load_one, stored, _set_nested_config. destruct (state.2); [done|].
  destruct (environ !! mapping.1) as [env_value|]; [|done].
  destruct (String.eqb env_value ""); [done|]. cbn [negb].
  by destruct (String.eqb _ "debug").
Qed.

Lemma load_raised environ state mappings :
  state.2 ≠ None → foldl (load_one environ) state mappings = state.
Proof.
  intros Hraised. induction mappings as [|m mappings IH]; [done|].
  cbn [foldl]. unfold load_one at 2. by destruct (state.2).
Qed.

Lemma load_other environ mappings state keys :
  forallb (λ m, diverges (split_on "." m.2) keys) mappings = true →
  lookup_path (VDict (foldl (load_one environ) state mappings).1) keys
  = lookup_path (VDict state.1) keys.
Proof.
  revert state. induction mappings as [|m mappings IH]; intros state; [done|].
  cbn [forallb foldl]. intros [Hm Hrest]%andb_true_iff. rewrite IH by done.
  rewrite load_one_stored. destruct (state.2); [done|].
  destruct (stored environ m) as [value|]; [|done].
  destruct (diverges_spec _ _ Hm) as (p & k & rest & k' & rest' & -> & -> & Hne).
  by apply lookup_set_path_other.
Qed.

Lemma load_values environ mappings state :
  all_diverge ((λ m, split_on "." m.2) <$> mappings) = true →
  (foldl (load_one environ) state mappings).2 = None →
  ∀ m, m ∈ mappings →
    lookup_path (VDict (foldl (load_one environ) state mappings).1) (split_on "." m.2)
    = match stored environ m with
      | Some value => Some value
      | None => lookup_path (VDict state.1) (split_on "." m.2)
      end.
Proof.
  revert state. induction mappings as [|m0 mappings IH]; intros state Hdiv Hret m Hin.
  { by apply elem_of_nil in Hin. }
  cbn [fmap list_fmap all_diverge] in Hdiv. apply andb_true_iff in Hdiv as [Hm0 Hdiv].
  cbn [foldl] in Hret |- *.
  assert (Hstate : state.2 = None).
  { destruct (state.2) as [e|] eqn:Hs; [|done].
    assert (Hone : load_one environ state m0 = state) by (unfold load_one; by rewrite Hs).
    rewrite Hone, load_raised in Hret; congruence. }
  assert (Hnext : (load_one environ state m0).2 = None).
  { destruct ((load_one environ state m0).2) as [e|] eqn:Hs; [|done].
    rewrite load_raised in Hret; congruence. }
  apply elem_of_cons in Hin as [->|Hin].
  - rewrite load_other.
    + rewrite load_one_stored in Hnext |- *. rewrite Hstate in Hnext |- *.
      destruct (stored environ m0) as [value|]; [|done].
      destruct (set_path state.1 _ value) as [config raised] eqn:Hset.
      cbn in Hnext. subst raised.
      by apply (lookup_set_path state.1 _ value config (split_on_nonempty _ _)).
    + rewrite forallb_forall in Hm0 |- *. intros m Hm.
      rewrite diverges_sym. apply Hm0, in_map_iff. by exists m.
  - rewrite (IH _ Hdiv Hret m Hin).
    destruct (stored environ m); [done|].
    rewrite load_one_stored, Hstate.
    destruct (stored environ m0) as [value|]; [|done].
    assert (Hm : diverges (split_on "." m0.2) (split_on "." m.2) = true).
    { rewrite forallb_forall in Hm0. apply Hm0, in_map_iff. exists m.
      split; [done|]. by apply list_elem_of_In. }
    destruct (diverges_spec _ _ Hm) as (p & k & rest & k' & rest' & -> & -> & Hne).
    by apply lookup_set_path_other.
Qed.

(** The sections the environment writes to are dicts, before and after
    each variable is loaded, so no variable makes the loading raise. *)
Definition sections_ok (config : gmap string Value) : Prop :=
  is_Some (child config "ai") ∧ is_Some (child config "project").

Lemma child_insert_ne config (k k' : string) v :
  k ≠ k' → child (<[k := v]> config) k' = child config k'.
Proof. intros Hne. unfold child. by rewrite lookup_insert_ne. Qed.

Lemma child_insert_dict config (k : string) d :
  child (<[k := VDict d]> config) k = Some d.
Proof. unfold child. by rewrite lookup_insert_eq. Qed.

Lemma set_section_ok config (section entry : string) value :
  sections_ok config → section ∈ ["ai"; "project"] →
  (set_path config [section; entry] value).2 = None
  ∧ sections_ok (set_path config [section; entry] value).1.
Proof.
  intros [[a Ha] [p Hp]] Hin. unfold sections_ok.
  apply elem_of_cons in Hin as [->|Hin]; [|apply list_elem_of_singleton in Hin as ->].
  - rewrite (set_path_child config "ai" [entry] value a) by done.
    cbn [fst snd set_path]. rewrite child_insert_dict, child_insert_ne by done.
    rewrite Hp. by eauto.
  - rewrite (set_path_child config "project" [entry] value p) by done.
    cbn [fst snd set_path]. rewrite child_insert_dict, child_insert_ne by done.
    rewrite Ha. by eauto.
Qed.

Lemma set_debug_ok config value :
  sections_ok config →
  (set_path config ["debug"] value).2 = None
  ∧ sections_ok (set_path config ["debug"] value).1.
Proof.
  intros Hok. cbn [set_path fst snd]. split; [done|].
  unfold sections_ok in *. by rewrite !child_insert_ne.
Qed.

Lemma load_one_ok environ state mapping :
  mapping ∈ ENV_MAPPINGS → state.2 = None → sections_ok state.1 →
  (load_one environ state mapping).2 = None
  ∧ sections_ok (load_one environ state mapping).1.
Proof.
  intros Hin Hstate Hok. rewrite load_one_stored, Hstate.
  destruct (stored environ mapping) as [value|]; [|done].
  unfold ENV_MAPPINGS in Hin.
  repeat (apply elem_of_cons in Hin as [->|Hin];
          [first [apply set_debug_ok; done
                 |apply set_section_ok; [done|elem_of_list]]|]).
  by apply elem_of_nil in Hin.
Qed.

Lemma load_all_ok environ mappings state :
  (∀ m, m ∈ mappings → m ∈ ENV_MAPPINGS) → state.2 = None → sections_ok state.1 →
  (foldl (load_one environ) state mappings).2 = None.
Proof.
  revert state. induction mappings as [|m mappings IH]; intros state Hsub Hstate Hok; [done|].
  cbn [foldl].
  destruct (load_one_ok environ state m) as [Hnext Hok']; [apply Hsub; left|done|done|].
  apply IH; [|done|done]. intros m' Hm'. apply Hsub. by right.
Qed.

(** The environment overrides the file: when the [ai] and [project]
    entries of the configuration are dicts or missing, loading the
    environment does not raise, and afterwards each mapped key holds
    the value of its variable where that is set and not empty (for
    [debug], whether the value spells a true flag) and its old value
    otherwise. *)
Theorem env_overrides (self : gmap string Value) (environ : gmap string string) :
  is_dict (get self "ai" (VDict ∅)) = true →
  is_dict (get self "project" (VDict ∅)) = true →
  (_load_from_env self environ).2 = None
  ∧ ∀ env_key config_key default_,
      (env_key, config_key) ∈ ENV_MAPPINGS →
      get (_load_from_env self environ).1 config_key default_
      = match environ !! env_key with
        | Some env_value =>
            if String.eqb env_value "" then get self config_key default_
            else if String.eqb config_key "debug" then VBool (debug_flag env_value)
                 else VStr env_value
        | None => get self config_key default_
        end.
Proof.
  intros Hai Hproject.
  assert (Hok : sections_ok self).
  { unfold get in Hai, Hproject.
    change (split_on "." "ai") with ["ai"] in Hai.
    change (split_on "." "project") with ["project"] in Hproject.
    cbn [lookup_path] in Hai, Hproject. unfold sections_ok, child.
    destruct (self !! "ai") as [[]|], (self !! "project") as [[]|]; by eauto. }
  assert (Hret : (_load_from_env self environ).2 = None).
  { by apply load_all_ok. }
  split; [done|]. intros env_key config_key default_ Hin. unfold get.
  unfold _load_from_env in *.
  pose proof (load_values environ ENV_MAPPINGS (self, None) eq_refl Hret _ Hin) as Hvalue.
  unfold stored in Hvalue. cbn [fst snd] in Hvalue. rewrite Hvalue. clear Hvalue Hret.
  destruct (environ !! env_key) as [env_value|]; [|done].
  destruct (String.eqb env_value ""); [done|].
  unfold ENV_MAPPINGS in Hin.
  repeat (apply elem_of_cons in Hin as [[= -> ->]|Hin]; [done|]).
  by apply elem_of_nil in Hin.
Qed.
End config.

(** *** A concrete configuration *)

(** Numbers are the other values; the saved files are kept in a list. *)
Definition number_true (z : Z) : bool := negb (z =? 0)%Z.
Definition number_type (z : Z) : string := "int".
Definition demo_error (v : Value (Other := Z)) (keys : list string) : string :=
  "'" ++ type_of number_type v ++ "' object does not support item assignment".
Definition demo_save (config : gmap string (Value (Other := Z)))
    (w : list (gmap string Value)) : list (gmap string Value) := config :: w.

Definition demo_config : gmap string (Value (Other := Z)) :=
  {[ "ai" := VDict {[ "api_key" := VStr "";
                      "model" := VStr "gpt-4";
                      "max_tokens" := VOther 4000%Z ]};
     "debug" := VBool false ]}.

Definition demo_environ : gmap string string :=
  {[ "OPENAI_API_KEY" := "sk-env"; "TENDER_DEBUG" := "Yes" ]}.

Lemma set_get_round_trip_witness :
  get (set demo_error demo_save demo_config [] "ai.api_key" (VStr "sk-1")).1.1
    "ai.api_key" VNone = VStr "sk-1"
  ∧ (set demo_error demo_save demo_config [] "ai.api_key" (VStr "sk-1")).1.2
    = demo_save (set demo_error demo_save demo_config [] "ai.api_key" (VStr "sk-1")).1.1 [].
Proof.
  apply (set_get_round_trip demo_error demo_save demo_config [] "ai.api_key").
  vm_compute. reflexivity.
Defined.

Lemma set_other_key_witness :
  get (set demo_error demo_save demo_config [] "ai.api_key" (VStr "sk-1")).1.1
    "ai.model" VNone
  = get demo_config "ai.model" VNone.
Proof.
  apply (set_other_key demo_error demo_save demo_config [] "ai.api_key" "ai.model"
           (VStr "sk-1") VNone ["ai"] [] [] "api_key" "model").
  - reflexivity.
  - reflexivity.
  - discriminate.
Defined.

Lemma set_through_value_witness :
  set demo_error demo_save demo_config [] "ai.model.name" (VStr "x")
  = (demo_config, [], Raise (mkExn "TypeError" (demo_error (VStr "gpt-4") ["name"]))).
Proof.
  apply (proj1 (set_through_value demo_error demo_save demo_config [] "ai.model.name"
                  (VStr "x")) ["ai"; "model"] ["name"] (VStr "gpt-4")).
  - reflexivity.
  - discriminate.
  - discriminate.
  - vm_compute. reflexivity.
  - reflexivity.
Defined.

Lemma configured_iff_not_mock_witness :
  ∃ configured, is_configured number_true number_type demo_config = Return configured
    ∧ (∀ (server : option (Client.MCPServer (World := unit) (Value := string))) client,
         Client.__init__ (Client.mkConfig None (Some "") None) server = Return client →
         Client.mock_mode client = negb configured)
    ∧ (configured = false →
       ∀ server : option (Client.MCPServer (World := unit) (Value := string)),
         ∃ client, Client.__init__ (Client.mkConfig None (Some "") None) server
                   = Return client).
Proof.
  apply (configured_iff_not_mock number_true number_type demo_config).
  vm_compute. reflexivity.
Defined.

Lemma env_overrides_witness :
  (_load_from_env demo_error demo_config demo_environ).2 = None
  ∧ ∀ env_key config_key default_,
      (env_key, config_key) ∈ ENV_MAPPINGS →
      get (_load_from_env demo_error demo_config demo_environ).1 config_key default_
      = match demo_environ !! env_key with
        | Some env_value =>
            if String.eqb env_value "" then get demo_config config_key default_
            else if String.eqb config_key "debug" then VBool (debug_flag env_value)
                 else VStr env_value
        | None => get demo_config config_key default_
        end.
Proof.
  apply (env_overrides demo_error demo_config demo_environ).
  - vm_compute. reflexivity.
  - vm_compute. reflexivity.
Defined.

Lemma env_overrides_example :
  get (_load_from_env demo_error demo_config demo_environ).1 "ai.api_key" VNone
  = VStr "sk-env"
  ∧ get (_load_from_env demo_error demo_config demo_environ).1 "debug" VNone
    = VBool true
  ∧ get (_load_from_env demo_error demo_config demo_environ).1 "ai.model" VNone
    = VStr "gpt-4".
Proof. by vm_compute. Qed.
End Config.
